(** * Job-market-insights: normalisation and feature-extraction engine

    A shallow embedding of the decision logic of
    [src/features/extract_features.py] and
    [src/processing/clean_transform.py], of the cleanup of the raw files,
    of the keyword rotation and the locations of the fresh sweep and of the
    summaries [src/run_pipeline.py] logs, and the properties of it that the
    specification states or the code shows.

    Modelling conventions.
    - A Python [str] is a [list ascii]; every [ascii] stands for one code
      point in U+0000..U+00FF (Latin-1).  The character classes of
      [str.lower], [str.strip], [str.split] and of the regular expressions
      ([\w], [\s], [\d], [\b], IGNORECASE literals) are the ones CPython
      has on that range.
    - [None] is [option]'s [None]; exceptions are the [Raise] outcome of
      [Res].
    - Regular expressions are values of [Re.regex], run by a backtracking
      matcher that lists the possible ends of a match in the order in which
      CPython's engine tries them; [search], [finditer] and [sub] scan the
      subject from left to right as [re] does.
    - The skill configuration is a value of [pyval], the part of what
      [yaml.safe_load] returns that is made of null, booleans, integers,
      strings, sequences and mappings.

    - A naive [datetime] is an integer number of microseconds; a JSON
      object with integer values is an association list.

    Layout: the embedding ([Chr], [Str], [Re], [Py], [ExtractFeatures],
    [CleanTransform], [CleanupRawFiles], [FetchJobs], [FreshSweep],
    [RunPipeline]), then the facts, one module per component. *)

From Stdlib Require Import List Ascii String ZArith NArith Bool Arith Lia QArith.
From Stdlib Require Import Numbers.DecimalString Numbers.DecimalPos.
From Stdlib Require Import Sorting.Permutation.
Import ListNotations.
Local Close Scope Q_scope.
Local Open Scope list_scope.
Local Open Scope bool_scope.

Set Implicit Arguments.
Set Warnings "-register-all".

(** [length] is the length of a list throughout. *)
Abbreviation length := Datatypes.length.

(** ** Python strings *)

Definition pystr := list ascii.

(** [str "abc"] is the Python literal ["abc"]. *)
Definition str (s : string) : pystr := list_ascii_of_string s.
Arguments str : simpl never.

Module Chr.

Definition code (c : ascii) : N := N_of_ascii c.

Definition between (lo hi : N) (c : ascii) : bool :=
  (lo <=? code c)%N && (code c <=? hi)%N.

Definition at_code (n : N) (c : ascii) : bool := (code c =? n)%N.

(** [str.isspace] / [\s]: TAB..CR, FS..US, SPACE, NEL, NBSP. *)
Definition isspace (c : ascii) : bool :=
  between 9 13 c || between 28 32 c || at_code 133 c || at_code 160 c.

(** [\d] on [str]: the decimal digits. *)
Definition isdecimal (c : ascii) : bool := between 48 57 c.

(** Upper-case letters: A-Z, and U+00C0..U+00DE without the
    multiplication sign U+00D7. *)
Definition isupper (c : ascii) : bool :=
  between 65 90 c || (between 192 222 c && negb (at_code 215 c)).

(** [str.isalpha]: ASCII letters, the ordinal indicators U+00AA and
    U+00BA, the micro sign U+00B5, and U+00C0..U+00FF without the
    multiplication and division signs. *)
Definition isalpha (c : ascii) : bool :=
  between 65 90 c || between 97 122 c
  || at_code 170 c || at_code 181 c || at_code 186 c
  || (between 192 255 c && negb (at_code 215 c) && negb (at_code 247 c)).

(** [str.isalnum]: alphabetic, decimal, digit (superscripts 1,2,3) or
    numeric (the vulgar fractions U+00BC..U+00BE). *)
Definition isalnum (c : ascii) : bool :=
  isalpha c || isdecimal c
  || at_code 178 c || at_code 179 c || at_code 185 c
  || between 188 190 c.

(** [\w] on [str]: alphanumeric or underscore. *)
Definition isword (c : ascii) : bool := isalnum c || at_code 95 c.

(** One character of [str.lower]. *)
Definition lower (c : ascii) : ascii :=
  if isupper c then ascii_of_N (code c + 32) else c.

End Chr.

Module Str.

Definition eqb (a b : pystr) : bool :=
  if list_eq_dec ascii_dec a b then true else false.

Definition nonempty (s : pystr) : bool :=
  match s with [] => false | _ :: _ => true end.

(** [s.lower()] *)
Definition lower (s : pystr) : pystr := map Chr.lower s.

(** [s.lstrip()], [s.rstrip()], [s.strip()] *)
Fixpoint lstrip (s : pystr) : pystr :=
  match s with
  | [] => []
  | c :: t => if Chr.isspace c then lstrip t else s
  end.

Fixpoint rstrip (s : pystr) : pystr :=
  match s with
  | [] => []
  | c :: t =>
      match rstrip t with
      | [] => if Chr.isspace c then [] else [c]
      | r => c :: r
      end
  end.

Definition strip (s : pystr) : pystr := rstrip (lstrip s).

(** [s.split(sep)] for a one-character separator: every separator cuts,
    empty pieces are kept, the result is never empty. *)
Fixpoint split_on (sep : ascii) (s : pystr) : list pystr :=
  match s with
  | [] => [[]]
  | c :: t =>
      if Ascii.eqb c sep then [] :: split_on sep t
      else match split_on sep t with
           | p :: ps => (c :: p) :: ps
           | [] => [[c]]
           end
  end.

(** [s.split()]: the maximal runs of non-whitespace characters.  [cur]
    holds the current run, reversed. *)
Fixpoint split_go (cur : pystr) (s : pystr) : list pystr :=
  match s with
  | [] => match cur with [] => [] | _ => [rev cur] end
  | c :: t =>
      if Chr.isspace c
      then match cur with
           | [] => split_go [] t
           | _ => rev cur :: split_go [] t
           end
      else split_go (c :: cur) t
  end.

Definition split (s : pystr) : list pystr := split_go [] s.

(** [sep.join(parts)] *)
Fixpoint join (sep : pystr) (parts : list pystr) : pystr :=
  match parts with
  | [] => []
  | [p] => p
  | p :: ps => p ++ sep ++ join sep ps
  end.

Fixpoint startswith (p s : pystr) : bool :=
  match p, s with
  | [], _ => true
  | a :: p', b :: s' => Ascii.eqb a b && startswith p' s'
  | _ :: _, [] => false
  end.

(** [needle in hay] *)
Fixpoint contains (needle hay : pystr) : bool :=
  startswith needle hay
  || match hay with
     | [] => false
     | _ :: t => contains needle t
     end.

(** [x in [..]] on a list of strings *)
Definition mem (x : pystr) (l : list pystr) : bool := existsb (eqb x) l.

End Str.

(** ** Outcomes of fallible code *)

Inductive exn : Type :=
| ConfigError      (* Exception("config/skills.yml must be a dict ...") *)
| AttributeError
| TypeError
| IndexError
| KeyError.

Inductive Res (A : Type) : Type :=
| Ok (a : A)
| Raise (e : exn).
Arguments Ok {A} a.
Arguments Raise {A} e.

Definition bind {A B} (m : Res A) (k : A -> Res B) : Res B :=
  match m with
  | Ok a => k a
  | Raise e => Raise e
  end.

Notation "x <- m ;; k" := (bind m (fun x => k))
  (at level 61, m at next level, right associativity).

(** ** Regular expressions *)

Module Re.

(** The constructs the source patterns use.  A repetition always
    applies to a one-character class ([\s+], [\s*], [\d{1,2}],
    [[^>]+]), and there is at most one capturing group. *)
Inductive regex : Type :=
| Eps
| Lit (a : ascii)
| Class (p : ascii -> bool)
| Seq (r1 r2 : regex)
| Alt (r1 r2 : regex)
| Rep (p : ascii -> bool) (lo : nat) (hi : option nat)
| Group (r : regex)
| NotBehind (p : ascii -> bool)      (* (?<!p) *)
| NotAhead (p : ascii -> bool)       (* (?!p)  *)
| WordB.                             (* \b     *)

(** A position in the subject: the text behind it (nearest character
    first), the text ahead, and what group 1 captured so far. *)
Record cursor : Type := Cursor {
  behind : pystr;
  ahead : pystr;
  group1 : option pystr
}.

Definition lit_eq (ic : bool) (a c : ascii) : bool :=
  if ic then Ascii.eqb (Chr.lower a) (Chr.lower c) else Ascii.eqb a c.

Definition step1 (ok : ascii -> bool) (s : cursor) : list cursor :=
  match ahead s with
  | c :: t => if ok c then [Cursor (c :: behind s) t (group1 s)] else []
  | [] => []
  end.

Definition may_more (hi : option nat) : bool :=
  match hi with Some 0 => false | _ => true end.

(** Greedy repetition of a class: the positions reachable by taking
    between [lo] and [hi] characters, the longest first. *)
Fixpoint rep (p : ascii -> bool) (lo : nat) (hi : option nat)
    (l r : pystr) : list (pystr * pystr) :=
  (match r with
   | c :: t =>
       if may_more hi && p c
       then rep p (Nat.pred lo) (option_map Nat.pred hi) (c :: l) t
       else []
   | [] => []
   end)
  ++ (match lo with 0 => [(l, r)] | S _ => [] end).

Definition word_behind (s : cursor) : bool :=
  match behind s with c :: _ => Chr.isword c | [] => false end.

Definition word_ahead (s : cursor) : bool :=
  match ahead s with c :: _ => Chr.isword c | [] => false end.

(** [run ic r s]: the cursors at which a match of [r] started at [s] can
    end, in the engine's order of preference.  [ic] is the IGNORECASE
    flag. *)
Fixpoint run (ic : bool) (r : regex) (s : cursor) : list cursor :=
  match r with
  | Eps => [s]
  | Lit a => step1 (lit_eq ic a) s
  | Class p => step1 p s
  | Seq r1 r2 => flat_map (run ic r2) (run ic r1 s)
  | Alt r1 r2 => run ic r1 s ++ run ic r2 s
  | Rep p lo hi =>
      map (fun lr => Cursor (fst lr) (snd lr) (group1 s))
          (rep p lo hi (behind s) (ahead s))
  | Group r' =>
      map (fun e =>
             Cursor (behind e) (ahead e)
               (Some (firstn (length (ahead s) - length (ahead e)) (ahead s))))
          (run ic r' s)
  | NotBehind p =>
      match behind s with
      | c :: _ => if p c then [] else [s]
      | [] => [s]
      end
  | NotAhead p =>
      match ahead s with
      | c :: _ => if p c then [] else [s]
      | [] => [s]
      end
  | WordB => if xorb (word_behind s) (word_ahead s) then [s] else []
  end.

(** The match the engine reports at a given start, if any. *)
Definition match_at (ic : bool) (r : regex) (l t : pystr) : option cursor :=
  hd_error (run ic r (Cursor l t None)).

(** [rx.search(t)]: the first start position with a match. *)
Fixpoint search_from (ic : bool) (r : regex) (l t : pystr) : option cursor :=
  match match_at ic r l t with
  | Some e => Some e
  | None =>
      match t with
      | [] => None
      | c :: t' => search_from ic r (c :: l) t'
      end
  end.

Definition search (ic : bool) (r : regex) (t : pystr) : option cursor :=
  search_from ic r [] t.

Definition found (o : option cursor) : bool :=
  match o with Some _ => true | None => false end.

(** Length of the match that starts with [t] ahead and ends at [e]. *)
Definition span (t : pystr) (e : cursor) : nat := length t - length (ahead e).

(** [re.finditer(p, t)]: leftmost, non-overlapping matches.  [skip]
    counts the characters of the last match still to be stepped over.
    (The source patterns never match the empty string; after an empty
    match the scan simply moves on by one character.) *)
Fixpoint finditer_from (ic : bool) (r : regex) (l t : pystr) (skip : nat)
    : list cursor :=
  match skip with
  | S k =>
      match t with
      | [] => []
      | c :: t' => finditer_from ic r (c :: l) t' k
      end
  | 0 =>
      match match_at ic r l t with
      | Some e =>
          e :: match t with
               | [] => []
               | c :: t' => finditer_from ic r (c :: l) t' (Nat.pred (span t e))
               end
      | None =>
          match t with
          | [] => []
          | c :: t' => finditer_from ic r (c :: l) t' 0
          end
      end
  end.

Definition finditer (ic : bool) (r : regex) (t : pystr) : list cursor :=
  finditer_from ic r [] t 0.

(** [re.sub(p, repl, t)] for a replacement without group references:
    the text outside the matches is copied, each match becomes [repl]. *)
Fixpoint sub_from (ic : bool) (r : regex) (repl : pystr) (l t : pystr)
    (skip : nat) : pystr :=
  match skip with
  | S k =>
      match t with
      | [] => []
      | c :: t' => sub_from ic r repl (c :: l) t' k
      end
  | 0 =>
      match match_at ic r l t with
      | Some e =>
          repl ++ match t with
                  | [] => []
                  | c :: t' =>
                      match span t e with
                      | 0 => c :: sub_from ic r repl (c :: l) t' 0
                      | S k => sub_from ic r repl (c :: l) t' k
                      end
                  end
      | None =>
          match t with
          | [] => []
          | c :: t' => c :: sub_from ic r repl (c :: l) t' 0
          end
      end
  end.

Definition sub (ic : bool) (r : regex) (repl t : pystr) : pystr :=
  sub_from ic r repl [] t 0.

(** A literal word, character by character. *)
Fixpoint word (w : pystr) : regex :=
  match w with
  | [] => Eps
  | c :: w' => Seq (Lit c) (word w')
  end.

(** [p1|p2|...|pn]; the empty alternation is the empty pattern. *)
Fixpoint alt_of (ps : list regex) : regex :=
  match ps with
  | [] => Eps
  | [p] => p
  | p :: ps' => Alt p (alt_of ps')
  end.

End Re.

(** ** Values read from the YAML configuration

    The part of what [yaml.safe_load] can return that the model covers:
    null, booleans, integers, strings, sequences and mappings (a mapping
    keeps its definition order, as a Python [dict] does). *)

Inductive scalar : Type :=
| SNone
| SBool (b : bool)
| SInt (z : Z)
| SStr (s : pystr).

Inductive pyval : Type :=
| VScalar (x : scalar)
| VList (l : list pyval)
| VDict (d : list (scalar * pyval)).

Definition VStr (s : pystr) : pyval := VScalar (SStr s).

Module Py.

(** Truth value of an object ([not x] is its negation). *)
Definition truthy_scalar (x : scalar) : bool :=
  match x with
  | SNone => false
  | SBool b => b
  | SInt z => negb (z =? 0)%Z
  | SStr s => Str.nonempty s
  end.

Definition truthy (v : pyval) : bool :=
  match v with
  | VScalar x => truthy_scalar x
  | VList l => match l with [] => false | _ => true end
  | VDict d => match d with [] => false | _ => true end
  end.

Definition truthy_opt (o : option pystr) : bool :=
  match o with Some s => Str.nonempty s | None => false end.

(** [str(x)] of a scalar. *)
Definition str_of_scalar (x : scalar) : pystr :=
  match x with
  | SNone => str "None"
  | SBool true => str "True"
  | SBool false => str "False"
  | SInt z => str (NilEmpty.string_of_int (Z.to_int z))
  | SStr s => s
  end.

(** [for a in v]: the items a value yields, or [TypeError] when it is
    not iterable.  A string yields its characters, a mapping its keys. *)
Definition iter (v : pyval) : Res (list pyval) :=
  match v with
  | VScalar (SStr s) => Ok (map (fun c => VStr [c]) s)
  | VScalar _ => Raise TypeError
  | VList l => Ok l
  | VDict d => Ok (map (fun kv => VScalar (fst kv)) d)
  end.

Definition scalar_is_str (k : scalar) (s : pystr) : bool :=
  match k with SStr s' => Str.eqb s' s | _ => false end.

(** [d.get(key, default)] for a string key. *)
Fixpoint dict_get (d : list (scalar * pyval)) (key : pystr) (default : pyval)
    : pyval :=
  match d with
  | [] => default
  | (k, v) :: d' => if scalar_is_str k key then v else dict_get d' key default
  end.

(** [int(s)] of a string: surrounding whitespace, an optional sign, and
    decimal digits with single underscores between them; [None] stands
    for the [ValueError]. *)
Fixpoint digits (acc : Z) (after_digit : bool) (s : pystr) : option Z :=
  match s with
  | [] => if after_digit then Some acc else None
  | c :: t =>
      if Chr.isdecimal c
      then digits (acc * 10 + (Z.of_N (Chr.code c) - 48))%Z true t
      else if Chr.at_code 95 c && after_digit then digits acc false t
      else None
  end.

Definition int (s : pystr) : option Z :=
  match Str.strip s with
  | c :: t =>
      if Chr.at_code 43 c then digits 0 false t
      else if Chr.at_code 45 c then option_map Z.opp (digits 0 false t)
      else digits 0 false (c :: t)
  | [] => None
  end.

End Py.

(** [decimal.Decimal]: sign, integer coefficient and exponent; the number
    is [(-1)^sign * coefficient * 10^exponent], held exactly. *)
Record Decimal : Type := MkDecimal {
  dec_sign : bool;
  dec_coeff : N;
  dec_exp : Z
}.

(** [Decimal(n)] of an [int]. *)
Definition Decimal_of_int (n : Z) : Decimal :=
  MkDecimal (n <? 0)%Z (Z.abs_N n) 0.

Definition dec_value (d : Decimal) : Q :=
  Qmult (inject_Z ((if dec_sign d then -1 else 1) * Z.of_N (dec_coeff d)))
        (Qpower (inject_Z 10) (dec_exp d)).

(** ** src/features/extract_features.py *)

Module ExtractFeatures.
Import Re.

Definition or_empty (s : option pystr) : pystr :=
  match s with
  | Some x => x
  | None => []
  end.

Section Compile.

(** [str(x)] of a sequence or mapping is its [repr]; the model leaves
    that rendering open, and nothing below depends on it. *)
Variable container_str : pyval -> pystr.

Definition py_str (v : pyval) : pystr :=
  match v with
  | VScalar x => Py.str_of_scalar x
  | _ => container_str v
  end.

(** Lines 27-32: [skills_cfg = yaml.safe_load(f) or {}], then
    [skills_map = skills_cfg.get("skills", {})] and its guard. *)
Definition skills_cfg (loaded : pyval) : pyval :=
  if Py.truthy loaded then loaded else VDict [].

Definition skills_map (loaded : pyval) : Res (list (scalar * pyval)) :=
  match skills_cfg loaded with
  | VDict cfg =>
      match Py.dict_get cfg (str "skills") (VDict []) with
      | VDict m =>
          if negb (Py.truthy (VDict m)) then Raise ConfigError else Ok m
      | _ => Raise ConfigError
      end
  | _ => Raise AttributeError
  end.

(** Line 40: the trimmed, lower-cased aliases that are not blank. *)
Definition alias_list (aliases : pyval) : Res (list pystr) :=
  items <- Py.iter aliases ;;
  Ok (map (fun a => Str.lower (Str.strip (py_str a)))
          (filter (fun a => Str.nonempty (Str.strip (py_str a))) items)).

(** Line 43: [re.escape(a).replace("\\ ", "\\s+")] -- every character
    of the alias is a literal, except the space, which becomes [\s+]. *)
Fixpoint alias_pattern (a : pystr) : regex :=
  match a with
  | [] => Eps
  | c :: a' =>
      Seq (if Chr.at_code 32 c then Rep Chr.isspace 1 None else Lit c)
          (alias_pattern a')
  end.

(** Line 45: [(?<!\w)(p1|...|pn)(?!\w)], compiled with [(?i)]. *)
Definition skill_regex (al : list pystr) : regex :=
  Seq (NotBehind Chr.isword)
      (Seq (Group (alt_of (map alias_pattern al)))
           (NotAhead Chr.isword)).

Definition canonical_norm (canonical : scalar) : pystr :=
  Str.lower (Str.strip (Py.str_of_scalar canonical)).

(** Lines 35-46: the loop over [skills_map.items()]. *)
Fixpoint compile (items : list (scalar * pyval)) : Res (list (pystr * regex)) :=
  match items with
  | [] => Ok []
  | (canonical, aliases) :: rest =>
      if negb (Py.truthy aliases) then compile rest
      else
        al <- alias_list aliases ;;
        more <- compile rest ;;
        Ok ((canonical_norm canonical, skill_regex al) :: more)
  end.

(** The module-level value [compiled], from what the YAML file holds. *)
Definition compiled (loaded : pyval) : Res (list (pystr * regex)) :=
  m <- skills_map loaded ;;
  compile m.

End Compile.

(** The character classes of [normalize_text]. *)
Definition is_separator (c : ascii) : bool :=      (* [/,_\-|] *)
  Chr.at_code 47 c || Chr.at_code 44 c || Chr.at_code 95 c
  || Chr.at_code 45 c || Chr.at_code 124 c.

Definition is_other (c : ascii) : bool :=          (* [^\w\s\+] *)
  negb (Chr.isword c || Chr.isspace c || Chr.at_code 43 c).

Definition normalize_text (s : option pystr) : pystr :=
  if negb (Py.truthy_opt s) then []
  else
    let s := Str.lower (or_empty s) in
    let s := sub false (Class is_separator) (str " ") s in
    let s := sub false (Class is_other) (str " ") s in
    let s := Str.strip (sub false (Rep Chr.isspace 1 None) (str " ") s) in
    s.

Definition has (needle : string) (t : pystr) : bool :=
  Str.contains (str needle) t.

(** [\bml\b], [\bbi\b] *)
Definition standalone (w : string) : regex :=
  Seq WordB (Seq (word (str w)) WordB).

Definition classify_role_family (title : option pystr) : pystr :=
  let t := Str.lower (or_empty title) in
  if has "data engineer" t || has "etl" t || has "pipeline" t
  then str "Data Engineering"
  else if has "data scientist" t || has "machine learning" t
          || found (search false (standalone "ml") t)
  then str "Data Science"
  else if has "business intelligence" t || has "power bi" t
          || has "tableau" t || found (search false (standalone "bi") t)
  then str "Business Intelligence"
  else if has "analyst" t || has "analytics" t
  then str "Analytics"
  else str "Other".

(** [any(x in t for x in xs)] *)
Definition any_in (xs : list string) (t : pystr) : bool :=
  existsb (fun x => has x t) xs.

Definition infer_seniority (title : option pystr) : pystr :=
  let t := Str.lower (or_empty title) in
  if any_in ["intern"; "co-op"; "student"]%string t
  then str "Intern"
  else if any_in ["director"; "head"; "vp"; "vice president"; "manager"]%string t
  then str "Management"
  else if any_in ["principal"; "staff"; "lead"; "senior"; "sr."; "sr "]%string t
  then str "Senior"
  else if any_in ["junior"; "jr."; "entry"; "associate"; "new grad"]%string t
  then str "Entry"
  else str "Mid".

Definition infer_remote (text_blob : option pystr) : bool :=
  let t := Str.lower (or_empty text_blob) in
  any_in ["remote"; "work from home"; "wfh"; "telecommute"; "fully remote";
          "100% remote"; "anywhere"]%string t.

(** The four patterns of [extract_years_experience]. *)
Definition digits12 : regex := Group (Rep Chr.isdecimal 1 (Some 2)).
Definition ws_star : regex := Rep Chr.isspace 0 None.
Definition ws_plus : regex := Rep Chr.isspace 1 None.
Definition unit_years : regex := Alt (word (str "years")) (word (str "yrs")).

Definition patterns : list regex :=
  [ (* (\d{1,2})\s*\+\s*(?:years|yrs)\b *)
    Seq digits12 (Seq ws_star (Seq (Lit "+") (Seq ws_star (Seq unit_years WordB))));
    (* minimum\s+(\d{1,2})\s*(?:years|yrs)\b *)
    Seq (word (str "minimum"))
        (Seq ws_plus (Seq digits12 (Seq ws_star (Seq unit_years WordB))));
    (* at\s+least\s+(\d{1,2})\s*(?:years|yrs)\b *)
    Seq (word (str "at"))
        (Seq ws_plus
           (Seq (word (str "least"))
              (Seq ws_plus (Seq digits12 (Seq ws_star (Seq unit_years WordB))))));
    (* (\d{1,2})\s*(?:years|yrs)\s+of\s+experience *)
    Seq digits12
        (Seq ws_star
           (Seq unit_years
              (Seq ws_plus
                 (Seq (word (str "of"))
                    (Seq ws_plus (word (str "experience")))))))
  ].

(** [int(m.group(1))] under [try ... except: pass]: a candidate that
    does not parse contributes nothing. *)
Definition hit_of (m : cursor) : list Z :=
  match group1 m with
  | Some g => match Py.int g with Some n => [n] | None => [] end
  | None => []
  end.

Definition hits (t : pystr) : list Z :=
  flat_map (fun p => flat_map hit_of (finditer false p t)) patterns.

(** [min(hits)] of a non-empty list. *)
Definition py_min (h : Z) (hs : list Z) : Z := fold_left Z.min hs h.

Definition extract_years_experience (text_blob : option pystr) : option Decimal :=
  let t := normalize_text (Some (or_empty text_blob)) in
  match hits t with
  | [] => None
  | h :: hs => Some (Decimal_of_int (py_min h hs))
  end.

(** [extract_skills], with the module-level [compiled] passed in. *)
Definition extract_skills (compiled : list (pystr * regex))
    (text_blob : option pystr) : list pystr * list pystr :=
  let t := normalize_text (Some (or_empty text_blob)) in
  let found_skills :=
    map fst (filter (fun entry => found (search true (snd entry) t)) compiled) in
  (found_skills, firstn 10 found_skills).

(** One row of [job_postings_clean] as [main] reads it, and the part of
    the record [main] derives from it that comes from the text. *)
Record posting : Type := Posting {
  title : option pystr;
  location_raw : option pystr;
  description_clean : option pystr
}.

Record features : Type := Features {
  role_family : pystr;
  seniority : pystr;
  is_remote : bool;
  years_experience_min : option Decimal;
  skills : list pystr;
  skills_count : Z;
  top_skills : list pystr;
  has_explicit_skills : bool
}.

Definition main_row (compiled : list (pystr * regex)) (r : posting) : features :=
  let title := or_empty (title r) in
  let desc := or_empty (description_clean r) in
  let loc_raw := or_empty (location_raw r) in
  let blob := title ++ str (String "010" "") ++ loc_raw ++ str (String "010" "") ++ desc in
  let role_family := classify_role_family (Some title) in
  let seniority := infer_seniority (Some title) in
  let is_remote := infer_remote (Some blob) in
  let yoe_min := extract_years_experience (Some blob) in
  let '(skills_found, top_skills) := extract_skills compiled (Some blob) in
  let skills_count := Z.of_nat (length skills_found) in
  let has_explicit := (skills_count >? 0)%Z in
  Features role_family seniority is_remote yoe_min skills_found skills_count
           top_skills has_explicit.

(** [baseline_skills_for_role]: the table, and [mapping.get(role, [])]
    on the trimmed role, "Other" standing in for a null or empty one. *)
Definition baseline_mapping : list (pystr * list pystr) :=
  [ (str "Analytics", [str "sql"; str "excel"]);
    (str "Business Intelligence", [str "sql"; str "power bi"; str "tableau"]);
    (str "Data Engineering", [str "sql"; str "python"; str "etl"; str "cloud"]);
    (str "Data Science", [str "python"; str "statistics"; str "machine learning"]);
    (str "Other", []) ].

Definition baseline_skills_for_role (role_family : option pystr) : list pystr :=
  let role :=
    Str.strip (if Py.truthy_opt role_family then or_empty role_family
               else str "Other") in
  match find (fun kv => Str.eqb (fst kv) role) baseline_mapping with
  | Some kv => snd kv
  | None => []
  end.

(** The [baseline] of one row of [main]. *)
Definition main_baseline (r : posting) : list pystr :=
  baseline_skills_for_role (Some (classify_role_family (Some (or_empty (title r))))).

End ExtractFeatures.

(** ** src/processing/clean_transform.py *)

Module CleanTransform.
Import Re.

Definition US_STATES : list (pystr * pystr) :=
  map (fun kv => (str (fst kv), str (snd kv)))
    [("AL","Alabama"); ("AK","Alaska"); ("AZ","Arizona"); ("AR","Arkansas");
     ("CA","California"); ("CO","Colorado"); ("CT","Connecticut");
     ("DE","Delaware"); ("FL","Florida"); ("GA","Georgia"); ("HI","Hawaii");
     ("ID","Idaho"); ("IL","Illinois"); ("IN","Indiana"); ("IA","Iowa");
     ("KS","Kansas"); ("KY","Kentucky"); ("LA","Louisiana"); ("ME","Maine");
     ("MD","Maryland"); ("MA","Massachusetts"); ("MI","Michigan");
     ("MN","Minnesota"); ("MS","Mississippi"); ("MO","Missouri");
     ("MT","Montana"); ("NE","Nebraska"); ("NV","Nevada");
     ("NH","New Hampshire"); ("NJ","New Jersey"); ("NM","New Mexico");
     ("NY","New York"); ("NC","North Carolina"); ("ND","North Dakota");
     ("OH","Ohio"); ("OK","Oklahoma"); ("OR","Oregon"); ("PA","Pennsylvania");
     ("RI","Rhode Island"); ("SC","South Carolina"); ("SD","South Dakota");
     ("TN","Tennessee"); ("TX","Texas"); ("UT","Utah"); ("VT","Vermont");
     ("VA","Virginia"); ("WA","Washington"); ("WV","West Virginia");
     ("WI","Wisconsin"); ("WY","Wyoming")]%string.

Definition STATE_NAMES : list pystr := map snd US_STATES.
Definition STATE_ABBRS : list pystr := map fst US_STATES.

(** [US_STATES[k]] *)
Definition state_of (k : pystr) : Res pystr :=
  match find (fun kv => Str.eqb (fst kv) k) US_STATES with
  | Some kv => Ok (snd kv)
  | None => Raise KeyError
  end.

Definition tag : regex :=                       (* <[^>]+> *)
  Seq (Lit "<") (Seq (Rep (fun c => negb (Chr.at_code 62 c)) 1 None) (Lit ">")).

Definition clean_text (html_text : option pystr) : option pystr :=
  if negb (Py.truthy_opt html_text) then None
  else
    let text_only := sub false tag (str " ") (ExtractFeatures.or_empty html_text) in
    let text_only := Str.strip (sub false (Rep Chr.isspace 1 None) (str " ") text_only) in
    Some text_only.

(** [x or None] for a string [x] *)
Definition or_none (s : pystr) : option pystr :=
  if Str.nonempty s then Some s else None.

Definition parse_city_state (location_raw : option pystr)
    : Res (option pystr * option pystr) :=
  if negb (Py.truthy_opt location_raw) then Ok (None, None)
  else
      let loc := Str.strip (ExtractFeatures.or_empty location_raw) in
      let parts :=
        map Str.strip
            (filter (fun p => Str.nonempty (Str.strip p)) (Str.split_on "," loc)) in
      match parts with
      | city :: maybe_state :: _ =>            (* len(parts) >= 2 *)
          if Str.mem maybe_state STATE_ABBRS then
            st <- state_of maybe_state ;; Ok (Some city, Some st)
          else if Str.mem maybe_state STATE_NAMES then
            Ok (Some city, Some maybe_state)
          else
            match Str.split maybe_state with
            | [] => Raise IndexError
            | tok :: _ =>
                let token := Str.strip tok in
                if Str.mem token STATE_ABBRS then
                  st <- state_of token ;; Ok (Some city, Some st)
                else if Str.mem token STATE_NAMES then
                  Ok (Some city, Some token)
                else Ok (Some city, None)
            end
      | _ =>
          let tokens := Str.split loc in
          match tokens with
          | [] => Ok (None, None)
          | _ :: _ =>
              let last := Str.strip (List.last tokens []) in
              if Str.mem last STATE_ABBRS then
                st <- state_of last ;;
                Ok (or_none (Str.strip (Str.join (str " ") (removelast tokens))),
                    Some st)
              else Ok (Some loc, None)
          end
      end.

(** Lines 121-125 of [main]: the parse, then the fallback to the row's
    [query_state]. *)
Definition main_location (location query_state : option pystr)
    : Res (option pystr * option pystr) :=
  cs <- parse_city_state location ;;
  let '(city, state) := cs in
  if negb (Py.truthy_opt state) && Py.truthy_opt query_state
  then Ok (city, query_state)
  else Ok (city, state).

(** [str(n)] of a count. *)
Definition str_of_count (n : nat) : pystr := Py.str_of_scalar (SInt (Z.of_nat n)).

(** What [print] sends to the standard output: the lines, each followed
    by a line feed. *)
Definition printed (lines : list pystr) : pystr :=
  flat_map (fun l => l ++ ["010"%char]) lines.

(** The standard output of a run of [main] that completes: the four
    [print] calls (lines 104, 117, 175 and 176); [cleaned] gets one entry
    per raw row, so both counts are the number of raw rows. *)
Definition main_stdout (raw_rows : nat) : pystr :=
  printed
    [ str "[INFO] Starting Phase 2 clean transform...";
      str "[INFO] Raw rows fetched: " ++ str_of_count raw_rows;
      str "[DONE] Clean rows upserted: " ++ str_of_count raw_rows;
      str "[NEXT] Verify state fill: SELECT state, COUNT(*) FROM job_postings_clean GROUP BY state;" ].

End CleanTransform.

(** ** src/monitoring/cleanup_raw_files.py *)

Module CleanupRawFiles.
Import CleanTransform.

(** A call that returns or raises with a message ([str(e)]). *)
Inductive outcome (A : Type) : Type :=
| Done (a : A)
| Fails (message : pystr).
Arguments Done {A} a.
Arguments Fails {A} message.

(** A file [RAW_DIR.glob("*.json")] yields: its name, what
    [datetime.fromtimestamp(f.stat().st_mtime)] gives and what
    [os.remove(f)] does.  A naive [datetime] is a number of microseconds
    on the wall clock. *)
Record raw_file : Type := RawFile {
  name : pystr;
  mtime : outcome Z;
  remove : outcome unit
}.

Definition RETENTION_DAYS : Z := 10.

(** [timedelta(days=d)] *)
Definition days (d : Z) : Z := (d * 86400 * 1000000)%Z.

(** The state of the loop: the files left in the directory, the two
    counters and the lines printed so far. *)
Record progress : Type := Progress {
  left_files : list raw_file;
  deleted : nat;
  kept : nat;
  lines : list pystr
}.

Definition warn (f : raw_file) (e : pystr) : pystr :=
  str "[WARN] Failed to process " ++ name f ++ str ": " ++ e.

(** One turn of the loop (lines 22-30). *)
Definition visit (cutoff : Z) (st : progress) (f : raw_file) : progress :=
  match mtime f with
  | Done m =>
      if (m <? cutoff)%Z then
        match remove f with
        | Done _ => Progress (left_files st) (S (deleted st)) (kept st) (lines st)
        | Fails e =>
            Progress (left_files st ++ [f]) (deleted st) (kept st)
                     (lines st ++ [warn f e])
        end
      else Progress (left_files st ++ [f]) (deleted st) (S (kept st)) (lines st)
  | Fails e =>
      Progress (left_files st ++ [f]) (deleted st) (kept st)
               (lines st ++ [warn f e])
  end.

Definition sweep (now : Z) (files : list raw_file) : progress :=
  fold_left (visit (now - days RETENTION_DAYS)%Z) files (Progress [] 0 0 []).

(** [main]: the files left behind and the standard output. *)
Definition main (raw_dir_exists : bool) (now : Z) (files : list raw_file)
    : list raw_file * pystr :=
  if negb raw_dir_exists
  then (files, printed [str "[SKIP] Raw directory does not exist"])
  else
    let st := sweep now files in
    (left_files st,
     printed (lines st
              ++ [str "[DONE] Raw cleanup complete | deleted="
                  ++ str_of_count (deleted st) ++ str " | kept="
                  ++ str_of_count (kept st)])).

End CleanupRawFiles.

(** ** src/ingestion/fetch_jobs.py, src/ingestion/fresh_sweep.py *)

Module FetchJobs.
Import CleanTransform.

(** The standard output of a run of [main] that completes (lines 100 and
    133), [total_rows] being the number of rows it inserted. *)
Definition main_stdout (total_rows : nat) : pystr :=
  printed
    [ str "[START] Deep scan ingestion";
      str "[DONE] Deep scan complete | rows_processed=" ++ str_of_count total_rows ].

End FetchJobs.

Module FreshSweep.
Import CleanTransform.

(** The standard output of a run of [main] that completes (lines 141 and
    175). *)
Definition main_stdout (keyword : pystr) (locations total_rows : nat) : pystr :=
  printed
    [ str "[START] Fresh sweep | keyword='" ++ keyword ++ str "' | locations="
      ++ str_of_count locations;
      str "[DONE] Fresh sweep complete | rows_processed=" ++ str_of_count total_rows ].

(** [read_locations], on the lines the locations file yields (each with
    its line end, when it has one). *)
Fixpoint read_locations (lines : list pystr) : list pystr :=
  match lines with
  | [] => []
  | line :: rest =>
      let s := Str.strip line in
      if Str.nonempty s && negb (Str.startswith (str "#") s)
      then s :: read_locations rest
      else read_locations rest
  end.

(** The keyword state: a JSON object with integer values, which is what
    [save_keyword_state] writes. *)
Definition keyword_state : Type := list (pystr * Z).

(** [st.get(key, default)] and [st[key] = v] *)
Fixpoint state_get (st : keyword_state) (key : pystr) (default : Z) : Z :=
  match st with
  | [] => default
  | (k, v) :: st' => if Str.eqb k key then v else state_get st' key default
  end.

Fixpoint state_set (st : keyword_state) (key : pystr) (v : Z) : keyword_state :=
  match st with
  | [] => [(key, v)]
  | (k, x) :: st' =>
      if Str.eqb k key then (k, v) :: st' else (k, x) :: state_set st' key v
  end.

Definition NEXT : pystr := str "next_keyword_index".

(** [load_keyword_state]: the object in the state file, or the initial
    state when the file is missing or cannot be parsed ([None]). *)
Definition load_keyword_state (file : option keyword_state) : keyword_state :=
  match file with
  | Some st => st
  | None => [(NEXT, 0%Z)]
  end.

(** [pick_keyword_for_run]: the keyword of the run and the state file it
    leaves; [None] when the call raises, which it does on an empty
    [KEYWORDS] ([ZeroDivisionError]). *)
Definition pick_keyword_for_run (KEYWORDS : list pystr)
    (file : option keyword_state) : option (pystr * option keyword_state) :=
  let st := load_keyword_state file in
  match KEYWORDS with
  | [] => None
  | _ :: _ =>
      let n := Z.of_nat (length KEYWORDS) in
      let idx := (state_get st NEXT 0 mod n)%Z in
      match nth_error KEYWORDS (Z.to_nat idx) with
      | Some kw => Some (kw, Some (state_set st NEXT ((idx + 1) mod n)%Z))
      | None => None
      end
  end.

End FreshSweep.

(** ** src/run_pipeline.py *)

Module RunPipeline.
Import Re.

(** [(\d+)] *)
Definition number : regex := Group (Rep Chr.isdecimal 1 None).

(** [name(\d+)] and [name\s*(\d+)] *)
Definition field (name : string) : regex := Seq (word (str name)) number.

Definition field_ws (name : string) : regex :=
  Seq (word (str name)) (Seq (Rep Chr.isspace 0 None) number).

(** [m.group(1) if m else "?"] *)
Definition group_or_unknown (m : option cursor) : pystr :=
  match m with
  | Some e => match group1 e with Some g => g | None => str "None" end
  | None => str "?"
  end.

Definition parse_summary (label stdout : pystr) : pystr :=
  if Str.eqb label (str "RawCleanup") then
    let m1 := search false (field "deleted=") stdout in
    let m2 := search false (field "kept=") stdout in
    let d := group_or_unknown m1 in
    let k := group_or_unknown m2 in
    str "deleted=" ++ d ++ str " | kept=" ++ k
  else if Str.eqb label (str "FreshSweep") then
    let m1 := search false (field "locations=") stdout in
    let m2 := search false (field "rows_processed=") stdout in
    let locs := group_or_unknown m1 in
    let rows := group_or_unknown m2 in
    str "locations=" ++ locs ++ str " | rows=" ++ rows
  else if Str.eqb label (str "Ingestion") then
    let m := search false (field "rows_processed=") stdout in
    match m with
    | Some _ => str "rows=" ++ group_or_unknown m
    | None => str "rows=?"
    end
  else if Str.eqb label (str "Cleaning") then
    let m1 := search false (field_ws "Raw rows fetched:") stdout in
    let m2 := search false (field_ws "Clean rows upserted:") stdout in
    let raw := group_or_unknown m1 in
    let up := group_or_unknown m2 in
    str "raw=" ++ raw ++ str " | clean=" ++ up
  else if Str.eqb label (str "Metrics") then
    let m1 := search false (field_ws "Rows fetched:") stdout in
    let m2 := search false (field_ws "Aggregated rows:") stdout in
    let clean := group_or_unknown m1 in
    let agg := group_or_unknown m2 in
    str "clean=" ++ clean ++ str " | days=" ++ agg
  else str "ok".

End RunPipeline.

(** * Facts about the character classes *)

Module ChrFacts.

Definition all_ascii : list ascii := map ascii_of_nat (seq 0 256).

Lemma all_ascii_complete (c : ascii) : In c all_ascii.
Proof.
  unfold all_ascii. rewrite <- (ascii_nat_embedding c).
  apply in_map, in_seq. pose proof (nat_ascii_bounded c). lia.
Qed.

(** A boolean property of characters holds of all of them as soon as it
    holds of the 256 code points. *)
Lemma by_cases (P : ascii -> bool) :
  forallb P all_ascii = true -> forall c, P c = true.
Proof.
  intros H c. rewrite forallb_forall in H. apply H, all_ascii_complete.
Qed.

Lemma chr_eqb_eq (a b : ascii) : Ascii.eqb a b = true <-> a = b.
Proof. apply Ascii.eqb_eq. Qed.

Lemma at_code_eq (n : N) (c : ascii) :
  Chr.at_code n c = true -> c = ascii_of_N n.
Proof.
  unfold Chr.at_code, Chr.code. intros H. apply N.eqb_eq in H.
  rewrite <- H. symmetry. apply ascii_N_embedding.
Qed.

Lemma chr_lower_idempotent (c : ascii) : Chr.lower (Chr.lower c) = Chr.lower c.
Proof.
  apply chr_eqb_eq. revert c.
  apply (by_cases (fun c => Ascii.eqb (Chr.lower (Chr.lower c)) (Chr.lower c))).
  vm_compute. reflexivity.
Qed.

End ChrFacts.

(** * Facts about the string operations *)

Module StrFacts.
Import Str.

Definition starts_ws (s : pystr) : bool :=
  match s with c :: _ => Chr.isspace c | [] => false end.

Lemma str_eqb_eq (a b : pystr) : eqb a b = true <-> a = b.
Proof.
  unfold eqb. destruct (list_eq_dec ascii_dec a b); split; congruence.
Qed.

Lemma str_eqb_refl (a : pystr) : eqb a a = true.
Proof. apply str_eqb_eq. reflexivity. Qed.

Lemma mem_In (x : pystr) (l : list pystr) : mem x l = true <-> In x l.
Proof.
  unfold mem. rewrite existsb_exists. split.
  - intros (y & Hy & E). apply str_eqb_eq in E. subst. assumption.
  - intros H. exists x. split; [assumption | apply str_eqb_refl].
Qed.

Lemma nonempty_true (s : pystr) : nonempty s = true <-> s <> [].
Proof. destruct s; simpl; split; congruence. Qed.

Lemma lstrip_starts (s : pystr) : starts_ws (lstrip s) = false.
Proof.
  induction s as [|c t IH]; simpl; [reflexivity|].
  destruct (Chr.isspace c) eqn:E; [assumption | simpl; assumption].
Qed.

Lemma lstrip_fixed (s : pystr) : starts_ws s = false -> lstrip s = s.
Proof. destruct s as [|c t]; simpl; [reflexivity|]. intros ->. reflexivity. Qed.

Lemma lstrip_suffix (s : pystr) : exists pre, s = pre ++ lstrip s.
Proof.
  induction s as [|c t (pre & IH)]; simpl.
  - exists []. reflexivity.
  - destruct (Chr.isspace c).
    + exists (c :: pre). simpl. congruence.
    + exists []. reflexivity.
Qed.

Lemma lstrip_In (s : pystr) (c : ascii) : In c (lstrip s) -> In c s.
Proof.
  destruct (lstrip_suffix s) as (pre & E). intros H.
  rewrite E. apply in_or_app. right. assumption.
Qed.

Lemma lstrip_all_space (s : pystr) :
  forallb Chr.isspace s = true -> lstrip s = [].
Proof.
  induction s as [|c t IH]; simpl; [reflexivity|].
  intros H. apply andb_prop in H as [-> H]. auto.
Qed.

Lemma rstrip_cons (c : ascii) (t : pystr) :
  rstrip (c :: t) =
  match rstrip t with
  | [] => if Chr.isspace c then [] else [c]
  | r => c :: r
  end.
Proof. reflexivity. Qed.

Lemma rstrip_head (s : pystr) (x : ascii) (r : pystr) :
  rstrip s = x :: r -> exists t, s = x :: t.
Proof.
  destruct s as [|c t]; [discriminate|].
  rewrite rstrip_cons. destruct (rstrip t).
  - destruct (Chr.isspace c); [discriminate|]. intros [= <- <-]. eauto.
  - intros [= <- <-]. eauto.
Qed.

Lemma rstrip_starts (s : pystr) :
  starts_ws s = false -> starts_ws (rstrip s) = false.
Proof.
  destruct (rstrip s) as [|x r] eqn:E; [reflexivity|].
  destruct (rstrip_head _ E) as (t & ->). simpl. auto.
Qed.

Lemma rstrip_idempotent (s : pystr) : rstrip (rstrip s) = rstrip s.
Proof.
  induction s as [|c t IH]; [reflexivity|].
  rewrite rstrip_cons. destruct (rstrip t) as [|x r] eqn:E.
  - destruct (Chr.isspace c) eqn:W; [reflexivity|].
    rewrite rstrip_cons. simpl. rewrite W. reflexivity.
  - rewrite rstrip_cons, IH. reflexivity.
Qed.

Lemma rstrip_In (s : pystr) (c : ascii) : In c (rstrip s) -> In c s.
Proof.
  induction s as [|d t IH]; [auto|].
  rewrite rstrip_cons. destruct (rstrip t) as [|x r].
  - destruct (Chr.isspace d); simpl; tauto.
  - simpl. intros [H|H]; auto.
Qed.

Lemma strip_In (s : pystr) (c : ascii) : In c (strip s) -> In c s.
Proof. intros H. apply lstrip_In, rstrip_In, H. Qed.

Lemma strip_idempotent (s : pystr) : strip (strip s) = strip s.
Proof.
  unfold strip.
  rewrite (lstrip_fixed (rstrip (lstrip s))).
  - apply rstrip_idempotent.
  - apply rstrip_starts, lstrip_starts.
Qed.

Lemma strip_all_space (s : pystr) :
  forallb Chr.isspace s = true -> strip s = [].
Proof. intros H. unfold strip. rewrite lstrip_all_space; auto. Qed.

Lemma str_lower_idempotent (s : pystr) : lower (lower s) = lower s.
Proof.
  unfold lower. rewrite map_map. apply map_ext.
  intros c. apply ChrFacts.chr_lower_idempotent.
Qed.

(** A string without whitespace is left alone by [strip]. *)
Definition non_ws (c : ascii) : bool := negb (Chr.isspace c).

Lemma strip_token (tok : pystr) : forallb non_ws tok = true -> strip tok = tok.
Proof.
  intros H. unfold strip. rewrite lstrip_fixed.
  - induction tok as [|c t IH]; [reflexivity|].
    simpl in H. apply andb_prop in H as [Hc Ht].
    rewrite rstrip_cons, IH by assumption.
    apply negb_true_iff in Hc. rewrite Hc. destruct t; reflexivity.
  - destruct tok as [|c t]; [reflexivity|]. simpl in *.
    apply andb_prop in H as [Hc _]. apply negb_true_iff in Hc. exact Hc.
Qed.

End StrFacts.

(** * Facts about the matcher *)

Module ReFacts.
Import Re.

Section Runs.
Variable p : ascii -> bool.

(** The longest prefix of characters in the class, and what follows. *)
Fixpoint run_of (t : pystr) : pystr :=
  match t with
  | c :: t' => if p c then c :: run_of t' else []
  | [] => []
  end.

Fixpoint after_run (t : pystr) : pystr :=
  match t with
  | c :: t' => if p c then after_run t' else t
  | [] => []
  end.

Lemma run_split (t : pystr) : t = run_of t ++ after_run t.
Proof.
  induction t as [|c t IH]; simpl; [reflexivity|].
  destruct (p c); simpl; congruence.
Qed.

Lemma after_run_shorter (t : pystr) : length (after_run t) <= length t.
Proof.
  induction t as [|c t IH]; simpl; [lia|]. destruct (p c); simpl; lia.
Qed.

Lemma rep_cons (lo : nat) (hi : option nat) (l : pystr) (c : ascii) (t : pystr) :
  rep p lo hi l (c :: t) =
  (if may_more hi && p c
   then rep p (Nat.pred lo) (option_map Nat.pred hi) (c :: l) t
   else [])
  ++ (match lo with 0 => [(l, c :: t)] | S _ => [] end).
Proof. reflexivity. Qed.

(** With no upper bound and no lower bound the first candidate is the
    whole run. *)
Lemma rep_greedy (t l : pystr) :
  hd_error (rep p 0 None l t) = Some (rev (run_of t) ++ l, after_run t).
Proof.
  revert l. induction t as [|c t IH]; intros l; [reflexivity|].
  rewrite rep_cons. simpl. destruct (p c); [|reflexivity].
  specialize (IH (c :: l)).
  destruct (rep p 0 None (c :: l) t) as [|x xs]; [discriminate|].
  simpl in *. rewrite IH, <- app_assoc. reflexivity.
Qed.

(** The candidates of an unbounded repetition are exactly the splits
    after at least [lo] characters of the class. *)
Lemma rep_In (lo : nat) (t l l' t' : pystr) :
  In (l', t') (rep p lo None l t) <->
  exists ws, forallb p ws = true /\ lo <= length ws
             /\ t = ws ++ t' /\ l' = rev ws ++ l.
Proof.
  revert lo l. induction t as [|c t IH]; intros lo l.
  - simpl. split.
    + destruct lo; simpl; [|tauto]. intros [[= <- <-]|[]].
      exists []. repeat split; auto.
    + intros (ws & _ & Hlo & E & ->).
      symmetry in E. apply app_eq_nil in E as [-> ->].
      simpl in Hlo. destruct lo; [left; reflexivity | lia].
  - rewrite rep_cons, in_app_iff. simpl may_more. simpl option_map.
    rewrite andb_true_l. split.
    + intros [H|H].
      * destruct (p c) eqn:Pc; [|destruct H].
        apply IH in H as (ws & Hws & Hlo & -> & ->).
        exists (c :: ws). simpl. rewrite Pc, <- app_assoc.
        repeat split; auto. lia.
      * destruct lo; [|destruct H]. destruct H as [[= <- <-]|[]].
        exists []. repeat split; auto.
    + intros (ws & Hws & Hlo & E & ->). destruct ws as [|d ws].
      * simpl in *. subst t'. right. destruct lo; [left; reflexivity | lia].
      * simpl in E. injection E as <- ->. simpl in Hws.
        apply andb_prop in Hws as [Pc Hws]. rewrite Pc. left.
        apply IH. exists ws. simpl. rewrite <- app_assoc.
        repeat split; auto. simpl in Hlo. lia.
Qed.

End Runs.

Lemma run_Seq (ic : bool) (r1 r2 : regex) (s : cursor) :
  run ic (Seq r1 r2) s = flat_map (run ic r2) (run ic r1 s).
Proof. reflexivity. Qed.

Lemma run_Alt (ic : bool) (r1 r2 : regex) (s : cursor) :
  run ic (Alt r1 r2) s = run ic r1 s ++ run ic r2 s.
Proof. reflexivity. Qed.

Lemma run_Lit (ic : bool) (a : ascii) (s : cursor) :
  run ic (Lit a) s = step1 (lit_eq ic a) s.
Proof. reflexivity. Qed.

Lemma run_Rep (ic : bool) (p : ascii -> bool) (lo : nat) (hi : option nat)
    (s : cursor) :
  run ic (Rep p lo hi) s =
  map (fun lr => Cursor (fst lr) (snd lr) (group1 s))
      (rep p lo hi (behind s) (ahead s)).
Proof. reflexivity. Qed.

Lemma step1_cons (ok : ascii -> bool) (l : pystr) (c : ascii) (t : pystr)
    (g : option pystr) :
  step1 ok (Cursor l (c :: t) g) = if ok c then [Cursor (c :: l) t g] else [].
Proof. reflexivity. Qed.

Lemma match_at_class (p : ascii -> bool) (l t : pystr) :
  match_at false (Class p) l t =
  match t with
  | c :: t' => if p c then Some (Cursor (c :: l) t' None) else None
  | [] => None
  end.
Proof.
  unfold match_at. simpl. unfold step1. simpl.
  destruct t as [|c t']; [reflexivity|]. destruct (p c); reflexivity.
Qed.

Lemma match_at_plus (p : ascii -> bool) (l t : pystr) :
  match_at false (Rep p 1 None) l t =
  match t with
  | c :: t' =>
      if p c
      then Some (Cursor (rev (run_of p t') ++ c :: l) (after_run p t') None)
      else None
  | [] => None
  end.
Proof.
  unfold match_at. cbn [run behind ahead group1].
  destruct t as [|c t']; [reflexivity|].
  rewrite rep_cons. simpl. rewrite app_nil_r.
  destruct (p c); [|reflexivity].
  pose proof (rep_greedy p t' (c :: l)) as H.
  destruct (rep p 0 None (c :: l) t') as [|x xs]; [discriminate|].
  simpl in *. injection H as ->. reflexivity.
Qed.

(** Stepping over the rest of a match. *)
Lemma sub_from_skip (ic : bool) (r : regex) (repl x t l : pystr) :
  sub_from ic r repl l (x ++ t) (length x) = sub_from ic r repl (rev x ++ l) t 0.
Proof.
  revert l. induction x as [|c x IH]; intros l; [reflexivity|].
  simpl. rewrite IH, <- app_assoc. reflexivity.
Qed.

Lemma sub_from_0 (ic : bool) (r : regex) (repl l t : pystr) :
  sub_from ic r repl l t 0 =
  match match_at ic r l t with
  | Some e =>
      repl ++ match t with
              | [] => []
              | c :: t' =>
                  match span t e with
                  | 0 => c :: sub_from ic r repl (c :: l) t' 0
                  | S k => sub_from ic r repl (c :: l) t' k
                  end
              end
  | None =>
      match t with
      | [] => []
      | c :: t' => c :: sub_from ic r repl (c :: l) t' 0
      end
  end.
Proof. destruct t; reflexivity. Qed.

(** Substituting a one-character class rewrites character by character. *)
Lemma sub_class (p : ascii -> bool) (repl t : pystr) :
  sub false (Class p) repl t = flat_map (fun c => if p c then repl else [c]) t.
Proof.
  unfold sub.
  enough (H : forall l, sub_from false (Class p) repl l t 0
                        = flat_map (fun c => if p c then repl else [c]) t)
    by apply H.
  induction t as [|c t IH]; intros l.
  - rewrite sub_from_0, match_at_class. reflexivity.
  - rewrite sub_from_0, match_at_class. simpl flat_map.
    destruct (p c).
    + unfold span. cbn [ahead length].
      replace (S (length t) - length t) with 1 by lia.
      rewrite IH. reflexivity.
    + rewrite IH. reflexivity.
Qed.

Lemma sub_class_space (p : ascii -> bool) (t : pystr) :
  sub false (Class p) (str " ") t = map (fun c => if p c then " "%char else c) t.
Proof.
  rewrite sub_class. change (str " ") with [" "%char].
  induction t as [|c t IH]; [reflexivity|].
  cbn [flat_map map]. rewrite IH. destruct (p c); reflexivity.
Qed.

(** What [re.sub(r"\s+", " ", t)] computes, read left to right:
    [in_ws] tells whether the previous character was whitespace. *)
Fixpoint squeeze (in_ws : bool) (t : pystr) : pystr :=
  match t with
  | [] => []
  | c :: t' =>
      if Chr.isspace c
      then if in_ws then squeeze true t' else " "%char :: squeeze true t'
      else c :: squeeze false t'
  end.

Lemma squeeze_after_run (t : pystr) :
  squeeze true t = squeeze false (after_run Chr.isspace t).
Proof.
  induction t as [|c t IH]; [reflexivity|].
  simpl. destruct (Chr.isspace c) eqn:E; [assumption|].
  simpl. rewrite E. reflexivity.
Qed.

Lemma sub_spaces_from (n : nat) : forall (t l : pystr),
  length t <= n ->
  sub_from false (Rep Chr.isspace 1 None) (str " ") l t 0 = squeeze false t.
Proof.
  induction n as [|n IH]; intros t l Hn.
  - destruct t; [|simpl in Hn; lia].
    rewrite sub_from_0, match_at_plus. reflexivity.
  - rewrite sub_from_0, match_at_plus. destruct t as [|c t]; [reflexivity|].
    simpl in Hn. simpl squeeze. destruct (Chr.isspace c).
    + unfold span. cbn [ahead length].
      pose proof (run_split Chr.isspace t) as Ht.
      pose proof (after_run_shorter Chr.isspace t) as Hs.
      assert (El : S (length t) - length (after_run Chr.isspace t)
                   = S (length (run_of Chr.isspace t))).
      { rewrite Ht at 1. rewrite length_app. lia. }
      rewrite El. rewrite Ht at 1. rewrite sub_from_skip.
      rewrite IH by lia. rewrite squeeze_after_run. reflexivity.
    + rewrite IH by lia. reflexivity.
Qed.

Lemma sub_spaces (t : pystr) :
  sub false (Rep Chr.isspace 1 None) (str " ") t = squeeze false t.
Proof. apply (sub_spaces_from (n := length t)). lia. Qed.

(** A squeezed string: its only whitespace is the plain space, never
    twice in a row. *)
Fixpoint squeezed (y : pystr) : bool :=
  match y with
  | [] => true
  | c :: y' =>
      (if Chr.isspace c
       then Ascii.eqb c " " && negb (StrFacts.starts_ws y')
       else true)
      && squeezed y'
  end.

Lemma squeeze_squeezed (t : pystr) (b : bool) :
  squeezed (squeeze b t) = true
  /\ (b = true -> StrFacts.starts_ws (squeeze b t) = false).
Proof.
  revert b. induction t as [|c t IH]; intros b; [split; reflexivity|].
  simpl. destruct (Chr.isspace c) eqn:E.
  - destruct (IH true) as [H1 H2]. destruct b; [auto|].
    split; [|discriminate]. simpl. rewrite H1, H2 by reflexivity. reflexivity.
  - destruct (IH false) as [H1 _]. split.
    + simpl. rewrite E, H1. reflexivity.
    + intros _. simpl. assumption.
Qed.

Lemma squeeze_fixed (y : pystr) :
  squeezed y = true ->
  squeeze false y = y
  /\ (StrFacts.starts_ws y = false -> squeeze true y = y).
Proof.
  induction y as [|c y IH]; [split; reflexivity|].
  simpl. intros H. apply andb_prop in H as [Hc Hy].
  destruct (IH Hy) as [IH1 IH2].
  destruct (Chr.isspace c) eqn:E.
  - apply andb_prop in Hc as [Hc Hn].
    apply Ascii.eqb_eq in Hc. apply negb_true_iff in Hn.
    split; [|discriminate]. subst c. rewrite IH2 by assumption. reflexivity.
  - split; [|intros _]; rewrite IH1; reflexivity.
Qed.

Lemma squeeze_In (t : pystr) (b : bool) (c : ascii) :
  In c (squeeze b t) -> In c t \/ c = " "%char.
Proof.
  revert b. induction t as [|d t IH]; intros b; [simpl; tauto|].
  simpl. destruct (Chr.isspace d).
  - destruct b; simpl.
    + intros H. apply IH in H. tauto.
    + intros [H|H]; [auto|]. apply IH in H. tauto.
  - simpl. intros [H|H]; [auto|]. apply IH in H. tauto.
Qed.

Lemma squeezed_lstrip (y : pystr) :
  squeezed y = true -> squeezed (Str.lstrip y) = true.
Proof.
  induction y as [|c y IH]; [auto|].
  intros H. simpl. destruct (Chr.isspace c) eqn:E; [|assumption].
  apply IH. simpl in H. apply andb_prop in H. tauto.
Qed.

Lemma squeezed_rstrip (y : pystr) :
  squeezed y = true -> squeezed (Str.rstrip y) = true.
Proof.
  induction y as [|c y IH]; [auto|].
  intros H. simpl in H. apply andb_prop in H as [Hc Hy].
  rewrite StrFacts.rstrip_cons.
  destruct (Str.rstrip y) as [|x r] eqn:E.
  - destruct (Chr.isspace c) eqn:W; [reflexivity|]. simpl. rewrite W. reflexivity.
  - specialize (IH Hy). destruct (StrFacts.rstrip_head _ E) as (y' & ->).
    change (squeezed (c :: x :: r))
      with ((if Chr.isspace c
             then Ascii.eqb c " " && negb (StrFacts.starts_ws (x :: r))
             else true) && squeezed (x :: r)).
    rewrite IH, andb_true_r. exact Hc.
Qed.

Lemma squeezed_strip (y : pystr) :
  squeezed y = true -> squeezed (Str.strip y) = true.
Proof. intros H. apply squeezed_rstrip, squeezed_lstrip, H. Qed.

(** Every candidate of a repetition, bounded or not, lies after at least
    [lo] characters of the class. *)
Lemma rep_sound (p : ascii -> bool) (t : pystr) :
  forall (lo : nat) (hi : option nat) (l l' t' : pystr),
    In (l', t') (rep p lo hi l t) ->
    exists ws, forallb p ws = true /\ lo <= length ws
               /\ t = ws ++ t' /\ l' = rev ws ++ l.
Proof.
  assert (Z : forall lo (l r l' t' : pystr),
             In (l', t') (match lo with 0 => [(l, r)] | S _ => [] end) ->
             lo = 0 /\ l' = l /\ t' = r).
  { intros [|lo] l r l' t' H; [|destruct H].
    destruct H as [[= <- <-]|[]]. auto. }
  induction t as [|c t IH]; intros lo hi l l' t' H.
  - simpl in H. apply Z in H as (-> & -> & ->). exists []. repeat split; auto.
  - rewrite rep_cons in H. apply in_app_or in H as [H|H].
    + destruct (may_more hi && p c) eqn:E; [|destruct H].
      apply andb_prop in E as [_ Pc].
      apply IH in H as (ws & Hws & Hlo & -> & ->).
      exists (c :: ws). simpl. rewrite Pc, <- app_assoc.
      repeat split; auto. lia.
    + apply Z in H as (-> & -> & ->). exists []. repeat split; auto.
Qed.

(** Patterns without a capturing group leave group 1 as it was. *)
Fixpoint groupless (r : regex) : bool :=
  match r with
  | Group _ => false
  | Seq r1 r2 | Alt r1 r2 => groupless r1 && groupless r2
  | _ => true
  end.

Lemma run_groupless (ic : bool) (r : regex) : forall s e : cursor,
  groupless r = true -> In e (run ic r s) -> group1 e = group1 s.
Proof.
  assert (St : forall ok s e, In e (step1 ok s) -> group1 e = group1 s).
  { intros ok s e H. unfold step1 in H. destruct (ahead s) as [|c t]; [destruct H|].
    destruct (ok c); [|destruct H]. destruct H as [<-|[]]. reflexivity. }
  assert (Lk : forall (p : ascii -> bool) (o : pystr) (s e : cursor),
             In e (match o with c :: _ => if p c then [] else [s] | [] => [s] end) ->
             e = s).
  { intros p [|c o] s e H; [|destruct (p c); [destruct H|]];
      destruct H as [<-|[]]; reflexivity. }
  induction r as [|a|p|r1 IH1 r2 IH2|r1 IH1 r2 IH2|p lo hi|r IH|p|p|];
    intros s e G H; simpl in G.
  - destruct H as [<-|[]]. reflexivity.
  - eapply St, H.
  - eapply St, H.
  - apply andb_prop in G as [G1 G2]. rewrite run_Seq in H.
    apply in_flat_map in H as (s1 & H1 & H2).
    rewrite (IH2 _ _ G2 H2). apply IH1; assumption.
  - apply andb_prop in G as [G1 G2]. rewrite run_Alt in H.
    apply in_app_or in H as [H|H]; auto.
  - rewrite run_Rep in H. apply in_map_iff in H as (lr & <- & _). reflexivity.
  - discriminate.
  - simpl in H. apply Lk in H. subst. reflexivity.
  - simpl in H. apply Lk in H. subst. reflexivity.
  - simpl in H. destruct (xorb (word_behind s) (word_ahead s)); [|destruct H].
    destruct H as [<-|[]]. reflexivity.
Qed.

(** Patterns whose group 1 is [(\d{1,..})], once, outside any alternation. *)
Inductive captures_digits : regex -> Prop :=
| digits_group (lo : nat) (hi : option nat) :
    captures_digits (Group (Rep Chr.isdecimal (S lo) hi))
| digits_left (r1 r2 : regex) :
    captures_digits r1 -> groupless r2 = true -> captures_digits (Seq r1 r2)
| digits_right (r1 r2 : regex) :
    groupless r1 = true -> captures_digits r2 -> captures_digits (Seq r1 r2).

Lemma run_captures_digits (ic : bool) (r : regex) :
  captures_digits r ->
  forall s e : cursor,
    In e (run ic r s) ->
    exists g, group1 e = Some g /\ forallb Chr.isdecimal g = true /\ g <> [].
Proof.
  induction 1 as [lo hi|r1 r2 C IH G|r1 r2 G C IH]; intros s e H.
  - cbn [run] in H. apply in_map_iff in H as (e0 & <- & H).
    apply in_map_iff in H as ((l' & t') & <- & H).
    apply rep_sound in H as (ws & Hws & Hlo & Ea & _).
    exists ws. cbn [group1 ahead fst snd]. rewrite Ea, length_app.
    replace (length ws + length t' - length t') with (length ws) by lia.
    rewrite firstn_app, firstn_all, Nat.sub_diag. simpl. rewrite app_nil_r.
    repeat split; auto. destruct ws; [simpl in Hlo; lia | discriminate].
  - rewrite run_Seq in H. apply in_flat_map in H as (s1 & H1 & H2).
    destruct (IH _ _ H1) as (g & Hg & D).
    exists g. rewrite (run_groupless _ _ _ _ G H2). auto.
  - rewrite run_Seq in H. apply in_flat_map in H as (s1 & H1 & H2).
    eapply IH, H2.
Qed.

(** [search] succeeds exactly when the pattern matches at some position. *)
Lemma search_from_found (ic : bool) (r : regex) (t : pystr) : forall l : pystr,
  found (search_from ic r l t) = true <->
  exists pre post, t = pre ++ post
                   /\ run ic r (Cursor (rev pre ++ l) post None) <> [].
Proof.
  induction t as [|c t IH]; intros l.
  - simpl. unfold match_at.
    destruct (run ic r (Cursor l [] None)) as [|e es] eqn:R; simpl.
    + split; [discriminate|]. intros (pre & post & E & H).
      symmetry in E. apply app_eq_nil in E as [-> ->]. simpl in H. congruence.
    + split; [|reflexivity]. intros _. exists [], []. simpl. rewrite R.
      split; [reflexivity | discriminate].
  - cbn [search_from]. unfold match_at.
    destruct (run ic r (Cursor l (c :: t) None)) as [|e es] eqn:R; cbn [hd_error].
    + rewrite IH. split.
      * intros (pre & post & -> & H). exists (c :: pre), post.
        split; [reflexivity|]. simpl. rewrite <- app_assoc. exact H.
      * intros (pre & post & E & H). destruct pre as [|d pre].
        -- simpl in E, H. subst post. congruence.
        -- simpl in E. injection E as <- ->. exists pre, post.
           split; [reflexivity|]. simpl in H. rewrite <- app_assoc in H. exact H.
    + split; [|reflexivity]. intros _. exists [], (c :: t). simpl. rewrite R.
      split; [reflexivity | discriminate].
Qed.

(** What [finditer] yields are matches of the pattern. *)
Lemma finditer_from_In (ic : bool) (r : regex) (e : cursor) (t : pystr) :
  forall (l : pystr) (skip : nat),
    In e (finditer_from ic r l t skip) ->
    exists l' t', In e (run ic r (Cursor l' t' None)).
Proof.
  assert (M : forall l t, match_at ic r l t = Some e ->
                          In e (run ic r (Cursor l t None))).
  { intros l t0 H. unfold match_at in H.
    destruct (run ic r (Cursor l t0 None)); [discriminate|].
    injection H as ->. left. reflexivity. }
  induction t as [|c t IH]; intros l skip H.
  - destruct skip; [|destruct H]. simpl in H.
    destruct (match_at ic r l []) eqn:E; [|destruct H].
    destruct H as [<-|[]]. eauto.
  - destruct skip as [|k]; cbn [finditer_from] in H; [|eapply IH, H].
    destruct (match_at ic r l (c :: t)) eqn:E; [|eapply IH, H].
    destruct H as [<-|H]; [eauto | eapply IH, H].
Qed.

(** Conversely, where the pattern matches somewhere, [finditer] yields
    something. *)
Lemma finditer_from_nonempty (ic : bool) (r : regex) (t : pystr) :
  forall (l pre post : pystr),
    t = pre ++ post ->
    run ic r (Cursor (rev pre ++ l) post None) <> [] ->
    finditer_from ic r l t 0 <> [].
Proof.
  induction t as [|c t IH]; intros l pre post E H.
  - symmetry in E. apply app_eq_nil in E as [-> ->]. simpl in *.
    unfold match_at. destruct (run ic r (Cursor l [] None)); [congruence|].
    discriminate.
  - cbn [finditer_from]. unfold match_at.
    destruct (run ic r (Cursor l (c :: t) None)) as [|e es] eqn:R;
      [|discriminate].
    cbn [hd_error]. destruct pre as [|d pre].
    + simpl in E, H. subst post. congruence.
    + simpl in E. injection E as <- ->. apply (IH (c :: l) pre post);
        [reflexivity|]. simpl in H. rewrite <- app_assoc in H. exact H.
Qed.

Lemma finditer_nil (ic : bool) (r : regex) (t : pystr) :
  finditer ic r t = [] <-> found (search ic r t) = false.
Proof.
  unfold finditer, search. split.
  - intros H. apply not_true_is_false. intros F.
    apply search_from_found in F as (pre & post & E & R).
    eapply finditer_from_nonempty; eassumption.
  - generalize (@nil ascii) as l. induction t as [|c t IH]; intros l F.
    + simpl in *. destruct (match_at ic r l []); [discriminate | reflexivity].
    + cbn [finditer_from]. cbn [search_from] in F.
      destruct (match_at ic r l (c :: t)); [discriminate|]. apply IH, F.
Qed.

End ReFacts.

(** * Text normalisation *)

Module NormalizeFacts.
Import ExtractFeatures.

(** What the three character-level steps of [normalize_text] do to one
    character: lower-case it, blank the separators, blank what is
    neither word, whitespace nor [+]. *)
Definition norm_char (c : ascii) : ascii :=
  let c := Chr.lower c in
  let c := if is_separator c then " "%char else c in
  if is_other c then " "%char else c.

(** A character none of these steps changes. *)
Definition stable (c : ascii) : bool :=
  Ascii.eqb (Chr.lower c) c && negb (is_separator c) && negb (is_other c).

Lemma norm_char_stable (c : ascii) : stable (norm_char c) = true.
Proof.
  revert c. apply (ChrFacts.by_cases (fun c => stable (norm_char c))).
  vm_compute. reflexivity.
Qed.

Lemma stable_fixed (c : ascii) : stable c = true -> norm_char c = c.
Proof.
  unfold stable, norm_char. intros H.
  apply andb_prop in H as [H H3]. apply andb_prop in H as [H1 H2].
  apply Ascii.eqb_eq in H1. apply negb_true_iff in H2, H3.
  cbv zeta. rewrite H1, H2, H3. reflexivity.
Qed.

Lemma normalize_text_steps (s : pystr) :
  normalize_text (Some s) = Str.strip (ReFacts.squeeze false (map norm_char s)).
Proof.
  destruct s as [|c s]; [reflexivity|].
  unfold normalize_text. cbn [Py.truthy_opt Str.nonempty negb or_empty].
  rewrite !ReFacts.sub_class_space, ReFacts.sub_spaces.
  unfold Str.lower. rewrite !map_map. reflexivity.
Qed.

(** The shape of a normalised text. *)
Definition normal (y : pystr) : Prop :=
  (forall c, In c y -> stable c = true)
  /\ ReFacts.squeezed y = true
  /\ Str.strip y = y.

Lemma normalize_text_normal (s : pystr) : normal (normalize_text (Some s)).
Proof.
  rewrite normalize_text_steps. repeat split.
  - intros c H. apply StrFacts.strip_In, ReFacts.squeeze_In in H.
    destruct H as [H| ->]; [|reflexivity].
    apply in_map_iff in H as (d & <- & _). apply norm_char_stable.
  - apply ReFacts.squeezed_strip, ReFacts.squeeze_squeezed.
  - apply StrFacts.strip_idempotent.
Qed.

Lemma normal_fixed (y : pystr) : normal y -> normalize_text (Some y) = y.
Proof.
  intros (Hc & Hs & Ht). rewrite normalize_text_steps.
  replace (map norm_char y) with y.
  - destruct (ReFacts.squeeze_fixed _ Hs) as [-> _]. assumption.
  - rewrite <- (map_id y) at 1. apply map_ext_in.
    intros c H. symmetry. apply stable_fixed, Hc, H.
Qed.

Lemma normalize_text_or_empty (s : option pystr) :
  normalize_text (Some (or_empty s)) = normalize_text s.
Proof. destruct s; reflexivity. Qed.

(** C5. Text normalisation is idempotent: normalising an
    already-normalised text returns it unchanged, for every input
    (absent, empty or not); and absent or empty input yields the empty
    string -- [normalize_text] is a total function, it raises nothing. *)
Theorem normalize_text_idempotent :
  (forall x : option pystr,
      normalize_text (Some (normalize_text x)) = normalize_text x)
  /\ normalize_text None = []
  /\ normalize_text (Some []) = [].
Proof.
  split; [|split; reflexivity].
  intros x. rewrite <- (normalize_text_or_empty x).
  apply normal_fixed, normalize_text_normal.
Qed.

End NormalizeFacts.

(** * The description cleaner *)

Module CleanTextFacts.
Import Re CleanTransform.

Definition not_gt (c : ascii) : bool := negb (Chr.at_code 62 c).

(** The inside of a tag: at least one character, none of them [>]. *)
Definition tag_body (b : pystr) : bool := Str.nonempty b && forallb not_gt b.

(** A text that consists of tags only. *)
Fixpoint markup (bodies : list pystr) : pystr :=
  match bodies with
  | [] => []
  | b :: bs => "<"%char :: b ++ ">"%char :: markup bs
  end.

Lemma not_gt_lit (c : ascii) : not_gt c = true -> lit_eq false ">" c = false.
Proof.
  intros H.
  pose proof (ChrFacts.by_cases
                (fun c => implb (not_gt c) (negb (lit_eq false ">" c)))
                eq_refl c) as G.
  cbv beta in G. rewrite H in G. simpl in G. apply negb_true_iff in G. exact G.
Qed.

(** After [<], the class [[^>]+] runs up to the next [>]; only there can
    the closing [>] of the pattern match. *)
Lemma tag_close (b rest : pystr) : forall (lo : nat) (l : pystr),
  forallb not_gt b = true -> lo <= length b ->
  flat_map (run false (Lit ">"))
    (map (fun lr => Cursor (fst lr) (snd lr) None)
         (rep not_gt lo None l (b ++ ">"%char :: rest)))
  = [Cursor (">"%char :: rev b ++ l) rest None].
Proof.
  induction b as [|c b IH]; intros lo l Hb Hlo.
  - simpl in Hlo. assert (lo = 0) by lia. subst lo. reflexivity.
  - simpl in Hb. apply andb_prop in Hb as [Hc Hb].
    change ((c :: b) ++ ">"%char :: rest) with (c :: (b ++ ">"%char :: rest)).
    rewrite ReFacts.rep_cons. cbn [may_more option_map andb]. rewrite Hc.
    rewrite map_app, flat_map_app, IH by (simpl in Hlo; auto; lia).
    cbn [rev]. rewrite <- app_assoc. cbn [app].
    destruct lo; [|reflexivity].
    cbn [map flat_map fst snd run]. unfold step1. cbn [ahead].
    rewrite (not_gt_lit _ Hc). reflexivity.
Qed.

Lemma tag_match (b rest l : pystr) :
  tag_body b = true ->
  match_at false tag l ("<"%char :: b ++ ">"%char :: rest)
  = Some (Cursor (">"%char :: rev b ++ "<"%char :: l) rest None).
Proof.
  unfold tag_body. intros H. apply andb_prop in H as [Hn Hb].
  unfold match_at, tag. fold not_gt.
  rewrite ReFacts.run_Seq, ReFacts.run_Lit, ReFacts.step1_cons.
  change (lit_eq false "<" "<") with true. cbn iota. cbn [flat_map].
  rewrite app_nil_r, ReFacts.run_Seq, ReFacts.run_Rep. cbn [behind ahead group1].
  rewrite (@tag_close b rest 1 ("<"%char :: l)); [reflexivity|assumption|].
  destruct b; [discriminate | simpl; lia].
Qed.

Lemma sub_markup (bodies : list pystr) : forall l : pystr,
  forallb tag_body bodies = true ->
  sub_from false tag (str " ") l (markup bodies) 0 = repeat " "%char (length bodies).
Proof.
  induction bodies as [|b bs IH]; intros l H; [reflexivity|].
  simpl in H. apply andb_prop in H as [Hb Hbs].
  cbn [markup]. rewrite ReFacts.sub_from_0, (@tag_match b _ _ Hb).
  unfold span. cbn [ahead].
  replace (length ("<"%char :: b ++ ">"%char :: markup bs) - length (markup bs))
    with (S (length (b ++ [">"%char]))).
  2:{ cbn [length]. rewrite !length_app. cbn [length]. lia. }
  replace (b ++ ">"%char :: markup bs) with ((b ++ [">"%char]) ++ markup bs)
    by (rewrite <- app_assoc; reflexivity).
  rewrite ReFacts.sub_from_skip, IH by assumption. reflexivity.
Qed.

Lemma squeeze_all_space (t : pystr) (b : bool) :
  forallb Chr.isspace t = true -> forallb Chr.isspace (ReFacts.squeeze b t) = true.
Proof.
  revert b. induction t as [|c t IH]; intros b H; [reflexivity|].
  simpl in H. apply andb_prop in H as [Hc Ht]. simpl. rewrite Hc.
  destruct b; simpl; auto.
Qed.

Lemma repeat_space (n : nat) : forallb Chr.isspace (repeat " "%char n) = true.
Proof. induction n; simpl; auto. Qed.

(** C10. [clean_text] returns null for the empty string exactly as for
    null; a non-empty input made of angle-bracket tags only returns the
    empty string, not null. *)
Theorem clean_text_null_vs_empty :
  clean_text None = None
  /\ clean_text (Some []) = None
  /\ forall bodies : list pystr,
       bodies <> [] -> forallb tag_body bodies = true ->
       clean_text (Some (markup bodies)) = Some [].
Proof.
  split; [reflexivity|]. split; [reflexivity|].
  intros bodies Hne Hb. destruct bodies as [|b bs]; [congruence|].
  unfold clean_text. cbn [markup Py.truthy_opt Str.nonempty negb].
  cbn [ExtractFeatures.or_empty]. change ("<"%char :: b ++ ">"%char :: markup bs)
    with (markup (b :: bs)).
  unfold sub at 2. rewrite sub_markup by assumption.
  rewrite ReFacts.sub_spaces, StrFacts.strip_all_space; [reflexivity|].
  apply squeeze_all_space, repeat_space.
Qed.

Lemma clean_text_null_vs_empty_witness :
  clean_text (Some (str "<p><br/></p>")) = Some [].
Proof.
  apply (proj2 (proj2 clean_text_null_vs_empty) [str "p"; str "br/"; str "/p"]).
  - discriminate.
  - reflexivity.
Defined.

End CleanTextFacts.

(** * The rule-chain classifiers *)

Module ClassifierFacts.
Import Re ExtractFeatures.

(** A keyword rule: a condition on the lower-cased title and the label it
    yields. *)
Definition rule : Type := (pystr -> bool) * pystr.

(** The standalone token [w]: [w] as a whole word. *)
Definition token (w : string) (t : pystr) : bool :=
  found (search false (standalone w) t).

(** The rule tables, in the order the specification lists them. *)
Definition role_rules : list rule :=
  [ (fun t => has "data engineer" t || has "etl" t || has "pipeline" t,
     str "Data Engineering");
    (fun t => has "data scientist" t || has "machine learning" t || token "ml" t,
     str "Data Science");
    (fun t => has "business intelligence" t || has "power bi" t
              || has "tableau" t || token "bi" t,
     str "Business Intelligence");
    (fun t => has "analyst" t || has "analytics" t,
     str "Analytics") ].

Definition seniority_rules : list rule :=
  [ (any_in ["intern"; "co-op"; "student"]%string, str "Intern");
    (any_in ["director"; "head"; "vp"; "vice president"; "manager"]%string,
     str "Management");
    (any_in ["principal"; "staff"; "lead"; "senior"; "sr."; "sr "]%string,
     str "Senior");
    (any_in ["junior"; "jr."; "entry"; "associate"; "new grad"]%string,
     str "Entry") ].

(** First-match-wins evaluation of a rule table. *)
Definition first_match (rules : list rule) (default : pystr) (t : pystr) : pystr :=
  match find (fun r => fst r t) rules with
  | Some r => snd r
  | None => default
  end.

Lemma first_match_wins (rules pre post : list rule) (r : rule)
    (default t : pystr) :
  rules = pre ++ r :: post ->
  (forall q, In q pre -> fst q t = false) ->
  fst r t = true ->
  first_match rules default t = snd r.
Proof.
  intros -> Hpre Hr. unfold first_match.
  induction pre as [|q pre IH]; simpl.
  - rewrite Hr. reflexivity.
  - rewrite (Hpre q) by (left; reflexivity).
    apply IH. intros q' H. apply Hpre. right. assumption.
Qed.

Lemma first_match_default (rules : list rule) (default t : pystr) :
  (forall q, In q rules -> fst q t = false) ->
  first_match rules default t = default.
Proof.
  intros H. unfold first_match.
  destruct (find (fun r => fst r t) rules) as [r|] eqn:E; [|reflexivity].
  apply find_some in E as [Hin Hr]. rewrite (H r Hin) in Hr. discriminate.
Qed.

Lemma classify_role_family_table (title : option pystr) :
  classify_role_family title
  = first_match role_rules (str "Other") (Str.lower (or_empty title)).
Proof.
  unfold classify_role_family, first_match, role_rules, token.
  cbn [find fst snd]. cbv zeta.
  repeat match goal with
         | |- context [if ?b then _ else _] => destruct b; try reflexivity
         end.
Qed.

Lemma infer_seniority_table (title : option pystr) :
  infer_seniority title
  = first_match seniority_rules (str "Mid") (Str.lower (or_empty title)).
Proof.
  unfold infer_seniority, first_match, seniority_rules.
  cbn [find fst snd]. cbv zeta.
  repeat match goal with
         | |- context [if ?b then _ else _] => destruct b; try reflexivity
         end.
Qed.

(** C4. Both classifiers evaluate their rules in the stated order on the
    lower-cased title and the first rule whose condition holds decides:
    whenever a rule fires and none of the rules listed before it does, its
    label is the result, and when no rule fires the result is Other
    (role family) or Mid (seniority).  The title
    "Senior Data Engineer Intern" is classified Intern and
    Data Engineering. *)
Theorem classifiers_first_match_wins :
  (forall (title : option pystr) (pre post : list rule) (r : rule),
      role_rules = pre ++ r :: post ->
      (forall q, In q pre -> fst q (Str.lower (or_empty title)) = false) ->
      fst r (Str.lower (or_empty title)) = true ->
      classify_role_family title = snd r)
  /\ (forall title : option pystr,
         (forall q, In q role_rules -> fst q (Str.lower (or_empty title)) = false) ->
         classify_role_family title = str "Other")
  /\ (forall (title : option pystr) (pre post : list rule) (r : rule),
         seniority_rules = pre ++ r :: post ->
         (forall q, In q pre -> fst q (Str.lower (or_empty title)) = false) ->
         fst r (Str.lower (or_empty title)) = true ->
         infer_seniority title = snd r)
  /\ (forall title : option pystr,
         (forall q, In q seniority_rules -> fst q (Str.lower (or_empty title)) = false) ->
         infer_seniority title = str "Mid")
  /\ infer_seniority (Some (str "Senior Data Engineer Intern")) = str "Intern"
  /\ classify_role_family (Some (str "Senior Data Engineer Intern"))
     = str "Data Engineering".
Proof.
  repeat split.
  - intros title pre post r E Hpre Hr. rewrite classify_role_family_table.
    eapply first_match_wins; eassumption.
  - intros title H. rewrite classify_role_family_table.
    apply first_match_default, H.
  - intros title pre post r E Hpre Hr. rewrite infer_seniority_table.
    eapply first_match_wins; eassumption.
  - intros title H. rewrite infer_seniority_table.
    apply first_match_default, H.
Qed.

(** The senior rule fires on "Lead Data Analyst" and the two rules before
    it do not; the last role rule fires and the three before it do not;
    no rule at all fires on "Registered Nurse". *)
Lemma classifiers_first_match_wins_witness :
  classify_role_family (Some (str "Lead Data Analyst")) = str "Analytics"
  /\ classify_role_family (Some (str "Registered Nurse")) = str "Other"
  /\ infer_seniority (Some (str "Lead Data Analyst")) = str "Senior"
  /\ infer_seniority (Some (str "Registered Nurse")) = str "Mid".
Proof.
  destruct classifiers_first_match_wins as (R1 & R2 & S1 & S2 & _).
  split; [|split; [|split]].
  - apply (R1 (Some (str "Lead Data Analyst"))
              (firstn 3 role_rules) [] (nth 3 role_rules (fun _ => false, []))).
    + reflexivity.
    + intros q [<-|[<-|[<-|[]]]]; reflexivity.
    + reflexivity.
  - apply R2. intros q [<-|[<-|[<-|[<-|[]]]]]; reflexivity.
  - apply (S1 (Some (str "Lead Data Analyst"))
              (firstn 2 seniority_rules) (skipn 3 seniority_rules)
              (nth 2 seniority_rules (fun _ => false, []))).
    + reflexivity.
    + intros q [<-|[<-|[]]]; reflexivity.
    + reflexivity.
  - apply S2. intros q [<-|[<-|[<-|[<-|[]]]]]; reflexivity.
Defined.

End ClassifierFacts.

(** * Years of experience *)

Module YearsFacts.
Import Re ExtractFeatures.

Lemma py_min_le (hs : list Z) : forall h : Z, (py_min h hs <= h)%Z.
Proof.
  unfold py_min. induction hs as [|x hs IH]; intros h; simpl; [lia|].
  specialize (IH (Z.min h x)). lia.
Qed.

Lemma py_min_lower_bound (hs : list Z) : forall h m : Z,
  In m (h :: hs) -> (py_min h hs <= m)%Z.
Proof.
  unfold py_min. induction hs as [|x hs IH]; intros h m H.
  - destruct H as [<-|[]]. simpl. lia.
  - simpl. pose proof (py_min_le hs (Z.min h x)) as L. unfold py_min in L.
    destruct H as [<-|[<-|H]]; try lia.
    apply IH. right. assumption.
Qed.

Lemma py_min_In (hs : list Z) : forall h : Z, In (py_min h hs) (h :: hs).
Proof.
  unfold py_min. induction hs as [|x hs IH]; intros h; simpl; [auto|].
  destruct (IH (Z.min h x)) as [E|H]; [|auto].
  rewrite <- E. destruct (Z.min_spec h x) as [[_ ->]|[_ ->]]; auto.
Qed.

(** [Decimal(n)] holds the integer [n] exactly. *)
Lemma Decimal_of_int_exact (n : Z) :
  dec_exp (Decimal_of_int n) = 0%Z
  /\ Qeq (dec_value (Decimal_of_int n)) (inject_Z n).
Proof.
  split; [reflexivity|].
  unfold dec_value, Decimal_of_int. cbn [dec_sign dec_coeff dec_exp].
  rewrite N2Z.inj_abs_N. change (Qpower (inject_Z 10) 0) with 1%Q.
  rewrite Qmult_1_r. apply inject_Z_injective.
  destruct (Z.ltb_spec n 0); lia.
Qed.

Lemma hits_In (t : pystr) (n : Z) :
  In n (hits t) <->
  exists p m g, In p patterns /\ In m (finditer false p t)
                /\ group1 m = Some g /\ Py.int g = Some n.
Proof.
  unfold hits. rewrite in_flat_map. split.
  - intros (p & Hp & H). apply in_flat_map in H as (m & Hm & H).
    unfold hit_of in H. destruct (group1 m) as [g|] eqn:G; [|destruct H].
    destruct (Py.int g) as [k|] eqn:K; [|destruct H].
    destruct H as [<-|[]]. exists p, m, g. auto.
  - intros (p & m & g & Hp & Hm & G & K). exists p. split; [assumption|].
    apply in_flat_map. exists m. split; [assumption|].
    unfold hit_of. rewrite G, K. left. reflexivity.
Qed.

Lemma digits_total (s : pystr) : forall (acc : Z) (after_digit : bool),
  forallb Chr.isdecimal s = true ->
  s <> [] \/ after_digit = true ->
  (0 <= acc)%Z ->
  exists n, Py.digits acc after_digit s = Some n /\ (0 <= n)%Z.
Proof.
  induction s as [|c s IH]; intros acc b Hs Hne Hacc.
  - destruct Hne as [Hne| ->]; [congruence|]. exists acc. auto.
  - simpl in Hs. apply andb_prop in Hs as [Hc Hs]. simpl. rewrite Hc.
    apply IH; [assumption | right; reflexivity|].
    unfold Chr.isdecimal, Chr.between in Hc. apply andb_prop in Hc as [Hlo _].
    apply N.leb_le in Hlo. lia.
Qed.

Lemma decimal_not_sign (c : ascii) :
  Chr.isdecimal c = true ->
  StrFacts.non_ws c = true /\ Chr.at_code 43 c = false /\ Chr.at_code 45 c = false.
Proof.
  intros H.
  pose proof (ChrFacts.by_cases
                (fun c => implb (Chr.isdecimal c)
                            (StrFacts.non_ws c && negb (Chr.at_code 43 c)
                             && negb (Chr.at_code 45 c)))
                eq_refl c) as G.
  cbv beta in G. rewrite H in G. simpl in G.
  apply andb_prop in G as [G G3]. apply andb_prop in G as [G1 G2].
  apply negb_true_iff in G2, G3. auto.
Qed.

(** [int] of one or more decimal digits never fails. *)
Lemma int_of_digits (g : pystr) :
  forallb Chr.isdecimal g = true -> g <> [] ->
  exists n, Py.int g = Some n /\ (0 <= n)%Z.
Proof.
  intros Hg Hne. unfold Py.int. rewrite StrFacts.strip_token.
  - destruct g as [|c t]; [congruence|].
    assert (Hc : Chr.isdecimal c = true) by (simpl in Hg; apply andb_prop in Hg; tauto).
    destruct (decimal_not_sign _ Hc) as (_ & -> & ->).
    apply digits_total; [assumption | left; discriminate | lia].
  - rewrite forallb_forall in *. intros c Hc. apply decimal_not_sign, Hg, Hc.
Qed.

Lemma patterns_capture (p : regex) : In p patterns -> ReFacts.captures_digits p.
Proof.
  unfold patterns, digits12.
  intros [<-|[<-|[<-|[<-|[]]]]].
  - apply ReFacts.digits_left; [constructor | reflexivity].
  - apply ReFacts.digits_right; [reflexivity|].
    apply ReFacts.digits_right; [reflexivity|].
    apply ReFacts.digits_left; [constructor | reflexivity].
  - do 4 (apply ReFacts.digits_right; [reflexivity|]).
    apply ReFacts.digits_left; [constructor | reflexivity].
  - apply ReFacts.digits_left; [constructor | reflexivity].
Qed.

(** Every match of one of the patterns yields a candidate: the
    [except] branch is never taken. *)
Lemma hit_of_match (p : regex) (t : pystr) (m : cursor) :
  In p patterns -> In m (finditer false p t) ->
  exists n, hit_of m = [n] /\ (0 <= n)%Z.
Proof.
  intros Hp Hm. apply ReFacts.finditer_from_In in Hm as (l & t' & Hm).
  apply (@ReFacts.run_captures_digits false _ (patterns_capture Hp)) in Hm
    as (g & Hg & Hd & Hne).
  destruct (int_of_digits Hd Hne) as (n & Hn & H0).
  exists n. unfold hit_of. rewrite Hg, Hn. auto.
Qed.

Lemma hits_nil (t : pystr) :
  hits t = [] <-> forall p, In p patterns -> found (search false p t) = false.
Proof.
  split.
  - intros H p Hp. apply ReFacts.finditer_nil.
    destruct (finditer false p t) as [|m ms] eqn:E; [reflexivity|]. exfalso.
    destruct (@hit_of_match p t m Hp) as (n & Hn & _); [rewrite E; left; reflexivity|].
    assert (Hin : In n (hits t)).
    { unfold hits. apply in_flat_map. exists p. split; [assumption|].
      apply in_flat_map. exists m. split; [rewrite E; left; reflexivity|].
      rewrite Hn. left. reflexivity. }
    rewrite H in Hin. destruct Hin.
  - intros H. destruct (hits t) as [|n ns] eqn:E; [reflexivity|]. exfalso.
    assert (Hin : In n (hits t)) by (rewrite E; left; reflexivity).
    apply hits_In in Hin as (p & m & g & Hp & Hm & _).
    apply H, ReFacts.finditer_nil in Hp. rewrite Hp in Hm. destruct Hm.
Qed.

(** C3. The candidates are the integers parsed from group 1 of every
    match of each of the four patterns on the normalised text; a match
    whose group did not parse would contribute nothing and stop nothing,
    and in fact every match contributes a candidate.  The result is null
    exactly when none of the patterns matches; otherwise it is the least
    candidate, held as a decimal with exponent 0 whose value is that
    integer exactly.  A text with both "5+ years" and "at least 3 years"
    yields 3. *)
Theorem years_experience_is_minimum :
  (forall text : option pystr,
      let t := normalize_text (Some (or_empty text)) in
      (forall n, In n (hits t) <->
                 exists p m g, In p patterns /\ In m (finditer false p t)
                               /\ group1 m = Some g /\ Py.int g = Some n)
      /\ (forall p m, In p patterns -> In m (finditer false p t) ->
                      exists n, hit_of m = [n])
      /\ (extract_years_experience text = None <->
          forall p, In p patterns -> found (search false p t) = false)
      /\ match extract_years_experience text with
         | None => hits t = []
         | Some d =>
             exists n, In n (hits t)
                       /\ (forall m, In m (hits t) -> (n <= m)%Z)
                       /\ d = Decimal_of_int n
                       /\ dec_exp d = 0%Z
                       /\ Qeq (dec_value d) (inject_Z n)
         end)
  /\ extract_years_experience
       (Some (str "Requires 5+ years of Python; at least 3 years with SQL."))
     = Some (Decimal_of_int 3).
Proof.
  split; [|vm_compute; reflexivity].
  intros text t. split; [apply hits_In|].
  split.
  { intros p m Hp Hm. destruct (hit_of_match _ _ Hp Hm) as (n & Hn & _). eauto. }
  split.
  { rewrite <- hits_nil. unfold extract_years_experience. fold t.
    destruct (hits t); split; congruence. }
  unfold extract_years_experience. fold t.
  destruct (hits t) as [|h hs]; [reflexivity|].
  exists (py_min h hs). split; [apply py_min_In|].
  split; [apply py_min_lower_bound|].
  split; [reflexivity|]. apply Decimal_of_int_exact.
Qed.

End YearsFacts.

(** * The location parser *)

Module LocationFacts.
Import CleanTransform.

(** The comma-separated parts of a location, trimmed, blanks dropped. *)
Definition parts_of (loc : pystr) : list pystr :=
  map Str.strip
      (filter (fun p => Str.nonempty (Str.strip p)) (Str.split_on "," loc)).

Fixpoint distinct (l : list pystr) : bool :=
  match l with
  | [] => true
  | x :: l' => negb (Str.mem x l') && distinct l'
  end.

Lemma distinct_NoDup (l : list pystr) : distinct l = true -> NoDup l.
Proof.
  induction l as [|x l IH]; simpl; intros H; constructor.
  - apply andb_prop in H as [H _]. apply negb_true_iff in H.
    intros Hin. apply StrFacts.mem_In in Hin. congruence.
  - apply IH. apply andb_prop in H. tauto.
Qed.

(** The table holds the 50 states, each name once. *)
Lemma state_names_50 : length STATE_NAMES = 50 /\ NoDup STATE_NAMES.
Proof. split; [reflexivity|]. apply distinct_NoDup. vm_compute. reflexivity. Qed.

Lemma state_name_nonempty (s : pystr) : In s STATE_NAMES -> s <> [].
Proof.
  assert (H : forallb Str.nonempty STATE_NAMES = true) by (vm_compute; reflexivity).
  rewrite forallb_forall in H. intros Hin. apply StrFacts.nonempty_true, H, Hin.
Qed.

Lemma state_of_abbr (k : pystr) :
  Str.mem k STATE_ABBRS = true ->
  exists st, state_of k = Ok st /\ In (k, st) US_STATES.
Proof.
  intros H. apply StrFacts.mem_In in H. unfold STATE_ABBRS in H.
  apply in_map_iff in H as ((k' & st') & E & Hin). simpl in E. subst k'.
  unfold state_of.
  destruct (find (fun kv => Str.eqb (fst kv) k) US_STATES) as [[k2 st]|] eqn:F.
  - apply find_some in F as [Hin2 E]. simpl in E.
    apply StrFacts.str_eqb_eq in E. subst k2. exists st. auto.
  - apply (find_none _ _ F) in Hin. simpl in Hin.
    rewrite StrFacts.str_eqb_refl in Hin. discriminate.
Qed.

Lemma table_name (k st : pystr) : In (k, st) US_STATES -> In st STATE_NAMES.
Proof. intros H. unfold STATE_NAMES. apply (in_map snd) in H. exact H. Qed.

Lemma parts_nonempty (loc p : pystr) : In p (parts_of loc) -> p <> [].
Proof.
  unfold parts_of. intros H. apply in_map_iff in H as (q & <- & H).
  apply filter_In in H as [_ H]. apply StrFacts.nonempty_true, H.
Qed.

Lemma parts_stripped (loc p : pystr) :
  In p (parts_of loc) -> StrFacts.starts_ws p = false.
Proof.
  unfold parts_of. intros H. apply in_map_iff in H as (q & <- & _).
  apply StrFacts.rstrip_starts, StrFacts.lstrip_starts.
Qed.

Lemma split_go_nonempty (s : pystr) : forall cur : pystr,
  cur <> [] -> Str.split_go cur s <> [].
Proof.
  induction s as [|c s IH]; intros cur H; simpl.
  - destruct cur; [congruence | discriminate].
  - destruct (Chr.isspace c).
    + destruct cur; [congruence | discriminate].
    + apply IH. discriminate.
Qed.

Lemma split_nonempty (s : pystr) :
  s <> [] -> StrFacts.starts_ws s = false -> Str.split s <> [].
Proof.
  destruct s as [|c s]; [congruence|]. simpl. intros _ H.
  unfold Str.split. simpl. rewrite H. apply split_go_nonempty. discriminate.
Qed.

Lemma split_go_tokens (s : pystr) : forall cur tok : pystr,
  forallb StrFacts.non_ws cur = true -> In tok (Str.split_go cur s) ->
  forallb StrFacts.non_ws tok = true /\ tok <> [].
Proof.
  assert (R : forall cur : pystr, cur <> [] -> forallb StrFacts.non_ws cur = true ->
                forallb StrFacts.non_ws (rev cur) = true /\ rev cur <> []).
  { intros cur Hne H. split.
    - rewrite forallb_forall in *. intros x Hx. apply H, in_rev, Hx.
    - intros E. apply Hne. rewrite <- (rev_involutive cur), E. reflexivity. }
  induction s as [|c s IH]; intros cur tok Hcur; simpl.
  - destruct cur as [|d cur]; [intros []|]. intros [<-|[]].
    apply R; [discriminate | assumption].
  - destruct (Chr.isspace c) eqn:W.
    + destruct cur as [|d cur]; [apply IH; reflexivity|].
      intros [<-|H]; [apply R; [discriminate | assumption]|].
      apply (IH [] tok); [reflexivity | assumption].
    + apply IH. simpl. unfold StrFacts.non_ws at 1. rewrite W. assumption.
Qed.

Lemma split_token (s tok : pystr) :
  In tok (Str.split s) -> Str.strip tok = tok /\ tok <> [].
Proof.
  intros H. apply split_go_tokens in H as [H1 H2]; [|reflexivity].
  split; [apply StrFacts.strip_token|]; assumption.
Qed.

Lemma last_split (l : list pystr) :
  l <> [] -> l = removelast l ++ [last l []].
Proof. intros H. apply app_removelast_last, H. Qed.

Lemma last_In (l : list pystr) : l <> [] -> In (last l []) l.
Proof.
  intros H. pose proof (last_split H) as E.
  set (x := last l []) in *. rewrite E. apply in_or_app. right. left. reflexivity.
Qed.

(** A text names a state when it is an abbreviation of the table (the
    state is then the full name) or a full name itself. *)
Definition resolves (x st : pystr) : Prop :=
  In (x, st) US_STATES \/ (x = st /\ In st STATE_NAMES).

Definition unresolved (x : pystr) : Prop :=
  ~ In x STATE_ABBRS /\ ~ In x STATE_NAMES.

(** The parse of a trimmed location [loc], case by case. *)
Inductive located (loc : pystr) : option pystr -> option pystr -> Prop :=
| by_second_part (city second : pystr) (rest : list pystr) (st : pystr) :
    parts_of loc = city :: second :: rest ->
    resolves second st ->
    located loc (Some city) (Some st)
| by_first_token (city second : pystr) (rest : list pystr)
    (tok : pystr) (toks : list pystr) (st : pystr) :
    parts_of loc = city :: second :: rest ->
    unresolved second ->
    Str.split second = tok :: toks ->
    resolves tok st ->
    located loc (Some city) (Some st)
| no_state_in_second (city second : pystr) (rest : list pystr)
    (tok : pystr) (toks : list pystr) :
    parts_of loc = city :: second :: rest ->
    unresolved second ->
    Str.split second = tok :: toks ->
    unresolved tok ->
    located loc (Some city) None
| by_trailing_abbr (toks : list pystr) (lst st : pystr) :
    length (parts_of loc) < 2 ->
    Str.split loc = toks ++ [lst] ->
    In (lst, st) US_STATES ->
    located loc (or_none (Str.strip (Str.join (str " ") toks))) (Some st)
| whole_is_city (toks : list pystr) (lst : pystr) :
    length (parts_of loc) < 2 ->
    Str.split loc = toks ++ [lst] ->
    ~ In lst STATE_ABBRS ->
    located loc (Some loc) None
| nothing :
    length (parts_of loc) < 2 ->
    Str.split loc = [] ->
    located loc None None.

Lemma mem_false (x : pystr) (l : list pystr) : Str.mem x l = false -> ~ In x l.
Proof. intros H Hin. apply StrFacts.mem_In in Hin. congruence. Qed.

Lemma parse_city_state_located (raw : pystr) :
  raw <> [] ->
  exists city state,
    parse_city_state (Some raw) = Ok (city, state)
    /\ located (Str.strip raw) city state.
Proof.
  intros Hraw. unfold parse_city_state.
  destruct raw as [|r0 raw']; [congruence|].
  cbn [Py.truthy_opt Str.nonempty negb ExtractFeatures.or_empty].
  set (loc := Str.strip (r0 :: raw')). fold (parts_of loc).
  destruct (parts_of loc) as [|city [|second rest]] eqn:P.
  3:{ assert (Hs : In second (parts_of loc)) by (rewrite P; simpl; auto).
      destruct (Str.mem second STATE_ABBRS) eqn:A.
      { destruct (state_of_abbr _ A) as (st & -> & Hin). simpl.
        exists (Some city), (Some st). split; [reflexivity|].
        eapply by_second_part; [eassumption | left; assumption]. }
      destruct (Str.mem second STATE_NAMES) eqn:N.
      { exists (Some city), (Some second). split; [reflexivity|].
        eapply by_second_part; [eassumption|].
        right. split; [reflexivity | apply StrFacts.mem_In, N]. }
      assert (U : unresolved second) by (split; apply mem_false; assumption).
      destruct (Str.split second) as [|tok toks] eqn:T.
      { exfalso. revert T. apply split_nonempty.
        - eapply parts_nonempty, Hs.
        - eapply parts_stripped, Hs. }
      assert (Ht : In tok (Str.split second)) by (rewrite T; left; reflexivity).
      destruct (split_token _ _ Ht) as [-> _].
      destruct (Str.mem tok STATE_ABBRS) eqn:A2.
      { destruct (state_of_abbr _ A2) as (st & -> & Hin). simpl.
        exists (Some city), (Some st). split; [reflexivity|].
        eapply by_first_token; [eassumption | assumption | eassumption |].
        left; assumption. }
      destruct (Str.mem tok STATE_NAMES) eqn:N2.
      { exists (Some city), (Some tok). split; [reflexivity|].
        eapply by_first_token; [eassumption | assumption | eassumption |].
        right. split; [reflexivity | apply StrFacts.mem_In, N2]. }
      exists (Some city), None. split; [reflexivity|].
      eapply no_state_in_second; [eassumption | assumption | eassumption |].
      split; apply mem_false; assumption. }
  all: assert (Hlen : length (parts_of loc) < 2) by (rewrite P; simpl; lia).
  all: destruct (Str.split loc) as [|t0 ts] eqn:T;
    [ exists None, None; split; [reflexivity | apply nothing; assumption] |].
  all: assert (Hne : t0 :: ts <> []) by discriminate.
  all: pose proof (last_split Hne) as L.
  all: assert (Hl : In (last (t0 :: ts) []) (Str.split loc))
    by (rewrite T; apply last_In, Hne).
  all: destruct (split_token _ _ Hl) as [-> _].
  all: rewrite L in T.
  all: destruct (Str.mem (last (t0 :: ts) []) STATE_ABBRS) eqn:A.
  all: try (destruct (state_of_abbr _ A) as (st & -> & Hin); simpl;
            eexists _, (Some st); split; [reflexivity|];
            eapply by_trailing_abbr; eassumption).
  all: exists (Some loc), None; split; [reflexivity|];
    eapply whole_is_city; [assumption | eassumption | apply mem_false, A].
Qed.

Lemma located_shape (loc : pystr) (city state : option pystr) :
  located loc city state ->
  city <> Some []
  /\ match state with
     | Some st => In st STATE_NAMES /\ st <> []
     | None => True
     end.
Proof.
  assert (R : forall x st, resolves x st -> In st STATE_NAMES /\ st <> []).
  { intros x st [H|[_ H]]; [apply table_name in H|];
      (split; [assumption | apply state_name_nonempty, H]). }
  intros H. destruct H as [city second rest st P Hr
                          |city second rest tok toks st P U T Hr
                          |city second rest tok toks P U T U2
                          |toks lst st Hlen T Hin
                          |toks lst Hlen T Hn
                          |Hlen T].
  1-3: assert (Hc : In city (parts_of loc)) by (rewrite P; left; reflexivity).
  1-3: apply parts_nonempty in Hc.
  - split; [congruence | eapply R, Hr].
  - split; [congruence | eapply R, Hr].
  - split; [congruence | exact I].
  - split.
    + unfold or_none. destruct (Str.strip (Str.join (str " ") toks)); simpl;
        congruence.
    + apply R with (x := lst). left. assumption.
  - split; [|exact I]. intros [= E]. rewrite E in T.
    destruct toks; discriminate.
  - split; [congruence | exact I].
Qed.

(** C9. For every input the parser returns (it raises nothing); each
    component of the pair is null or a non-empty string; a state it
    returns is one of the 50 full names of the table; null, empty or
    whitespace-only input yields (null, null). *)
Theorem parse_city_state_invariant (location_raw : option pystr) :
  exists city state,
    parse_city_state location_raw = Ok (city, state)
    /\ city <> Some []
    /\ match state with
       | Some st => In st STATE_NAMES /\ st <> []
       | None => True
       end
    /\ length STATE_NAMES = 50
    /\ NoDup STATE_NAMES
    /\ (forallb Chr.isspace (ExtractFeatures.or_empty location_raw) = true ->
        city = None /\ state = None).
Proof.
  destruct state_names_50 as [H50 Hnd].
  destruct location_raw as [[|c raw]|].
  1,3: exists None, None; repeat split; auto; congruence.
  destruct (@parse_city_state_located (c :: raw)) as (city & state & E & L);
    [discriminate|].
  exists city, state. destruct (located_shape L) as [Hc Hs].
  repeat split; try assumption.
  all: cbn [ExtractFeatures.or_empty] in H.
  all: unfold parse_city_state in E.
  all: cbn [Py.truthy_opt Str.nonempty negb ExtractFeatures.or_empty] in E.
  all: rewrite (StrFacts.strip_all_space _ H) in E.
  all: cbn in E; congruence.
Qed.

Lemma parse_city_state_total (location : option pystr) :
  exists city state,
    parse_city_state location = Ok (city, state) /\ state <> Some [].
Proof.
  destruct location as [[|c raw]|].
  1,3: exists None, None; split; [reflexivity | congruence].
  destruct (@parse_city_state_located (c :: raw)) as (city & state & E & L);
    [discriminate|].
  exists city, state. split; [assumption|].
  destruct (located_shape L) as [_ Hs]. destruct state as [st|]; [|congruence].
  destruct Hs as [_ Hs]. congruence.
Qed.

(** C2. The parse of a non-empty location follows the cases of
    [located] on the trimmed text: with two or more comma-separated parts
    the first is the city and the state comes from the second part or,
    failing that, from its first whitespace token; otherwise a trailing
    abbreviation of the table gives the state and the tokens before it
    the city, and without one the whole text is the city and no state is
    determined.  The caller replaces an undetermined state by the
    fallback state when one was supplied, and keeps a determined one.
    The five locations of the specification parse as stated. *)
Theorem parse_city_state_cases :
  (forall raw : pystr,
      raw <> [] ->
      exists city state,
        parse_city_state (Some raw) = Ok (city, state)
        /\ located (Str.strip raw) city state)
  /\ (forall (location query_state city state : option pystr),
         parse_city_state location = Ok (city, state) ->
         main_location location query_state
         = Ok (city,
               match state with
               | Some st => Some st
               | None => if Py.truthy_opt query_state then query_state else None
               end))
  /\ parse_city_state (Some (str "Dallas, Texas"))
     = Ok (Some (str "Dallas"), Some (str "Texas"))
  /\ parse_city_state (Some (str "New York, NY"))
     = Ok (Some (str "New York"), Some (str "New York"))
  /\ parse_city_state (Some (str "Austin TX"))
     = Ok (Some (str "Austin"), Some (str "Texas"))
  /\ main_location (Some (str "Austin")) (Some (str "Texas"))
     = Ok (Some (str "Austin"), Some (str "Texas"))
  /\ main_location (Some (str "Remote, USA")) None
     = Ok (Some (str "Remote"), None).
Proof.
  split; [exact parse_city_state_located|].
  split; [|repeat split; vm_compute; reflexivity].
  intros location q city state E.
  destruct (parse_city_state_total location) as (city' & state' & E' & Hs).
  rewrite E in E'. injection E' as <- <-.
  unfold main_location. rewrite E. cbn [bind].
  destruct state as [[|c st]|]; [exfalso; apply Hs; reflexivity | reflexivity |].
  cbn [Py.truthy_opt negb andb]. destruct (Py.truthy_opt q); reflexivity.
Qed.

End LocationFacts.

(** * The skill dictionary and the skill extractor *)

Module SkillFacts.
Import Re ExtractFeatures.

(** ** Loading and compiling the configuration *)

(** A YAML document [{skills: m}] *)
Definition skills_document (m : list (scalar * pyval)) : pyval :=
  VDict [(SStr (str "skills"), VDict m)].







(** ** Blank aliases *)

(** C7, the code at the failing input.  For [{skills: {ghost: ["  "]}}]
    every alias is blank, yet an entry is compiled (its alternation is
    empty), and the extractor reports the skill on the empty text and on
    "5+ years". *)
Theorem blank_aliases_are_compiled :
  compiled (fun _ => []) (skills_document [(SStr (str "ghost"), VList [VStr (str "  ")])])
  = Ok [(str "ghost", skill_regex [])]
  /\ fst (extract_skills [(str "ghost", skill_regex [])] (Some [])) = [str "ghost"]
  /\ fst (extract_skills [(str "ghost", skill_regex [])] (Some (str "5+ years")))
     = [str "ghost"].
Proof. repeat split. Qed.

(** ** Order and multiplicity of the extracted skills *)

Inductive subseq {A : Type} : list A -> list A -> Prop :=
| subseq_nil : subseq [] []
| subseq_skip (x : A) (l m : list A) : subseq l m -> subseq l (x :: m)
| subseq_take (x : A) (l m : list A) : subseq l m -> subseq (x :: l) (x :: m).

Lemma subseq_filter {A : Type} (f : A -> bool) (l : list A) : subseq (filter f l) l.
Proof.
  induction l as [|x l IH]; simpl; [constructor|].
  destruct (f x); constructor; assumption.
Qed.

Lemma subseq_map {A B : Type} (f : A -> B) (l m : list A) :
  subseq l m -> subseq (map f l) (map f m).
Proof. induction 1; simpl; constructor; assumption. Qed.

Lemma subseq_In {A : Type} (l m : list A) (x : A) : subseq l m -> In x l -> In x m.
Proof.
  induction 1; simpl; [tauto | auto |]. intros [H'|H']; auto.
Qed.

Lemma subseq_trans {A : Type} (l m n : list A) :
  subseq l m -> subseq m n -> subseq l n.
Proof.
  intros H1 H2. revert l H1.
  induction H2 as [|x m n H IH|x m n H IH]; intros l H1.
  - assumption.
  - apply subseq_skip, IH, H1.
  - inversion H1; subst.
    + apply subseq_skip, IH. assumption.
    + apply subseq_take, IH. assumption.
Qed.

Lemma subseq_NoDup {A : Type} (l m : list A) : subseq l m -> NoDup m -> NoDup l.
Proof.
  induction 1 as [|x l m S IH|x l m S IH]; intros H; [constructor| |].
  - inversion H; auto.
  - inversion H as [|? ? Hx Hm]; subst. constructor; [|auto].
    intros Hin. apply Hx. eapply subseq_In; eassumption.
Qed.

Lemma compile_order (cs : pyval -> pystr) (items : list (scalar * pyval)) :
  forall comp, compile cs items = Ok comp ->
               subseq (map fst comp) (map (fun kv => canonical_norm (fst kv)) items).
Proof.
  induction items as [|[k v] items IH]; intros comp H.
  - injection H as <-. constructor.
  - simpl in H. destruct (Py.truthy v); simpl in H.
    + destruct (alias_list cs v) as [al|e]; [|discriminate]. simpl in H.
      destruct (compile cs items) as [more|e]; [|discriminate]. simpl in H.
      injection H as <-. simpl. apply subseq_take, IH. reflexivity.
    + simpl. apply subseq_skip, IH. assumption.
Qed.

(** C8, as the code has it.  The skills list is a subsequence of the
    compiled canonical names, which follow the definition order of the
    dictionary; it has no duplicates whenever the compiled names are
    pairwise distinct; [top_skills] is its prefix of the first 10
    entries; [skills_count] is its length and [has_explicit_skills] tells
    whether that is positive. *)
Theorem skills_follow_dictionary_order
    (comp : list (pystr * regex)) (r : posting) :
  let row := main_row comp r in
  subseq (skills row) (map fst comp)
  /\ (forall cs items,
         compile cs items = Ok comp ->
         subseq (skills row) (map (fun kv => canonical_norm (fst kv)) items))
  /\ (NoDup (map fst comp) -> NoDup (skills row))
  /\ top_skills row = firstn 10 (skills row)
  /\ length (top_skills row) <= 10
  /\ (exists rest, skills row = top_skills row ++ rest)
  /\ skills_count row = Z.of_nat (length (skills row))
  /\ (has_explicit_skills row = true <-> (skills_count row > 0)%Z).
Proof.
  unfold main_row, extract_skills. cbv zeta. cbn [skills top_skills skills_count
                                                  has_explicit_skills].
  set (t := normalize_text _).
  set (hit := fun entry : pystr * regex => found (search true (snd entry) t)).
  assert (S1 : subseq (map fst (filter hit comp)) (map fst comp))
    by apply subseq_map, subseq_filter.
  split; [exact S1|]. split.
  { intros cs items H. apply compile_order in H. eapply subseq_trans; eassumption. }
  split; [apply subseq_NoDup, S1|].
  split; [reflexivity|].
  split; [apply firstn_le_length|].
  split; [exists (skipn 10 (map fst (filter hit comp))); symmetry; apply firstn_skipn|].
  split; [reflexivity|].
  rewrite Z.gtb_lt. lia.
Qed.

(** C8, counterexample.  The keys [SQL] and [sql] are two entries of the
    dictionary with one canonical name; a text that mentions SQL reports
    it twice. *)
Lemma duplicate_skill_reported :
  let dictionary := [(SStr (str "SQL"), VList [VStr (str "sql")]);
                     (SStr (str "sql"), VList [VStr (str "structured query language");
                                               VStr (str "sql")])] in
  exists comp,
    compiled (fun _ => []) (skills_document dictionary) = Ok comp
    /\ fst (extract_skills comp (Some (str "Advanced SQL required")))
       = [str "sql"; str "sql"]
    /\ ~ NoDup (fst (extract_skills comp (Some (str "Advanced SQL required")))).
Proof.
  eexists. split; [reflexivity|]. split; [reflexivity|].
  intros H. inversion H as [|x l Hx Hl]; subst. apply Hx. left. reflexivity.
Qed.

(** ** Whole-word matching *)

(** An occurrence of an alias: a space of the alias stands for one or
    more whitespace characters of the text, every other character for
    itself up to case. *)
Inductive alias_occurs : pystr -> pystr -> Prop :=
| occurs_end : alias_occurs [] []
| occurs_space (ws a seg : pystr) :
    ws <> [] -> forallb Chr.isspace ws = true ->
    alias_occurs a seg ->
    alias_occurs (" "%char :: a) (ws ++ seg)
| occurs_char (x c : ascii) (a seg : pystr) :
    x <> " "%char -> Chr.lower x = Chr.lower c ->
    alias_occurs a seg ->
    alias_occurs (x :: a) (c :: seg).

Definition ends_with_word (pre : pystr) : bool :=
  match rev pre with c :: _ => Chr.isword c | [] => false end.

Definition starts_with_word (post : pystr) : bool :=
  match post with c :: _ => Chr.isword c | [] => false end.

Lemma cursor_eq (e : cursor) (l t : pystr) (g : option pystr) :
  behind e = l -> ahead e = t -> group1 e = g -> e = Cursor l t g.
Proof. destruct e. simpl. intros -> -> ->. reflexivity. Qed.

Lemma not_space (c : ascii) : Chr.at_code 32 c = false -> c <> " "%char.
Proof. intros H ->. discriminate. Qed.

Lemma is_space (c : ascii) : Chr.at_code 32 c = true -> c = " "%char.
Proof. intros H. apply ChrFacts.at_code_eq in H. exact H. Qed.

(** The ends of the matches of an alias pattern are the ends of the
    occurrences of the alias. *)
Lemma run_alias (a : pystr) : forall s e : cursor,
  In e (run true (alias_pattern a) s) <->
  exists mid, alias_occurs a mid
              /\ ahead s = mid ++ ahead e
              /\ behind e = rev mid ++ behind s
              /\ group1 e = group1 s.
Proof.
  induction a as [|c a IH]; intros s e.
  - simpl. split.
    + intros [<-|[]]. exists []. repeat split. constructor.
    + intros (mid & Ho & Ha & Hb & Hg). inversion Ho; subst. left.
      symmetry. destruct s. apply cursor_eq; simpl in *; auto.
  - cbn [alias_pattern]. rewrite ReFacts.run_Seq, in_flat_map.
    destruct (Chr.at_code 32 c) eqn:Sp.
    + apply is_space in Sp. subst c. split.
      * intros (s1 & H1 & H2). rewrite ReFacts.run_Rep in H1.
        apply in_map_iff in H1 as ((l' & t') & <- & H1).
        apply ReFacts.rep_In in H1 as (ws & Hws & Hlo & Ea & El).
        apply IH in H2 as (mid & Ho & Ha & Hb & Hg). simpl in *.
        exists (ws ++ mid). split; [|split; [|split]].
        -- constructor; [destruct ws; [simpl in Hlo; lia | discriminate] | | ];
             assumption.
        -- rewrite Ea, Ha, app_assoc. reflexivity.
        -- rewrite Hb, El, rev_app_distr, app_assoc. reflexivity.
        -- assumption.
      * intros (mid & Ho & Ha & Hb & Hg).
        inversion Ho as [|ws a' seg Hne Hws Hseg|x d a' seg Hx]; subst;
          [|congruence].
        exists (Cursor (rev ws ++ behind s) (seg ++ ahead e) (group1 s)). split.
        -- rewrite ReFacts.run_Rep.
           apply in_map_iff. exists (rev ws ++ behind s, seg ++ ahead e).
           split; [reflexivity|]. apply ReFacts.rep_In. exists ws.
           repeat split; auto.
           ++ destruct ws; [congruence | simpl; lia].
           ++ rewrite Ha, app_assoc. reflexivity.
        -- apply IH. exists seg. simpl. repeat split; auto.
           rewrite Hb, rev_app_distr, app_assoc. reflexivity.
    + split.
      * intros (s1 & H1 & H2). rewrite ReFacts.run_Lit in H1.
        unfold step1 in H1. destruct (ahead s) as [|d t] eqn:Ea; [destruct H1|].
        destruct (lit_eq true c d) eqn:L; [|destruct H1].
        destruct H1 as [<-|[]].
        apply IH in H2 as (mid & Ho & Ha & Hb & Hg). simpl in *.
        exists (d :: mid). split; [|split; [|split]].
        -- constructor; [apply not_space, Sp | apply Ascii.eqb_eq, L | assumption].
        -- rewrite Ha. reflexivity.
        -- rewrite Hb. simpl. rewrite <- app_assoc. reflexivity.
        -- assumption.
      * intros (mid & Ho & Ha & Hb & Hg).
        inversion Ho as [|ws a' seg Hne Hws Hseg|x d a' seg Hx Hl Hseg]; subst;
          [discriminate|].
        exists (Cursor (d :: behind s) (seg ++ ahead e) (group1 s)). split.
        -- rewrite ReFacts.run_Lit. unfold step1. rewrite Ha. simpl.
           rewrite Hl, Ascii.eqb_refl. left. reflexivity.
        -- apply IH. exists seg. simpl. repeat split; auto.
           rewrite Hb. simpl. rewrite <- app_assoc. reflexivity.
Qed.

Lemma run_alt_of (ic : bool) (ps : list regex) (s e : cursor) :
  ps <> [] ->
  (In e (run ic (alt_of ps) s) <-> exists p, In p ps /\ In e (run ic p s)).
Proof.
  intros Hne. induction ps as [|p ps IH]; [congruence|].
  destruct ps as [|q ps].
  - simpl. split.
    + intros H. exists p. auto.
    + intros (p' & [<-|[]] & H). assumption.
  - change (alt_of (p :: q :: ps)) with (Alt p (alt_of (q :: ps))).
    rewrite ReFacts.run_Alt, in_app_iff, IH by discriminate. split.
    + intros [H|(p' & Hp & H)].
      * exists p. split; [left; reflexivity | assumption].
      * exists p'. split; [right; assumption | assumption].
    + intros (p' & [<-|Hp] & H); [left; assumption|].
      right. exists p'. auto.
Qed.

Lemma run_skill_regex (al : list pystr) (s : cursor) :
  al <> [] ->
  (run true (skill_regex al) s <> [] <->
   word_behind s = false
   /\ exists a mid post, In a al /\ alias_occurs a mid
                         /\ ahead s = mid ++ post
                         /\ starts_with_word post = false).
Proof.
  intros Hne. unfold skill_regex.
  assert (Hps : map alias_pattern al <> [])
    by (destruct al; [congruence | discriminate]).
  assert (NE : forall (A : Type) (l : list A), l <> [] <-> exists x, In x l).
  { intros A [|x l]; split; try congruence.
    - intros (x & []).
    - intros _. exists x. left. reflexivity. }
  rewrite NE. split.
  - intros (e & H). rewrite ReFacts.run_Seq in H.
    apply in_flat_map in H as (s1 & H1 & H).
    simpl in H1. unfold word_behind.
    assert (B : word_behind s = false /\ s1 = s).
    { unfold word_behind. destruct (behind s) as [|c l].
      - destruct H1 as [<-|[]]. auto.
      - destruct (Chr.isword c); [destruct H1|]. destruct H1 as [<-|[]]. auto. }
    destruct B as [B ->]. split; [exact B|].
    rewrite ReFacts.run_Seq in H. apply in_flat_map in H as (s2 & H2 & H).
    cbn [run] in H2. apply in_map_iff in H2 as (e0 & <- & H2).
    apply run_alt_of in H2 as (p & Hp & H2); [|assumption].
    apply in_map_iff in Hp as (a & <- & Ha).
    apply run_alias in H2 as (mid & Ho & Hah & Hb & Hg).
    exists a, mid, (ahead e0). repeat split; auto.
    simpl in H. unfold starts_with_word.
    destruct (ahead e0) as [|c t]; [reflexivity|].
    destruct (Chr.isword c); [destruct H | reflexivity].
  - intros (B & a & mid & post & Ha & Ho & Hah & Hw).
    set (e0 := Cursor (rev mid ++ behind s) post (group1 s)).
    set (e1 := Cursor (behind e0) (ahead e0)
                 (Some (firstn (length (ahead s) - length (ahead e0)) (ahead s)))).
    exists e1. rewrite ReFacts.run_Seq. apply in_flat_map. exists s. split.
    + simpl. unfold word_behind in B. destruct (behind s) as [|c l]; [left; reflexivity|].
      rewrite B. left. reflexivity.
    + rewrite ReFacts.run_Seq. apply in_flat_map. exists e1. split.
      * cbn [run]. apply in_map_iff. exists e0. split; [reflexivity|].
        apply run_alt_of; [assumption|]. exists (alias_pattern a).
        split; [apply in_map, Ha|]. apply run_alias. exists mid.
        repeat split; assumption.
      * simpl. unfold starts_with_word in Hw. destruct post as [|c t]; [left; reflexivity|].
        rewrite Hw. left. reflexivity.
Qed.

Lemma skill_regex_search (al : list pystr) (t : pystr) :
  al <> [] ->
  (found (search true (skill_regex al) t) = true <->
   exists a pre mid post,
     In a al /\ t = pre ++ mid ++ post /\ alias_occurs a mid
     /\ ends_with_word pre = false /\ starts_with_word post = false).
Proof.
  intros Hne. unfold search. rewrite ReFacts.search_from_found. split.
  - intros (pre & post0 & -> & H). apply run_skill_regex in H; [|assumption].
    destruct H as (B & a & mid & post & Ha & Ho & Hah & Hw).
    simpl in Hah. subst post0. exists a, pre, mid, post.
    unfold word_behind in B. simpl in B. rewrite app_nil_r in B.
    repeat split; assumption.
  - intros (a & pre & mid & post & Ha & -> & Ho & B & Hw).
    exists pre, (mid ++ post). split; [reflexivity|].
    apply run_skill_regex; [assumption|]. split.
    + unfold word_behind. simpl. rewrite app_nil_r. exact B.
    + exists a, mid, post. repeat split; assumption.
Qed.

Lemma extract_skills_In (comp : list (pystr * regex)) (text : option pystr)
    (canonical : pystr) :
  In canonical (fst (extract_skills comp text)) <->
  exists rx, In (canonical, rx) comp
             /\ found (search true rx (normalize_text (Some (or_empty text)))) = true.
Proof.
  unfold extract_skills. cbn [fst]. rewrite in_map_iff. split.
  - intros ((c & rx) & <- & H). apply filter_In in H as [H1 H2].
    exists rx. auto.
  - intros (rx & H1 & H2). exists (canonical, rx). split; [reflexivity|].
    apply filter_In. auto.
Qed.

(** Where the entries of [compiled] come from. *)
Lemma compile_entries (cs : pyval -> pystr) (items : list (scalar * pyval)) :
  forall comp, compile cs items = Ok comp ->
  forall c rx, In (c, rx) comp ->
  exists key aliases al,
    In (key, aliases) items /\ Py.truthy aliases = true
    /\ alias_list cs aliases = Ok al
    /\ c = canonical_norm key /\ rx = skill_regex al.
Proof.
  induction items as [|[k v] items IH]; intros comp H c rx Hin.
  - injection H as <-. destruct Hin.
  - simpl in H. destruct (Py.truthy v) eqn:T; simpl in H.
    + destruct (alias_list cs v) as [al|e] eqn:A; [|discriminate]. simpl in H.
      destruct (compile cs items) as [more|e]; [|discriminate]. simpl in H.
      injection H as <-. destruct Hin as [[= <- <-]|Hin].
      * exists k, v, al. repeat split; auto. left. reflexivity.
      * destruct (IH more eq_refl c rx Hin) as (key & aliases & al' & H1 & H2).
        exists key, aliases, al'. split; [right; assumption | assumption].
    + destruct (IH comp H c rx Hin) as (key & aliases & al' & H1 & H2).
      exists key, aliases, al'. split; [right; assumption | assumption].
Qed.

(** The dictionary of the examples: [{java: [java], power bi: [power bi]}]. *)
Definition example_dictionary : pyval :=
  skills_document [(SStr (str "java"), VList [VStr (str "java")]);
                   (SStr (str "power bi"), VList [VStr (str "power bi")])].

Definition example_skills (text : string) : Res (list pystr) :=
  comp <- compiled (fun _ => []) example_dictionary ;;
  Ok (fst (extract_skills comp (Some (str text)))).

(** C1. A skill is reported exactly when its matcher finds a match in the
    normalised text, and, for a matcher compiled from a non-empty alias
    list, that is exactly when some alias occurs in the text -- its spaces
    standing for one or more whitespace characters, its other characters
    compared without regard to case -- with no word character right
    before and none right after the occurrence.  So for every dictionary
    a reported skill whose entry has an alias left after trimming has
    such an occurrence of one of its aliases in the normalised text.
    Alias "java" does not match "javascript developer role"; alias
    "power bi" matches "Power BI" and "power-bi" but not "powerbike". *)
Theorem skill_matching_is_whole_word :
  (forall (comp : list (pystr * regex)) (text : option pystr) (canonical : pystr),
      In canonical (fst (extract_skills comp text)) <->
      exists rx, In (canonical, rx) comp
                 /\ found (search true rx (normalize_text (Some (or_empty text)))) = true)
  /\ (forall (al : list pystr) (t : pystr),
         al <> [] ->
         (found (search true (skill_regex al) t) = true <->
          exists a pre mid post,
            In a al /\ t = pre ++ mid ++ post /\ alias_occurs a mid
            /\ ends_with_word pre = false /\ starts_with_word post = false))
  /\ (forall (cs : pyval -> pystr) (items : list (scalar * pyval))
             (comp : list (pystr * regex)) (text : option pystr)
             (canonical : pystr),
         compile cs items = Ok comp ->
         In canonical (fst (extract_skills comp text)) ->
         exists key aliases al,
           In (key, aliases) items /\ alias_list cs aliases = Ok al
           /\ canonical = canonical_norm key
           /\ (al = [] \/
               exists a pre mid post,
                 In a al
                 /\ normalize_text (Some (or_empty text)) = pre ++ mid ++ post
                 /\ alias_occurs a mid
                 /\ ends_with_word pre = false /\ starts_with_word post = false))
  /\ example_skills "javascript developer role" = Ok []
  /\ example_skills "Power BI" = Ok [str "power bi"]
  /\ example_skills "power-bi" = Ok [str "power bi"]
  /\ example_skills "powerbike" = Ok [].
Proof.
  split; [exact extract_skills_In|].
  split; [exact skill_regex_search|].
  split; [|repeat split].
  intros cs items comp text canonical Hc Hin.
  apply extract_skills_In in Hin as (rx & Hin & Hf).
  destruct (compile_entries _ _ Hc _ _ Hin) as (key & aliases & al & H1 & _ & H3 & H4 & ->).
  exists key, aliases, al. repeat split; try assumption.
  destruct al as [|a0 al]; [left; reflexivity | right].
  apply skill_regex_search in Hf; [exact Hf | discriminate].
Qed.

(** The alias "power bi" occurs in "senior power  bi developer" (two
    spaces in the text for the one of the alias), between a space and a
    space. *)
Lemma skill_matching_is_whole_word_witness :
  found (search true (skill_regex [str "power bi"]) (str "senior power  bi developer"))
  = true.
Proof.
  apply (proj1 (proj2 skill_matching_is_whole_word) [str "power bi"]).
  - discriminate.
  - exists (str "power bi"), (str "senior "), (str "power  bi"), (str " developer").
    split; [left; reflexivity|]. split; [reflexivity|].
    split; [|split; reflexivity].
    change (str "power  bi") with (str "power" ++ str "  bi").
    change (str "power bi") with (str "power" ++ str " bi").
    cbn [str list_ascii_of_string app].
    repeat (apply occurs_char; [discriminate | reflexivity |]).
    apply (occurs_space (ws := str "  ") (a := str "bi") (seg := str "bi"));
      [discriminate | reflexivity |].
    cbn [str list_ascii_of_string].
    repeat (apply occurs_char; [discriminate | reflexivity |]).
    apply occurs_end.
Defined.

End SkillFacts.

(** * Substrings *)

Module ContainsFacts.
Import Str.

Lemma startswith_spec (p s : pystr) :
  startswith p s = true <-> exists post, s = p ++ post.
Proof.
  revert s. induction p as [|a p IH]; intros s; simpl.
  - split; [intros _; exists s; reflexivity | reflexivity].
  - destruct s as [|b s].
    + split; [discriminate | intros (post & E); discriminate].
    + rewrite andb_true_iff, Ascii.eqb_eq, IH. split.
      * intros (-> & post & ->). exists post. reflexivity.
      * intros (post & E). injection E as -> ->. split; [reflexivity | eauto].
Qed.

(** [needle in hay] holds exactly when [hay] splits around [needle]. *)
Lemma contains_spec (needle hay : pystr) :
  contains needle hay = true <-> exists pre post, hay = pre ++ needle ++ post.
Proof.
  induction hay as [|c hay IH].
  - simpl. rewrite orb_false_r, startswith_spec. split.
    + intros (post & E). exists [], post. exact E.
    + intros (pre & post & E). destruct pre; [|discriminate]. eauto.
  - cbn [contains]. rewrite orb_true_iff, startswith_spec, IH. split.
    + intros [(post & E)|(pre & post & E)].
      * exists [], post. exact E.
      * exists (c :: pre), post. rewrite E. reflexivity.
    + intros (pre & post & E). destruct pre as [|d pre].
      * left. exists post. exact E.
      * right. injection E as <- ->. eauto.
Qed.

Lemma contains_trans (a b c : pystr) :
  contains a b = true -> contains b c = true -> contains a c = true.
Proof.
  rewrite !contains_spec. intros (p1 & q1 & ->) (p2 & q2 & ->).
  exists (p2 ++ p1), (q1 ++ q2). rewrite <- !app_assoc. reflexivity.
Qed.

(** A needle that does not hold the separator lies on one side of it. *)
Lemma contains_across (needle a b : pystr) (sep : ascii) :
  needle <> [] -> ~ In sep needle ->
  contains needle (a ++ sep :: b) = contains needle a || contains needle b.
Proof.
  intros Hne Hsep. apply eq_true_iff_eq.
  rewrite orb_true_iff, !contains_spec. split.
  - intros (pre & post & E). apply app_eq_app in E as (l & [[E1 E2]|[E1 E2]]).
    + symmetry in E2. apply app_eq_app in E2 as (l2 & [[E3 E4]|[E3 E4]]).
      * left. subst. exists pre, l2. rewrite <- ?app_assoc. reflexivity.
      * destruct l2 as [|d l2].
        -- left. exists pre, []. rewrite app_nil_r in *. subst. reflexivity.
        -- exfalso. apply Hsep. simpl in E4. injection E4 as -> _. subst needle.
           apply in_or_app. right. left. reflexivity.
    + destruct l as [|d l].
      * exfalso. simpl in E2. destruct needle as [|x n]; [congruence|].
        injection E2 as <- _. apply Hsep. left. reflexivity.
      * right. injection E2 as <- ->. eauto.
  - intros [(pre & post & ->)|(pre & post & ->)].
    + exists pre, (post ++ sep :: b). rewrite <- !app_assoc. reflexivity.
    + exists (a ++ sep :: pre), post. rewrite <- app_assoc. reflexivity.
Qed.

End ContainsFacts.

(** * Remote detection *)

Module RemoteFacts.
Import ExtractFeatures.

(** The signals that decide: "fully remote" and "100% remote" hold
    "remote". *)
Definition deciding_signals : list string :=
  ["remote"; "work from home"; "wfh"; "telecommute"; "anywhere"]%string.

Definition remote_signals : list string :=
  ["remote"; "work from home"; "wfh"; "telecommute"; "fully remote";
   "100% remote"; "anywhere"]%string.

Lemma signal_decided (s : string) :
  In s remote_signals ->
  exists d, In d deciding_signals /\ Str.contains (str d) (str s) = true.
Proof.
  unfold remote_signals, deciding_signals.
  intros [<-|[<-|[<-|[<-|[<-|[<-|[<-|[]]]]]]]].
  1,5,6: exists "remote"%string; split; [simpl; tauto | reflexivity].
  - exists "work from home"%string; split; [simpl; tauto | reflexivity].
  - exists "wfh"%string; split; [simpl; tauto | reflexivity].
  - exists "telecommute"%string; split; [simpl; tauto | reflexivity].
  - exists "anywhere"%string; split; [simpl; tauto | reflexivity].
Qed.

(** [infer_remote] is a case-insensitive substring test for five phrases:
    it holds exactly when the lower-cased text contains one of "remote",
    "work from home", "wfh", "telecommute", "anywhere"; the two other
    phrases of the list add nothing. *)
Theorem infer_remote_signals (text_blob : option pystr) :
  infer_remote text_blob = true <->
  exists s pre post,
    In s deciding_signals
    /\ Str.lower (or_empty text_blob) = pre ++ str s ++ post.
Proof.
  unfold infer_remote. cbv zeta. fold remote_signals.
  unfold any_in. rewrite existsb_exists. split.
  - intros (s & Hs & H). destruct (signal_decided Hs) as (d & Hd & Hc).
    unfold has in H. pose proof (@ContainsFacts.contains_trans _ _ _ Hc H) as C.
    apply ContainsFacts.contains_spec in C as (pre & post & E). eauto.
  - intros (s & pre & post & Hs & E). exists s. split.
    + unfold deciding_signals in Hs. unfold remote_signals. simpl in *. tauto.
    + unfold has. apply ContainsFacts.contains_spec. eauto.
Qed.

Lemma existsb_orb3 {A : Type} (f g h k : A -> bool) (l : list A) :
  (forall x, In x l -> f x = g x || h x || k x) ->
  existsb f l = existsb g l || existsb h l || existsb k l.
Proof.
  induction l as [|x l IH]; intros H; [reflexivity|].
  simpl. rewrite IH by (intros y Hy; apply H; right; exact Hy).
  rewrite (H x) by (left; reflexivity).
  destruct (g x), (h x), (k x), (existsb g l), (existsb h l); reflexivity.
Qed.

Lemma signal_one_line (s : string) :
  In s remote_signals -> str s <> [] /\ ~ In "010"%char (str s).
Proof.
  unfold remote_signals.
  intros [<-|[<-|[<-|[<-|[<-|[<-|[<-|[]]]]]]]];
    (split; [discriminate|]); cbn;
    repeat (intros [H|H]; [discriminate H | revert H]); tauto.
Qed.

(** The remote flag of a record is the disjunction of the flags of its
    title, its raw location and its description: no signal is found
    across the line breaks that join them in the blob. *)
Theorem is_remote_per_field (compiled : list (pystr * Re.regex)) (r : posting) :
  is_remote (main_row compiled r)
  = infer_remote (title r) || infer_remote (location_raw r)
    || infer_remote (description_clean r).
Proof.
  unfold main_row. cbn [is_remote extract_skills].
  unfold infer_remote. cbv zeta. fold remote_signals. unfold any_in.
  apply existsb_orb3. intros s Hs. destruct (signal_one_line Hs) as [Hne Hnl].
  unfold has, Str.lower. cbn [or_empty].
  change (str (String "010" "")) with ["010"%char].
  rewrite !map_app. cbn [map app].
  change (Chr.lower "010") with "010"%char.
  rewrite !ContainsFacts.contains_across by assumption.
  rewrite orb_assoc. reflexivity.
Qed.

End RemoteFacts.

(** * The alphabet of normalised text, and the aliases it excludes *)

Module AlphabetFacts.
Import Re ExtractFeatures.

(** The characters a normalised text is made of, besides the space:
    word characters other than the underscore, and [+]. *)
Definition kept (c : ascii) : bool :=
  (Chr.isword c && negb (Chr.at_code 95 c)) || Chr.at_code 43 c.

Lemma stable_kept (c : ascii) :
  NormalizeFacts.stable c = true ->
  Chr.isspace c = true \/ (kept c = true /\ Chr.lower c = c).
Proof.
  intros H.
  pose proof (ChrFacts.by_cases
                (fun c => implb (NormalizeFacts.stable c)
                            (Chr.isspace c
                             || (kept c && Ascii.eqb (Chr.lower c) c)))
                eq_refl c) as G.
  cbv beta in G. rewrite H in G. simpl in G.
  apply orb_prop in G as [G|G]; [left; exact G | right].
  apply andb_prop in G as [G1 G2]. apply Ascii.eqb_eq in G2. auto.
Qed.

Lemma squeezed_space (y : pystr) (c : ascii) :
  ReFacts.squeezed y = true -> In c y -> Chr.isspace c = true -> c = " "%char.
Proof.
  induction y as [|d y IH]; [intros _ []|].
  simpl. intros H [->|Hin] W.
  - rewrite W in H. apply andb_prop in H as [H _]. apply andb_prop in H as [H _].
    apply Ascii.eqb_eq, H.
  - apply andb_prop in H as [_ H]. auto.
Qed.

Lemma squeezed_no_run (u v : pystr) (w1 w2 : ascii) :
  Chr.isspace w1 = true -> Chr.isspace w2 = true ->
  ReFacts.squeezed (u ++ w1 :: w2 :: v) = false.
Proof.
  intros W1 W2. induction u as [|d u IH].
  - simpl. rewrite W1, W2. simpl. rewrite andb_false_r. reflexivity.
  - change ((d :: u) ++ w1 :: w2 :: v) with (d :: (u ++ w1 :: w2 :: v)).
    cbn [ReFacts.squeezed]. rewrite IH. apply andb_false_r.
Qed.

Lemma rstrip_length (s : pystr) : length (Str.rstrip s) <= length s.
Proof.
  induction s as [|c s IH]; [auto|].
  rewrite StrFacts.rstrip_cons. destruct (Str.rstrip s) as [|x r].
  - destruct (Chr.isspace c); simpl; lia.
  - simpl in *. lia.
Qed.

Lemma rstrip_snoc_space (pre : pystr) (c : ascii) :
  Chr.isspace c = true -> Str.rstrip (pre ++ [c]) = Str.rstrip pre.
Proof.
  intros W. induction pre as [|d pre IH].
  - simpl. rewrite W. reflexivity.
  - change ((d :: pre) ++ [c]) with (d :: (pre ++ [c])).
    rewrite !StrFacts.rstrip_cons, IH. reflexivity.
Qed.

(** A normalised text consists of lower-case word characters other than
    the underscore, of [+] and of single spaces; it neither starts nor
    ends with a space.  In particular no punctuation, hyphen, slash or
    underscore of the input survives. *)
Theorem normalize_text_alphabet (s : option pystr) :
  let y := normalize_text s in
  (forall c, In c y ->
             c = " "%char \/ (kept c = true /\ Chr.lower c = c))
  /\ (forall pre post, y <> pre ++ " "%char :: " "%char :: post)
  /\ (forall post, y <> " "%char :: post)
  /\ (forall pre, y <> pre ++ [" "%char]).
Proof.
  intros y. subst y. rewrite <- NormalizeFacts.normalize_text_or_empty.
  destruct (NormalizeFacts.normalize_text_normal (or_empty s)) as (Hc & Hs & Ht).
  set (y := normalize_text (Some (or_empty s))) in *.
  split; [|split; [|split]].
  - intros c Hin. destruct (@stable_kept c (Hc c Hin)) as [W|K]; [left | right; exact K].
    eapply squeezed_space; eassumption.
  - intros pre post E. rewrite E in Hs.
    rewrite squeezed_no_run in Hs by reflexivity. discriminate.
  - intros post E.
    assert (W : StrFacts.starts_ws y = false).
    { rewrite <- Ht. apply StrFacts.rstrip_starts, StrFacts.lstrip_starts. }
    rewrite E in W. discriminate.
  - intros pre E.
    assert (R : Str.rstrip y = y).
    { rewrite <- Ht at 1. unfold Str.strip.
      rewrite StrFacts.rstrip_idempotent. exact Ht. }
    rewrite E, rstrip_snoc_space in R by reflexivity.
    pose proof (rstrip_length pre) as L. rewrite R, length_app in L.
    simpl in L. lia.
Qed.

(** What an occurrence of an alias demands of the text. *)
Lemma occurs_char_In (a mid : pystr) :
  SkillFacts.alias_occurs a mid ->
  forall x, In x a -> x <> " "%char ->
            exists c, In c mid /\ Chr.lower x = Chr.lower c.
Proof.
  induction 1 as [|ws a seg Hne Hws Ho IH|x0 c a seg Hx Hl Ho IH];
    intros x Hin Hsp.
  - destruct Hin.
  - destruct Hin as [<-|Hin]; [congruence|].
    destruct (IH x Hin Hsp) as (c & Hc & E). exists c. split; [|exact E].
    apply in_or_app. right. exact Hc.
  - destruct Hin as [<-|Hin].
    + exists c. split; [left; reflexivity | exact Hl].
    + destruct (IH x Hin Hsp) as (c' & Hc & E). exists c'. split; [|exact E].
      right. exact Hc.
Qed.

Lemma occurs_nonempty_space (a seg : pystr) :
  SkillFacts.alias_occurs (" "%char :: a) seg ->
  exists w rest, seg = w :: rest /\ Chr.isspace w = true.
Proof.
  intros H. inversion H as [|ws a' seg' Hne Hws Ho|x c a' seg' Hx]; subst;
    [|congruence].
  destruct ws as [|w ws]; [congruence|]. simpl in Hws.
  apply andb_prop in Hws as [W _]. exists w, (ws ++ seg'). auto.
Qed.

Lemma occurs_double_space (p q mid : pystr) :
  SkillFacts.alias_occurs (p ++ " "%char :: " "%char :: q) mid ->
  exists u v w1 w2, mid = u ++ w1 :: w2 :: v
                    /\ Chr.isspace w1 = true /\ Chr.isspace w2 = true.
Proof.
  revert mid. induction p as [|x p IH]; intros mid H.
  - simpl in H.
    inversion H as [|ws a' seg Hne Hws Ho|x c a' seg Hx]; subst; [|congruence].
    destruct (@occurs_nonempty_space _ _ Ho) as (w2 & rest & -> & W2).
    destruct (exists_last Hne) as (ws' & w1 & ->).
    rewrite forallb_app in Hws. apply andb_prop in Hws as [_ W1].
    simpl in W1. rewrite andb_true_r in W1.
    exists ws', rest, w1, w2. rewrite <- app_assoc. auto.
  - change ((x :: p) ++ " "%char :: " "%char :: q)
      with (x :: (p ++ " "%char :: " "%char :: q)) in H.
    inversion H as [|ws a' seg Hne Hws Ho|x' c a' seg Hx Hl Ho]; subst.
    + destruct (IH _ Ho) as (u & v & w1 & w2 & -> & W).
      exists (ws ++ u), v, w1, w2. rewrite <- app_assoc. auto.
    + destruct (IH _ Ho) as (u & v & w1 & w2 & -> & W).
      exists (c :: u), v, w1, w2. auto.
Qed.

(** An alias that no normalised text can hold: one of its characters,
    not a space, is not kept by normalisation (up to case), or it has
    two spaces in a row. *)
Definition excluded (a : pystr) : Prop :=
  (exists x, In x a /\ x <> " "%char /\ kept (Chr.lower x) = false)
  \/ (exists p q, a = p ++ " "%char :: " "%char :: q).

Lemma lower_space (x : ascii) : Chr.lower x = " "%char -> x = " "%char.
Proof.
  intros H.
  pose proof (ChrFacts.by_cases
                (fun x => implb (Ascii.eqb (Chr.lower x) " ") (Ascii.eqb x " "))
                eq_refl x) as G.
  cbv beta in G. rewrite H in G. simpl in G. apply Ascii.eqb_eq, G.
Qed.

Lemma space_not_kept (c : ascii) :
  Chr.isspace c = true -> kept c = true -> False.
Proof.
  intros W K.
  pose proof (ChrFacts.by_cases
                (fun c => negb (Chr.isspace c && kept c)) eq_refl c) as G.
  cbv beta in G. rewrite W, K in G. discriminate.
Qed.

Lemma excluded_never_occurs (a : pystr) (s : option pystr) (pre mid post : pystr) :
  excluded a ->
  normalize_text s = pre ++ mid ++ post ->
  ~ SkillFacts.alias_occurs a mid.
Proof.
  intros Hex E Ho.
  destruct (normalize_text_alphabet s) as (Hc & Hrun & _).
  destruct Hex as [(x & Hin & Hsp & Hk)|(p & q & ->)].
  - destruct (@occurs_char_In _ _ Ho x Hin Hsp) as (c & Hcm & El).
    assert (Hy : In c (normalize_text s)).
    { rewrite E. apply in_or_app. right. apply in_or_app. left. exact Hcm. }
    destruct (Hc c Hy) as [->|[K L]].
    + apply Hsp, lower_space. exact El.
    + rewrite L in El. rewrite El in Hk. congruence.
  - destruct (@occurs_double_space _ _ _ Ho) as (u & v & w1 & w2 & -> & W1 & W2).
    assert (H1 : In w1 (normalize_text s)).
    { rewrite E. apply in_or_app. right. apply in_or_app. left.
      apply in_or_app. right. left. reflexivity. }
    assert (H2 : In w2 (normalize_text s)).
    { rewrite E. apply in_or_app. right. apply in_or_app. left.
      apply in_or_app. right. right. left. reflexivity. }
    destruct (Hc w1 H1) as [->|[K _]]; [|exact (@space_not_kept w1 W1 K)].
    destruct (Hc w2 H2) as [->|[K _]]; [|exact (@space_not_kept w2 W2 K)].
    apply (Hrun (pre ++ u) (v ++ post)). rewrite E.
    rewrite <- !app_assoc. reflexivity.
Qed.

(** A skill all of whose aliases are excluded is never reported, whatever
    the text: an alias such as "c#", "node.js", "ci/cd" or "scikit-learn"
    cannot occur in a text from which normalisation has removed those
    characters. *)
Theorem excluded_aliases_never_match
    (compiled : list (pystr * regex)) (text_blob : option pystr)
    (canonical : pystr) :
  (forall rx, In (canonical, rx) compiled ->
              exists al, rx = skill_regex al /\ al <> []
                         /\ forall a, In a al -> excluded a) ->
  ~ In canonical (fst (extract_skills compiled text_blob)).
Proof.
  intros Hex Hin. apply SkillFacts.extract_skills_In in Hin as (rx & Hrx & H).
  destruct (Hex rx Hrx) as (al & -> & Hne & Ha).
  apply SkillFacts.skill_regex_search in H; [|assumption].
  destruct H as (a & pre & mid & post & Hin & E & Ho & _).
  exact (@excluded_never_occurs _ _ _ _ _ (Ha a Hin) E Ho).
Qed.

Lemma excluded_aliases_never_match_witness :
  ~ In (str "web stack")
       (fst (extract_skills
               [(str "web stack", skill_regex [str "c#"; str "node.js"; str "ci/cd"]);
                (str "sql", skill_regex [str "sql"])]
               (Some (str "C# and Node.js developer, CI/CD, SQL")))).
Proof.
  apply excluded_aliases_never_match.
  intros rx [[= <-]|[[= E]|[]]].
  exists [str "c#"; str "node.js"; str "ci/cd"].
  split; [reflexivity|]. split; [discriminate|].
  intros a [<-|[<-|[<-|[]]]]; left.
  - exists "#"%char. repeat split; [simpl; tauto | discriminate].
  - exists "."%char. repeat split; [simpl; tauto | discriminate].
  - exists "/"%char. repeat split; [simpl; tauto | discriminate].
Defined.

End AlphabetFacts.

(** * The range of the years of experience *)

Module YearsBounds.
Import Re ExtractFeatures.

(** A bounded repetition takes at most [h] characters. *)
Lemma rep_bounded (p : ascii -> bool) (t : pystr) :
  forall (lo h : nat) (l l' t' : pystr),
    In (l', t') (rep p lo (Some h) l t) ->
    length t' <= length t /\ length t - length t' <= h.
Proof.
  induction t as [|c t IH]; intros lo h l l' t' H.
  - simpl in H. destruct lo; [|destruct H].
    destruct H as [[= <- <-]|[]]. simpl. lia.
  - rewrite ReFacts.rep_cons in H. apply in_app_or in H as [H|H].
    + destruct h as [|h]; [destruct H|]. cbn [may_more andb option_map] in H.
      destruct (p c); [|destruct H].
      apply IH in H. cbn [length Nat.pred] in *. lia.
    + destruct lo; [|destruct H]. destruct H as [[= <- <-]|[]]. lia.
Qed.

(** Patterns whose group 1 is [(\d{1,2})]. *)
Inductive captures_two_digits : regex -> Prop :=
| two_digits_group : captures_two_digits digits12
| two_digits_left (r1 r2 : regex) :
    captures_two_digits r1 -> ReFacts.groupless r2 = true ->
    captures_two_digits (Seq r1 r2)
| two_digits_right (r1 r2 : regex) :
    ReFacts.groupless r1 = true -> captures_two_digits r2 ->
    captures_two_digits (Seq r1 r2).

Lemma run_two_digits (ic : bool) (r : regex) :
  captures_two_digits r ->
  forall s e : cursor,
    In e (run ic r s) ->
    exists g, group1 e = Some g /\ forallb Chr.isdecimal g = true
              /\ 1 <= length g <= 2.
Proof.
  induction 1 as [|r1 r2 C IH G|r1 r2 G C IH]; intros s e H.
  - unfold digits12 in H. cbn [run] in H.
    apply in_map_iff in H as (e0 & <- & H).
    apply in_map_iff in H as ((l' & t') & <- & H).
    pose proof (rep_bounded _ _ _ _ _ _ _ H) as [B1 B2].
    apply ReFacts.rep_sound in H as (ws & Hws & Hlo & Ea & _).
    exists ws. cbn [group1 ahead fst snd] in *. rewrite Ea, length_app in *.
    replace (length ws + length t' - length t') with (length ws) in * by lia.
    rewrite firstn_app, firstn_all, Nat.sub_diag. simpl. rewrite app_nil_r.
    repeat split; auto.
  - rewrite ReFacts.run_Seq in H. apply in_flat_map in H as (s1 & H1 & H2).
    destruct (IH _ _ H1) as (g & Hg & D).
    exists g. rewrite (ReFacts.run_groupless _ _ _ _ G H2). auto.
  - rewrite ReFacts.run_Seq in H. apply in_flat_map in H as (s1 & H1 & H2).
    eapply IH, H2.
Qed.

Lemma patterns_two_digits (p : regex) : In p patterns -> captures_two_digits p.
Proof.
  unfold patterns.
  intros [<-|[<-|[<-|[<-|[]]]]].
  - apply two_digits_left; [constructor | reflexivity].
  - apply two_digits_right; [reflexivity|].
    apply two_digits_right; [reflexivity|].
    apply two_digits_left; [constructor | reflexivity].
  - do 4 (apply two_digits_right; [reflexivity|]).
    apply two_digits_left; [constructor | reflexivity].
  - apply two_digits_left; [constructor | reflexivity].
Qed.

Lemma digit_value (c : ascii) :
  Chr.isdecimal c = true -> (0 <= Z.of_N (Chr.code c) - 48 <= 9)%Z.
Proof.
  unfold Chr.isdecimal, Chr.between. intros H. apply andb_prop in H as [H1 H2].
  apply N.leb_le in H1, H2. lia.
Qed.

Lemma int_two_digits (g : pystr) (n : Z) :
  forallb Chr.isdecimal g = true -> 1 <= length g <= 2 ->
  Py.int g = Some n -> (0 <= n <= 99)%Z.
Proof.
  intros Hg Hlen. unfold Py.int. rewrite StrFacts.strip_token.
  2:{ rewrite forallb_forall in *. intros c Hc.
      apply YearsFacts.decimal_not_sign, Hg, Hc. }
  destruct g as [|c1 [|c2 [|c3 g]]]; simpl in Hlen; try lia;
    simpl in Hg; repeat (apply andb_prop in Hg as [? Hg]).
  all: destruct (YearsFacts.decimal_not_sign c1) as (_ & -> & ->); [assumption|].
  all: simpl.
  all: repeat match goal with
              | H : Chr.isdecimal ?c = true |- _ =>
                  rewrite H; pose proof (digit_value _ H); clear H
              end.
  all: intros [= <-]; lia.
Qed.

Lemma hits_range (t : pystr) (n : Z) : In n (hits t) -> (0 <= n <= 99)%Z.
Proof.
  intros H. apply YearsFacts.hits_In in H as (p & m & g & Hp & Hm & Hg & Hn).
  apply ReFacts.finditer_from_In in Hm as (l & t' & Hm).
  apply (@run_two_digits false _ (patterns_two_digits Hp)) in Hm
    as (g' & Hg' & Hd & Hlen).
  rewrite Hg in Hg'. injection Hg' as <-.
  eapply int_two_digits; eassumption.
Qed.

(** X5. The years of experience, when present, are a whole number
    between 0 and 99: a non-negative decimal with exponent 0.  For instance
    "100+ years" gives 0, the first pattern matching at "00+ years". *)
Theorem years_experience_range (text_blob : option pystr) :
  match extract_years_experience text_blob with
  | Some d =>
      dec_sign d = false /\ dec_exp d = 0%Z /\ (dec_coeff d <= 99)%N
  | None => True
  end
  /\ extract_years_experience (Some (str "100+ years")) = Some (Decimal_of_int 0).
Proof.
  split; [|vm_compute; reflexivity].
  unfold extract_years_experience. cbv zeta.
  destruct (hits (normalize_text (Some (or_empty text_blob)))) as [|h hs] eqn:E;
    [exact I|].
  pose proof (YearsFacts.py_min_In hs h) as Hin. rewrite <- E in Hin.
  apply hits_range in Hin.
  unfold Decimal_of_int. cbn [dec_sign dec_exp dec_coeff].
  split; [apply Z.ltb_ge; lia|]. split; [reflexivity|].
  apply N2Z.inj_le. rewrite N2Z.inj_abs_N. simpl. lia.
Qed.

End YearsBounds.

(** * What a cleaned description looks like *)

Module CleanTextShape.
Import Re CleanTransform CleanTextFacts.

(** A complete tag somewhere in the text: [<], at least one character
    other than [>], then [>]. *)
Definition has_tag (t : pystr) : Prop :=
  exists pre b rest, t = pre ++ "<"%char :: b ++ ">"%char :: rest
                     /\ tag_body b = true.

(** The same, seen from the character after the [<]. *)
Definition opens_tag (t : pystr) : Prop :=
  exists c rest, t = c :: rest /\ c <> ">"%char /\ In ">"%char rest.

Lemma not_gt_true (c : ascii) : not_gt c = true <-> c <> ">"%char.
Proof.
  unfold not_gt. rewrite negb_true_iff. split.
  - intros H ->. discriminate.
  - intros H. destruct (Chr.at_code 62 c) eqn:E; [|reflexivity].
    exfalso. apply H. apply ChrFacts.at_code_eq in E. exact E.
Qed.

Lemma first_gt (t : pystr) :
  In ">"%char t ->
  exists b rest, t = b ++ ">"%char :: rest /\ forallb not_gt b = true.
Proof.
  induction t as [|c t IH]; [intros []|].
  destruct (ascii_dec c ">") as [->|Hc].
  - intros _. exists [], t. auto.
  - intros [E|H]; [exfalso; apply Hc; exact E|].
    destruct (IH H) as (b & rest & -> & Hb).
    exists (c :: b), rest. split; [reflexivity|].
    simpl. rewrite Hb, andb_true_r. apply not_gt_true, Hc.
Qed.

Lemma opens_tag_body (t : pystr) :
  opens_tag t <-> exists b rest, t = b ++ ">"%char :: rest /\ tag_body b = true.
Proof.
  split.
  - intros (c & rest & -> & Hc & Hin).
    destruct (first_gt _ Hin) as (b & rest' & -> & Hb).
    exists (c :: b), rest'. split; [reflexivity|].
    unfold tag_body. simpl. rewrite Hb, andb_true_r. apply not_gt_true, Hc.
  - intros (b & rest & -> & Hb). unfold tag_body in Hb.
    apply andb_prop in Hb as [Hn Hb]. destruct b as [|c b]; [discriminate|].
    simpl in Hb. apply andb_prop in Hb as [Hc _].
    exists c, (b ++ ">"%char :: rest). split; [reflexivity|].
    split; [apply not_gt_true, Hc|]. apply in_or_app. right. left. reflexivity.
Qed.

Lemma has_tag_opens (t : pystr) :
  has_tag t <-> exists pre rest, t = pre ++ "<"%char :: rest /\ opens_tag rest.
Proof.
  split.
  - intros (pre & b & rest & -> & Hb). exists pre, (b ++ ">"%char :: rest).
    split; [reflexivity|]. apply opens_tag_body. eauto.
  - intros (pre & rest & -> & Ho). apply opens_tag_body in Ho as (b & r & -> & Hb).
    exists pre, b, r. auto.
Qed.

Lemma has_tag_cons (c : ascii) (t : pystr) :
  has_tag (c :: t) <-> (c = "<"%char /\ opens_tag t) \/ has_tag t.
Proof.
  rewrite !has_tag_opens. split.
  - intros (pre & rest & E & Ho). destruct pre as [|d pre].
    + injection E as -> ->. left. auto.
    + injection E as -> ->. right. eauto.
  - intros [[-> Ho]|(pre & rest & -> & Ho)].
    + exists [], t. auto.
    + exists (c :: pre), rest. auto.
Qed.

Lemma has_tag_app (p t q : pystr) : has_tag t -> has_tag (p ++ t ++ q).
Proof.
  intros (pre & b & rest & -> & Hb). exists (p ++ pre), b, (rest ++ q).
  split; [|exact Hb]. rewrite <- !app_assoc. simpl. rewrite <- app_assoc.
  reflexivity.
Qed.

(** Where the tag pattern matches. *)
Lemma match_tag (l t : pystr) :
  match_at false tag l t <> None <->
  exists rest, t = "<"%char :: rest /\ opens_tag rest.
Proof.
  split.
  - intros H. unfold match_at in H.
    destruct (run false tag (Cursor l t None)) as [|e es] eqn:R;
      [exfalso; apply H; reflexivity|].
    assert (Hin : In e (run false tag (Cursor l t None)))
      by (rewrite R; left; reflexivity).
    unfold tag in Hin. rewrite ReFacts.run_Seq in Hin.
    apply in_flat_map in Hin as (s1 & H1 & H2).
    rewrite ReFacts.run_Lit in H1. unfold step1 in H1. cbn [ahead behind group1] in H1.
    destruct t as [|c t1]; [destruct H1|].
    destruct (lit_eq false "<" c) eqn:L; [|destruct H1].
    apply Ascii.eqb_eq in L. subst c. destruct H1 as [<-|[]].
    exists t1. split; [reflexivity|].
    rewrite ReFacts.run_Seq in H2. apply in_flat_map in H2 as (s2 & H2 & H3).
    rewrite ReFacts.run_Rep in H2. cbn [ahead behind group1] in H2.
    apply in_map_iff in H2 as ((l' & t') & <- & H2).
    apply ReFacts.rep_In in H2 as (ws & Hws & Hlo & -> & _).
    rewrite ReFacts.run_Lit in H3. unfold step1 in H3. cbn [ahead fst snd] in H3.
    destruct t' as [|d t2]; [destruct H3|].
    destruct (lit_eq false ">" d) eqn:L; [|destruct H3].
    apply Ascii.eqb_eq in L. subst d.
    apply opens_tag_body. exists ws, t2. split; [reflexivity|].
    unfold tag_body. fold not_gt in Hws. rewrite Hws, andb_true_r.
    destruct ws; [simpl in Hlo; lia | reflexivity].
  - intros (rest & -> & Ho). apply opens_tag_body in Ho as (b & r & -> & Hb).
    rewrite (@tag_match b r l Hb). discriminate.
Qed.

Lemma match_tag_result (l rest : pystr) (e : cursor) :
  match_at false tag l ("<"%char :: rest) = Some e ->
  exists b r, rest = b ++ ">"%char :: r /\ tag_body b = true /\ ahead e = r.
Proof.
  intros H.
  assert (N : match_at false tag l ("<"%char :: rest) <> None) by congruence.
  apply match_tag in N as (rest' & [= <-] & Ho).
  apply opens_tag_body in Ho as (b & r & -> & Hb).
  rewrite (@tag_match b r l Hb) in H. injection H as <-.
  exists b, r. auto.
Qed.

Lemma sub_from_In (ic : bool) (r : regex) (repl : pystr) (c : ascii) (t : pystr) :
  forall (l : pystr) (k : nat),
    In c (sub_from ic r repl l t k) -> In c t \/ In c repl.
Proof.
  induction t as [|d t IH]; intros l k H.
  - destruct k; [|destruct H]. simpl in H.
    destruct (match_at ic r l []); [|destruct H].
    rewrite app_nil_r in H. auto.
  - destruct k as [|k]; cbn [sub_from] in H.
    + destruct (match_at ic r l (d :: t)) as [e|].
      * apply in_app_or in H as [H|H]; [auto|].
        destruct (span (d :: t) e).
        -- destruct H as [->|H]; [left; left; reflexivity|].
           apply IH in H as [H|H]; [left; right; exact H | auto].
        -- apply IH in H as [H|H]; [left; right; exact H | auto].
      * destruct H as [->|H]; [left; left; reflexivity|].
        apply IH in H as [H|H]; [left; right; exact H | auto].
    + apply IH in H as [H|H]; [left; right; exact H | auto].
Qed.

(** One pass removes every tag. *)
Lemma sub_tag_free (n : nat) : forall (t l : pystr),
  length t <= n -> ~ has_tag (sub_from false tag (str " ") l t 0).
Proof.
  induction n as [|n IH]; intros t l Hn.
  - destruct t; [|simpl in Hn; lia]. rewrite ReFacts.sub_from_0.
    change (match_at false tag l []) with (@None cursor).
    intros (pre & b & rest & E & _). destruct pre; discriminate.
  - destruct t as [|c t].
    { rewrite ReFacts.sub_from_0. change (match_at false tag l []) with (@None cursor).
      intros (pre & b & rest & E & _). destruct pre; discriminate. }
    simpl in Hn. rewrite ReFacts.sub_from_0.
    destruct (match_at false tag l (c :: t)) as [e|] eqn:M.
    + assert (N : match_at false tag l (c :: t) <> None) by congruence.
      apply match_tag in N as (rest & [= -> <-] & _).
      destruct (match_tag_result _ _ M) as (b & r & -> & Hb & Ea).
      unfold span. rewrite Ea.
      replace (length ("<"%char :: b ++ ">"%char :: r) - length r)
        with (S (length (b ++ [">"%char])))
        by (cbn [length]; rewrite !length_app; cbn [length]; lia).
      replace (b ++ ">"%char :: r) with ((b ++ [">"%char]) ++ r)
        by (rewrite <- app_assoc; reflexivity).
      rewrite ReFacts.sub_from_skip.
      change (str " ") with [" "%char]. cbn [app].
      rewrite has_tag_cons. intros [[E _]|H]; [discriminate|].
      revert H. apply IH. rewrite length_app in Hn. simpl in Hn. lia.
    + rewrite has_tag_cons. intros [[-> Ho]|H].
      * assert (N : match_at false tag l ("<"%char :: t) <> None).
        { apply match_tag. exists t. split; [reflexivity|].
          destruct Ho as (c & rest & E & Hc & Hin).
          destruct t as [|d t'].
          - rewrite ReFacts.sub_from_0 in E.
            change (match_at false tag ("<"%char :: l) []) with (@None cursor) in E.
            discriminate.
          - assert (Hg : In ">"%char (d :: t')).
            { assert (Hs : In ">"%char
                         (sub_from false tag (str " ") ("<"%char :: l) (d :: t') 0))
                by (rewrite E; right; exact Hin).
              apply sub_from_In in Hs as [Hs|[Hs|[]]]; [exact Hs | discriminate]. }
            destruct (ascii_dec d ">") as [->|Hd].
            + exfalso. rewrite ReFacts.sub_from_0 in E.
              change (match_at false tag ("<"%char :: l) (">"%char :: t'))
                with (@None cursor) in E.
              injection E as <- _. congruence.
            + exists d, t'. split; [reflexivity|]. split; [exact Hd|].
              destruct Hg as [Hg|Hg]; [congruence | exact Hg]. }
        congruence.
      * revert H. apply IH. lia.
Qed.

Lemma squeeze_opens (t : pystr) (b : bool) :
  opens_tag (ReFacts.squeeze b t) -> b = false \/ StrFacts.starts_ws t = false ->
  opens_tag t.
Proof.
  intros (c & rest & E & Hc & Hin) Hb.
  destruct t as [|d t]; [discriminate|]. simpl in E.
  assert (G : forall b' u, In ">"%char (ReFacts.squeeze b' u) -> In ">"%char u).
  { intros b' u H. apply ReFacts.squeeze_In in H as [H|H]; [exact H | discriminate]. }
  destruct (Chr.isspace d) eqn:W.
  - destruct b.
    + destruct Hb as [Hb|Hb]; [discriminate|]. simpl in Hb. congruence.
    + injection E as <- <-. exists d, t. split; [reflexivity|].
      split; [intros ->; discriminate | eapply G, Hin].
  - injection E as <- <-. exists d, t. split; [reflexivity|].
    split; [exact Hc | eapply G, Hin].
Qed.

Lemma squeeze_tag_free (t : pystr) :
  forall b : bool, has_tag (ReFacts.squeeze b t) -> has_tag t.
Proof.
  induction t as [|d t IH]; intros b H.
  - destruct H as (pre & x & rest & E & _). destruct pre; discriminate.
  - simpl in H. rewrite has_tag_cons. destruct (Chr.isspace d) eqn:W.
    + right. destruct b; [eapply IH, H|].
      apply has_tag_cons in H as [[E _]|H]; [discriminate | eapply IH, H].
    + apply has_tag_cons in H as [[-> Ho]|H]; [left | right; eapply IH, H].
      split; [reflexivity|]. eapply squeeze_opens; [exact Ho | left; reflexivity].
Qed.

Lemma rstrip_prefix (s : pystr) : exists q, s = Str.rstrip s ++ q.
Proof.
  induction s as [|c s (q & IH)]; [exists []; reflexivity|].
  rewrite StrFacts.rstrip_cons. destruct (Str.rstrip s) as [|x r].
  - destruct (Chr.isspace c).
    + exists (c :: s). reflexivity.
    + exists q. simpl in *. congruence.
  - exists q. simpl in *. congruence.
Qed.

Lemma strip_tag_free (t : pystr) : has_tag (Str.strip t) -> has_tag t.
Proof.
  intros H. destruct (StrFacts.lstrip_suffix t) as (p & Ep).
  destruct (rstrip_prefix (Str.lstrip t)) as (q & Eq).
  rewrite Ep, Eq. apply has_tag_app. exact H.
Qed.

(** Without a tag, nothing matches and the substitution changes nothing. *)
Lemma sub_tag_fixed (t : pystr) : forall l : pystr,
  ~ has_tag t -> sub_from false tag (str " ") l t 0 = t.
Proof.
  induction t as [|c t IH]; intros l H.
  - reflexivity.
  - rewrite ReFacts.sub_from_0.
    destruct (match_at false tag l (c :: t)) as [e|] eqn:M.
    + exfalso. apply H.
      assert (N : match_at false tag l (c :: t) <> None) by congruence.
      apply match_tag in N as (rest & [= -> <-] & Ho).
      apply has_tag_cons. left. auto.
    + rewrite IH; [reflexivity|]. intros Ht. apply H, has_tag_cons. right. exact Ht.
Qed.

(** A cleaned description has no complete tag left, its only whitespace
    is the single space between words, and it has no space at either
    end. *)
Theorem clean_text_shape (html_text : option pystr) :
  match clean_text html_text with
  | None => html_text = None \/ html_text = Some []
  | Some y =>
      ~ has_tag y
      /\ (forall c, In c y -> Chr.isspace c = true -> c = " "%char)
      /\ (forall pre post, y <> pre ++ " "%char :: " "%char :: post)
      /\ (forall post, y <> " "%char :: post)
      /\ (forall pre, y <> pre ++ [" "%char])
  end.
Proof.
  destruct html_text as [[|c x]|]; [right; reflexivity | | left; reflexivity].
  unfold clean_text. cbn [Py.truthy_opt Str.nonempty negb ExtractFeatures.or_empty].
  rewrite ReFacts.sub_spaces.
  set (y0 := sub false tag (str " ") (c :: x)).
  assert (Hs : ReFacts.squeezed (Str.strip (ReFacts.squeeze false y0)) = true)
    by apply ReFacts.squeezed_strip, ReFacts.squeeze_squeezed.
  assert (Ht : Str.strip (Str.strip (ReFacts.squeeze false y0))
               = Str.strip (ReFacts.squeeze false y0))
    by apply StrFacts.strip_idempotent.
  set (y := Str.strip (ReFacts.squeeze false y0)) in *.
  split; [|split; [|split; [|split]]].
  - intros H. apply strip_tag_free, squeeze_tag_free in H.
    revert H. apply (@sub_tag_free (length (c :: x))). lia.
  - intros d Hin W. eapply AlphabetFacts.squeezed_space; eassumption.
  - intros pre post E. rewrite E in Hs.
    rewrite AlphabetFacts.squeezed_no_run in Hs by reflexivity. discriminate.
  - intros post E.
    assert (W : StrFacts.starts_ws y = false).
    { rewrite <- Ht. apply StrFacts.rstrip_starts, StrFacts.lstrip_starts. }
    rewrite E in W. discriminate.
  - intros pre E.
    assert (R : Str.rstrip y = y).
    { rewrite <- Ht at 1. unfold Str.strip.
      rewrite StrFacts.rstrip_idempotent. exact Ht. }
    rewrite E, AlphabetFacts.rstrip_snoc_space in R by reflexivity.
    pose proof (AlphabetFacts.rstrip_length pre) as L. rewrite R, length_app in L.
    simpl in L. lia.
Qed.

(** Cleaning a cleaned description again returns it unchanged, except
    that the empty result of an all-markup input becomes null. *)
Theorem clean_text_again (html_text : option pystr) :
  match clean_text html_text with
  | None => True
  | Some [] => clean_text (Some []) = None
  | Some y => clean_text (Some y) = Some y
  end.
Proof.
  destruct html_text as [[|c x]|]; [exact I | | exact I].
  unfold clean_text at 1.
  cbn [Py.truthy_opt Str.nonempty negb ExtractFeatures.or_empty].
  rewrite ReFacts.sub_spaces.
  set (y0 := sub false tag (str " ") (c :: x)).
  assert (Hs : ReFacts.squeezed (Str.strip (ReFacts.squeeze false y0)) = true)
    by apply ReFacts.squeezed_strip, ReFacts.squeeze_squeezed.
  assert (Ht : Str.strip (Str.strip (ReFacts.squeeze false y0))
               = Str.strip (ReFacts.squeeze false y0))
    by apply StrFacts.strip_idempotent.
  assert (Hf : ~ has_tag (Str.strip (ReFacts.squeeze false y0))).
  { intros H. apply strip_tag_free, squeeze_tag_free in H.
    revert H. apply (@sub_tag_free (length (c :: x))). lia. }
  destruct (Str.strip (ReFacts.squeeze false y0)) as [|d y] eqn:E; [reflexivity|].
  unfold clean_text. cbn [Py.truthy_opt Str.nonempty negb ExtractFeatures.or_empty].
  unfold sub at 2. rewrite (sub_tag_fixed [] Hf), ReFacts.sub_spaces.
  destruct (ReFacts.squeeze_fixed _ Hs) as [-> _]. rewrite Ht. reflexivity.
Qed.

End CleanTextShape.

(** * The baseline skills of a role *)

Module BaselineFacts.
Import ExtractFeatures.

Definition role_names : list pystr :=
  [str "Data Engineering"; str "Data Science"; str "Business Intelligence";
   str "Analytics"; str "Other"].

Lemma classify_role_family_range (title : option pystr) :
  In (classify_role_family title) role_names.
Proof.
  unfold classify_role_family, role_names. cbv zeta.
  repeat match goal with
         | |- context [if ?b then _ else _] => destruct b
         end; simpl; tauto.
Qed.

(** The baseline attached to a record is the table row of the role family
    its title was classified in: it is empty exactly when the family is
    Other, that is when no role rule fired; and the lookup ignores
    whitespace around the role, treats a null or empty role as Other and
    gives the empty list for every name that is not in the table. *)
Theorem baseline_of_classified_role :
  (forall r : posting,
      In (classify_role_family (Some (or_empty (title r))), main_baseline r)
         baseline_mapping
      /\ (main_baseline r = []
          <-> classify_role_family (Some (or_empty (title r))) = str "Other"))
  /\ (forall role : pystr,
         baseline_skills_for_role (Some role)
         = baseline_skills_for_role (Some (Str.strip role)))
  /\ baseline_skills_for_role None = []
  /\ baseline_skills_for_role (Some []) = []
  /\ (forall role : pystr,
         ~ In (Str.strip role) (map fst baseline_mapping) ->
         baseline_skills_for_role (Some role) = []).
Proof.
  split; [|split; [|split; [|split]]]; try reflexivity.
  - intros r. unfold main_baseline.
    pose proof (classify_role_family_range (Some (or_empty (title r)))) as H.
    unfold role_names in H.
    destruct H as [<-|[<-|[<-|[<-|[<-|[]]]]]]; (split; [vm_compute; tauto|]);
      split; intros E; try reflexivity; vm_compute in E; discriminate E.
  - intros role. destruct role as [|d role]; [reflexivity|].
    unfold baseline_skills_for_role at 1.
    cbn [Py.truthy_opt Str.nonempty or_empty]. cbv zeta.
    destruct (Str.strip (d :: role)) as [|c s] eqn:E; [reflexivity|].
    unfold baseline_skills_for_role.
    cbn [Py.truthy_opt Str.nonempty or_empty]. cbv zeta.
    rewrite <- E, StrFacts.strip_idempotent. reflexivity.
  - intros role Hn. unfold baseline_skills_for_role. cbv zeta.
    destruct role as [|d role].
    + reflexivity.
    + cbn [Py.truthy_opt Str.nonempty or_empty].
      destruct (find _ baseline_mapping) as [kv|] eqn:F; [|reflexivity].
      apply find_some in F as [Hin E]. apply StrFacts.str_eqb_eq in E.
      exfalso. apply Hn. rewrite <- E. apply in_map, Hin.
Qed.

End BaselineFacts.

(** * Locations written "City, State" *)

Module LocationRoundTrip.
Import CleanTransform.

Definition no_comma (s : pystr) : bool :=
  forallb (fun c => negb (Ascii.eqb c ",")) s.

(** A city as it can be written before the comma: not empty, no comma,
    no whitespace at either end. *)
Definition city_text (city : pystr) : bool :=
  Str.nonempty city && no_comma city && Str.eqb (Str.strip city) city.

Lemma rstrip_app_fixed (p x : pystr) :
  x <> [] -> Str.rstrip x = x -> Str.rstrip (p ++ x) = p ++ x.
Proof.
  intros Hne Hx. induction p as [|c p IH]; [exact Hx|].
  change ((c :: p) ++ x) with (c :: (p ++ x)).
  rewrite StrFacts.rstrip_cons, IH.
  destruct (p ++ x) eqn:E; [|reflexivity].
  apply app_eq_nil in E as [_ E]. congruence.
Qed.

Lemma split_on_app (a b : pystr) :
  no_comma a = true ->
  Str.split_on "," (a ++ ","%char :: b) = a :: Str.split_on "," b.
Proof.
  induction a as [|c a IH]; intros H; [reflexivity|].
  simpl in H. apply andb_prop in H as [Hc Ha]. apply negb_true_iff in Hc.
  change ((c :: a) ++ ","%char :: b) with (c :: (a ++ ","%char :: b)).
  cbn [Str.split_on]. rewrite Hc, IH by assumption. reflexivity.
Qed.

Lemma split_on_none (a : pystr) : no_comma a = true -> Str.split_on "," a = [a].
Proof.
  induction a as [|c a IH]; intros H; [reflexivity|].
  simpl in H. apply andb_prop in H as [Hc Ha]. apply negb_true_iff in Hc.
  cbn [Str.split_on]. rewrite Hc, IH by assumption. reflexivity.
Qed.

(** What the parse relies on, for a text [x] of the table: it is not
    empty, holds no comma and no whitespace at its ends. *)
Definition plain (x : pystr) : bool :=
  Str.nonempty x && no_comma x && negb (StrFacts.starts_ws x)
  && Str.eqb (Str.rstrip x) x.

Definition entry_ok (kv : pystr * pystr) : bool :=
  plain (fst kv) && plain (snd kv)
  && match state_of (fst kv) with Ok n => Str.eqb n (snd kv) | Raise _ => false end
  && Str.mem (fst kv) STATE_ABBRS && Str.mem (snd kv) STATE_NAMES
  && negb (Str.mem (snd kv) STATE_ABBRS).

Lemma table_ok : forallb entry_ok US_STATES = true.
Proof. vm_compute. reflexivity. Qed.

Lemma parse_second_part (city x : pystr) :
  city_text city = true -> plain x = true ->
  Str.strip (ExtractFeatures.or_empty (Some (city ++ str ", " ++ x)))
  = city ++ str ", " ++ x
  /\ map Str.strip
       (filter (fun p => Str.nonempty (Str.strip p))
               (Str.split_on "," (city ++ str ", " ++ x)))
     = [city; x].
Proof.
  unfold city_text, plain. intros Hc Hx.
  apply andb_prop in Hc as [Hc Hcs]. apply andb_prop in Hc as [Hcn Hcc].
  apply StrFacts.str_eqb_eq in Hcs.
  apply andb_prop in Hx as [Hx Hxr]. apply andb_prop in Hx as [Hx Hxw].
  apply andb_prop in Hx as [Hxn Hxc].
  apply StrFacts.str_eqb_eq in Hxr. apply negb_true_iff in Hxw.
  apply StrFacts.nonempty_true in Hxn.
  assert (Hxs : Str.strip x = x)
    by (unfold Str.strip; rewrite StrFacts.lstrip_fixed; assumption).
  assert (Hsx : Str.strip (" "%char :: x) = x) by (unfold Str.strip; simpl; exact Hxs).
  assert (Hcw : StrFacts.starts_ws city = false).
  { rewrite <- Hcs. apply StrFacts.rstrip_starts, StrFacts.lstrip_starts. }
  change (str ", ") with [","%char; " "%char]. cbn [ExtractFeatures.or_empty app].
  split.
  - unfold Str.strip. rewrite StrFacts.lstrip_fixed.
    + replace (city ++ ","%char :: " "%char :: x)
        with ((city ++ [","%char; " "%char]) ++ x)
        by (rewrite <- app_assoc; reflexivity).
      apply rstrip_app_fixed; assumption.
    + destruct city; [discriminate | exact Hcw].
  - rewrite split_on_app, split_on_none by (simpl; assumption).
    cbn [filter]. rewrite Hcs, Hcn, Hsx.
    destruct x; [congruence|]. cbn [Str.nonempty map]. rewrite Hcs, Hsx.
    reflexivity.
Qed.

(** A location written as a city, a comma and a state of the table --
    its two-letter abbreviation or its full name -- parses to that city
    and the full name of that state. *)
Theorem parse_city_comma_state (city abbr name : pystr) :
  In (abbr, name) US_STATES ->
  city_text city = true ->
  parse_city_state (Some (city ++ str ", " ++ abbr)) = Ok (Some city, Some name)
  /\ parse_city_state (Some (city ++ str ", " ++ name)) = Ok (Some city, Some name).
Proof.
  intros Hin Hc.
  pose proof table_ok as T. rewrite forallb_forall in T.
  specialize (T _ Hin). unfold entry_ok in T. cbn [fst snd] in T.
  apply andb_prop in T as [T Hna]. apply andb_prop in T as [T Hn].
  apply andb_prop in T as [T Ha]. apply andb_prop in T as [T Hs].
  apply andb_prop in T as [Pa Pn]. apply negb_true_iff in Hna.
  assert (Truthy : forall x, Py.truthy_opt (Some (city ++ str ", " ++ x)) = true).
  { intros x. unfold city_text in Hc. destruct city; [discriminate | reflexivity]. }
  split; unfold parse_city_state; rewrite Truthy; cbn [negb].
  - destruct (@parse_second_part city abbr Hc Pa) as [-> ->].
    rewrite Ha. destruct (state_of abbr) as [n|e]; [|discriminate].
    apply StrFacts.str_eqb_eq in Hs. subst n. reflexivity.
  - destruct (@parse_second_part city name Hc Pn) as [-> ->].
    rewrite Hna, Hn. reflexivity.
Qed.

Lemma parse_city_comma_state_witness :
  parse_city_state (Some (str "Salt Lake City, UT"))
  = Ok (Some (str "Salt Lake City"), Some (str "Utah"))
  /\ parse_city_state (Some (str "Salt Lake City, Utah"))
     = Ok (Some (str "Salt Lake City"), Some (str "Utah")).
Proof.
  apply (@parse_city_comma_state (str "Salt Lake City") (str "UT") (str "Utah")).
  - unfold US_STATES. apply in_map_iff. exists ("UT", "Utah")%string.
    split; [reflexivity|]. simpl. tauto.
  - reflexivity.
Defined.

End LocationRoundTrip.

(** * Normalised text as words joined by spaces *)

Module TokenFacts.
Import Str.

Abbreviation words_of := (ReFacts.run_of StrFacts.non_ws).
Abbreviation after_words := (ReFacts.after_run StrFacts.non_ws).

Lemma join_cons (sep p : pystr) (ps : list pystr) :
  join sep (p :: ps)
  = p ++ match ps with [] => [] | _ :: _ => sep ++ join sep ps end.
Proof. destruct ps; simpl; [rewrite app_nil_r|]; reflexivity. Qed.

Lemma split_space (c : ascii) (t : pystr) :
  Chr.isspace c = true -> split (c :: t) = split t.
Proof. intros W. unfold split. simpl. rewrite W. reflexivity. Qed.

Lemma non_ws_negb (c : ascii) : StrFacts.non_ws c = negb (Chr.isspace c).
Proof. reflexivity. Qed.

Lemma split_go_word (t : pystr) : forall cur : pystr,
  cur <> [] ->
  split_go cur t = (rev cur ++ words_of t) :: split (after_words t).
Proof.
  induction t as [|d t IH]; intros cur Hne.
  - simpl. destruct cur; [congruence|]. rewrite app_nil_r. reflexivity.
  - cbn [split_go ReFacts.run_of ReFacts.after_run].
    rewrite (non_ws_negb d). destruct (Chr.isspace d) eqn:W; cbn [negb].
    + destruct cur; [congruence|]. rewrite app_nil_r.
      rewrite (@split_space _ _ W). reflexivity.
    + rewrite IH by discriminate. simpl. rewrite <- app_assoc. reflexivity.
Qed.

Lemma split_word (c : ascii) (t : pystr) :
  Chr.isspace c = false ->
  split (c :: t) = (c :: words_of t) :: split (after_words t).
Proof.
  intros W. unfold split at 1. simpl. rewrite W.
  rewrite split_go_word by discriminate. reflexivity.
Qed.

Lemma split_nonempty_tokens (t tok : pystr) : In tok (split t) -> tok <> [].
Proof. intros H. apply LocationFacts.split_token in H. tauto. Qed.

Lemma join_empty (toks : list pystr) :
  (forall tok, In tok toks -> tok <> []) -> join (str " ") toks = [] -> toks = [].
Proof.
  intros H E. destruct toks as [|p ps]; [reflexivity|].
  rewrite join_cons in E. apply app_eq_nil in E as [E _].
  exfalso. apply (H p); [left; reflexivity | exact E].
Qed.

(** What is left of the words when the text may start with whitespace. *)
Definition glue (lead : bool) (toks : list pystr) : pystr :=
  match toks with
  | [] => []
  | _ :: _ => (if lead then [" "%char] else []) ++ join (str " ") toks
  end.

Lemma rstrip_word (c : ascii) (s : pystr) :
  Chr.isspace c = false -> rstrip (c :: s) = c :: rstrip s.
Proof.
  intros W. rewrite StrFacts.rstrip_cons. rewrite W.
  destruct (rstrip s); reflexivity.
Qed.

Lemma rstrip_squeeze (t : pystr) : forall b : bool,
  rstrip (ReFacts.squeeze b t) = glue (negb b && StrFacts.starts_ws t) (split t).
Proof.
  induction t as [|c t IH]; intros b.
  - destruct b; reflexivity.
  - cbn [ReFacts.squeeze StrFacts.starts_ws].
    destruct (Chr.isspace c) eqn:W.
    + rewrite (@split_space _ _ W). destruct b; cbn [negb andb].
      * rewrite IH. reflexivity.
      * rewrite StrFacts.rstrip_cons, IH. cbn [negb andb]. unfold glue.
        destruct (split t) as [|p ps] eqn:E; [reflexivity|].
        destruct (join (str " ") (p :: ps)) eqn:J; [|reflexivity].
        exfalso. apply join_empty in J; [discriminate|].
        intros tok Hin. rewrite <- E in Hin. eapply split_nonempty_tokens, Hin.
    + rewrite andb_false_r. rewrite (@rstrip_word _ _ W), IH, (@split_word _ _ W).
      cbn [negb andb]. unfold glue at 2. cbn [app]. rewrite join_cons.
      destruct t as [|d t]; [reflexivity|].
      cbn [StrFacts.starts_ws ReFacts.run_of ReFacts.after_run].
      rewrite (non_ws_negb d).
      destruct (Chr.isspace d) eqn:Wd; cbn [negb].
      * rewrite (@split_space _ _ Wd). unfold glue.
        destruct (split t); reflexivity.
      * rewrite (@split_word _ _ Wd). unfold glue. cbn [app].
        rewrite join_cons. reflexivity.
Qed.

(** [re.sub(r"\s+", " ", t).strip()] is [" ".join(t.split())]. *)
Lemma strip_squeeze_join (t : pystr) :
  strip (ReFacts.squeeze false t) = join (str " ") (split t).
Proof.
  unfold strip. destruct t as [|c t]; [reflexivity|].
  cbn [ReFacts.squeeze]. destruct (Chr.isspace c) eqn:W.
  - cbn [lstrip]. change (Chr.isspace " ") with true. cbn iota.
    rewrite StrFacts.lstrip_fixed
      by (apply (proj2 (ReFacts.squeeze_squeezed t true)); reflexivity).
    rewrite rstrip_squeeze, (@split_space _ _ W). cbn [negb andb]. unfold glue.
    destruct (split t); reflexivity.
  - cbn [lstrip]. rewrite W.
    replace (c :: ReFacts.squeeze false t) with (ReFacts.squeeze false (c :: t))
      by (simpl; rewrite W; reflexivity).
    rewrite rstrip_squeeze. cbn [negb andb StrFacts.starts_ws]. rewrite W.
    unfold glue. destruct (split (c :: t)); reflexivity.
Qed.

Lemma split_app_space (a b : pystr) (w : ascii) :
  Chr.isspace w = true -> split (a ++ w :: b) = split a ++ split b.
Proof.
  intros W. unfold split.
  enough (H : forall cur, split_go cur (a ++ w :: b) = split_go cur a ++ split_go [] b)
    by apply H.
  induction a as [|c a IH]; intros cur.
  - simpl. rewrite W. destruct cur; reflexivity.
  - cbn [app split_go]. destruct (Chr.isspace c).
    + destruct cur; rewrite IH; reflexivity.
    + apply IH.
Qed.

End TokenFacts.

(** * The skills of a field are skills of the record *)

Module BlobFacts.
Import Re ExtractFeatures.

(** The words of a text: the character steps of [normalize_text], then
    the maximal runs without whitespace. *)
Definition words (s : pystr) : list pystr :=
  Str.split (map NormalizeFacts.norm_char s).

(** The blob [main] builds from a row. *)
Definition blob (r : posting) : pystr :=
  or_empty (title r) ++ str (String "010" "") ++ or_empty (location_raw r)
  ++ str (String "010" "") ++ or_empty (description_clean r).

(** The normalised text is its words joined by single spaces, and the
    words of the blob of a row are the words of its title, of its raw
    location and of its description, in that order. *)
Theorem normalize_text_words :
  (forall s : pystr, normalize_text (Some s) = Str.join (str " ") (words s))
  /\ (forall r : posting,
         words (blob r)
         = words (or_empty (title r)) ++ words (or_empty (location_raw r))
           ++ words (or_empty (description_clean r))).
Proof.
  split.
  - intros s. rewrite NormalizeFacts.normalize_text_steps.
    apply TokenFacts.strip_squeeze_join.
  - intros r. unfold blob, words.
    change (str (String "010" "")) with ["010"%char].
    rewrite !map_app. cbn [map app].
    change (NormalizeFacts.norm_char "010") with "010"%char.
    rewrite !TokenFacts.split_app_space by reflexivity. reflexivity.
Qed.

Definition lead (toks : list pystr) : pystr :=
  match toks with [] => [] | _ :: _ => Str.join (str " ") toks ++ str " " end.

Definition trail (toks : list pystr) : pystr :=
  match toks with [] => [] | _ :: _ => str " " ++ Str.join (str " ") toks end.

Lemma join_app_l (A B : list pystr) :
  B <> [] -> Str.join (str " ") (A ++ B) = lead A ++ Str.join (str " ") B.
Proof.
  intros HB. induction A as [|p A IH]; [reflexivity|].
  change ((p :: A) ++ B) with (p :: (A ++ B)).
  rewrite TokenFacts.join_cons, IH.
  destruct (A ++ B) eqn:E; [apply app_eq_nil in E as [_ E]; congruence|].
  unfold lead. rewrite TokenFacts.join_cons. destruct A; simpl;
    rewrite <- ?app_assoc; reflexivity.
Qed.

Lemma join_app_r (B C : list pystr) :
  B <> [] -> Str.join (str " ") (B ++ C) = Str.join (str " ") B ++ trail C.
Proof.
  intros HB. induction B as [|p B IH]; [congruence|].
  change ((p :: B) ++ C) with (p :: (B ++ C)).
  rewrite !TokenFacts.join_cons. destruct B as [|q B].
  - cbn [app]. rewrite app_nil_r. unfold trail.
    destruct C; rewrite ?app_nil_r; reflexivity.
  - rewrite IH by discriminate. cbn [app]. rewrite <- !app_assoc. reflexivity.
Qed.

Lemma occurs_nonempty (a mid : pystr) :
  SkillFacts.alias_occurs a mid -> a <> [] -> mid <> [].
Proof.
  intros H Ha. destruct H as [|ws a seg Hne _ _|x c a seg _ _ _];
    [congruence | | discriminate].
  destruct ws; [congruence | discriminate].
Qed.

Lemma ends_with_word_lead (A : list pystr) (pre : pystr) :
  SkillFacts.ends_with_word pre = false ->
  SkillFacts.ends_with_word (lead A ++ pre) = false.
Proof.
  unfold SkillFacts.ends_with_word. intros H. rewrite rev_app_distr.
  destruct (rev pre) as [|c p]; [|exact H]. simpl.
  destruct A as [|t A]; [reflexivity|]. unfold lead.
  rewrite rev_app_distr. reflexivity.
Qed.

Lemma starts_with_word_trail (C : list pystr) (post : pystr) :
  SkillFacts.starts_with_word post = false ->
  SkillFacts.starts_with_word (post ++ trail C) = false.
Proof.
  destruct post as [|c p]; [|exact (fun H => H)]. intros _.
  destruct C; reflexivity.
Qed.

(** A match among the words [B] is still a match when words come before
    and after. *)
Lemma search_among_words (al : list pystr) (A B C : list pystr) :
  al <> [] -> (forall a, In a al -> a <> []) ->
  found (search true (skill_regex al) (Str.join (str " ") B)) = true ->
  found (search true (skill_regex al) (Str.join (str " ") (A ++ B ++ C))) = true.
Proof.
  intros Hne Ha H. apply SkillFacts.skill_regex_search in H; [|assumption].
  destruct H as (a & pre & mid & post & Hin & E & Ho & Hb & Hf).
  assert (HB : B <> []).
  { intros ->. simpl in E. pose proof (occurs_nonempty Ho (Ha a Hin)) as M.
    destruct pre; [destruct mid; [congruence | discriminate] | discriminate]. }
  apply SkillFacts.skill_regex_search; [assumption|].
  exists a, (lead A ++ pre), mid, (post ++ trail C).
  split; [assumption|]. split.
  - rewrite join_app_l by (destruct B; [congruence | discriminate]).
    rewrite join_app_r, E by assumption. rewrite <- !app_assoc. reflexivity.
  - split; [assumption|]. split.
    + apply ends_with_word_lead, Hb.
    + apply starts_with_word_trail, Hf.
Qed.

(** For a skill compiled from at least one alias, none of them empty:
    when it is found in the title alone, in the raw location alone or in
    the description alone, it is among the skills of the record. *)
Theorem field_skills_in_record
    (compiled : list (pystr * regex)) (r : posting) (canonical : pystr) :
  (forall rx, In (canonical, rx) compiled ->
              exists al, rx = skill_regex al /\ al <> []
                         /\ forall a, In a al -> a <> []) ->
  In canonical (fst (extract_skills compiled (title r)))
  \/ In canonical (fst (extract_skills compiled (location_raw r)))
  \/ In canonical (fst (extract_skills compiled (description_clean r))) ->
  In canonical (skills (main_row compiled r)).
Proof.
  intros Hc H.
  assert (S : skills (main_row compiled r)
              = fst (extract_skills compiled (Some (blob r)))) by reflexivity.
  rewrite S. clear S.
  destruct normalize_text_words as [Hw Hb].
  assert (G : forall field A C,
             words (blob r) = A ++ words (or_empty field) ++ C ->
             In canonical (fst (extract_skills compiled field)) ->
             In canonical (fst (extract_skills compiled (Some (blob r))))).
  { intros field A C E Hin.
    apply SkillFacts.extract_skills_In in Hin as (rx & Hrx & Hf).
    apply SkillFacts.extract_skills_In. exists rx. split; [assumption|].
    destruct (Hc rx Hrx) as (al & -> & Hne & Ha).
    cbn [or_empty]. rewrite Hw, E. rewrite Hw in Hf.
    apply search_among_words; assumption. }
  destruct H as [H|[H|H]].
  - apply (G (title r) [] (words (or_empty (location_raw r))
                             ++ words (or_empty (description_clean r))));
      [rewrite Hb; reflexivity | exact H].
  - apply (G (location_raw r) (words (or_empty (title r)))
             (words (or_empty (description_clean r))));
      [rewrite Hb; reflexivity | exact H].
  - apply (G (description_clean r)
             (words (or_empty (title r)) ++ words (or_empty (location_raw r))) []);
      [rewrite Hb, app_nil_r, <- app_assoc; reflexivity | exact H].
Qed.

Lemma field_skills_in_record_witness :
  In (str "power bi")
     (skills (main_row
                [(str "power bi", skill_regex [str "power bi"; str "pbi"])]
                (Posting (Some (str "Power BI Developer"))
                         (Some (str "Austin, TX"))
                         (Some (str "Build dashboards."))))).
Proof.
  apply field_skills_in_record.
  - intros rx [[= <-]|[]]. exists [str "power bi"; str "pbi"].
    split; [reflexivity|]. split; [discriminate|].
    intros a [<-|[<-|[]]]; discriminate.
  - left. left. reflexivity.
Defined.

End BlobFacts.

(** * The summary a pipeline step's output is reduced to *)

Module SummaryFacts.
Import Str Re ReFacts ContainsFacts CleanTransform RunPipeline.

Lemma search_from_eq (ic : bool) (r : regex) (l t : pystr) :
  search_from ic r l t =
  match match_at ic r l t with
  | Some e => Some e
  | None =>
      match t with
      | [] => None
      | c :: t' => search_from ic r (c :: l) t'
      end
  end.
Proof. destruct t; reflexivity. Qed.

Lemma run_word (w : pystr) (g : option pystr) : forall l t : pystr,
  run false (word w) (Cursor l t g) =
  if startswith w t then [Cursor (rev w ++ l) (skipn (length w) t) g] else [].
Proof.
  induction w as [|c w IH]; intros l t; [reflexivity|].
  cbn [word]. rewrite run_Seq, run_Lit.
  destruct t as [|d t]; [reflexivity|].
  rewrite step1_cons. cbn [startswith lit_eq].
  destruct (Ascii.eqb c d) eqn:E; [|reflexivity].
  apply Ascii.eqb_eq in E. subst d. cbn [flat_map]. rewrite app_nil_r, IH.
  cbn [andb]. destruct (startswith w t); [|reflexivity].
  simpl. rewrite <- app_assoc. reflexivity.
Qed.

Lemma firstn_run (p : ascii -> bool) (t : pystr) :
  firstn (length t - length (after_run p t)) t = run_of p t.
Proof.
  rewrite (run_split p t) at 1 3. rewrite length_app.
  replace (length (run_of p t) + length (after_run p t) - length (after_run p t))
    with (length (run_of p t) + 0) by lia.
  rewrite firstn_app_2. simpl. apply app_nil_r.
Qed.

(** [(\d+)] takes the whole run of digits ahead and captures it. *)
Lemma run_number (l t : pystr) (g : option pystr) :
  hd_error (run false number (Cursor l t g)) =
  match t with
  | c :: _ =>
      if Chr.isdecimal c
      then Some (Cursor (rev (run_of Chr.isdecimal t) ++ l)
                        (after_run Chr.isdecimal t)
                        (Some (run_of Chr.isdecimal t)))
      else None
  | [] => None
  end.
Proof.
  unfold number. cbn [run behind ahead group1].
  destruct t as [|c t']; [reflexivity|].
  rewrite map_map, rep_cons. cbn [may_more andb Nat.pred option_map].
  rewrite app_nil_r. destruct (Chr.isdecimal c) eqn:Pc; [|reflexivity].
  pose proof (rep_greedy Chr.isdecimal t' (c :: l)) as H.
  destruct (rep Chr.isdecimal 0 None (c :: l) t') as [|x xs]; [discriminate|].
  injection H as ->. cbn [map hd_error fst snd behind ahead].
  pose proof (firstn_run Chr.isdecimal (c :: t')) as F.
  cbn [run_of after_run] in F. rewrite Pc in F. rewrite F.
  cbn [run_of after_run]. rewrite Pc. cbn [rev]. rewrite <- app_assoc.
  reflexivity.
Qed.

Lemma run_of_all (p : ascii -> bool) (ds rest : pystr) :
  forallb p ds = true ->
  match rest with c :: _ => p c = false | [] => True end ->
  run_of p (ds ++ rest) = ds /\ after_run p (ds ++ rest) = rest.
Proof.
  intros Hd Hr. induction ds as [|d ds IH]; simpl.
  - destruct rest as [|c rest]; [auto|]. simpl. rewrite Hr. auto.
  - simpl in Hd. apply andb_prop in Hd as [-> Hd].
    destruct (IH Hd) as [-> ->]. auto.
Qed.

Lemma startswith_app_long (w : pystr) : forall x y : pystr,
  length w <= length x -> startswith w (x ++ y) = startswith w x.
Proof.
  induction w as [|a w IH]; intros x y H; [reflexivity|].
  destruct x as [|b x]; simpl in *; [lia|].
  rewrite IH by lia. reflexivity.
Qed.

Lemma startswith_self (w t : pystr) : startswith w (w ++ t) = true.
Proof. apply startswith_spec. eauto. Qed.

Lemma skipn_self (w t : pystr) : skipn (length w) (w ++ t) = t.
Proof. induction w; simpl; auto. Qed.

(** The search for a literal followed by [tail] skips a prefix in which
    the literal does not start. *)
Lemma search_literal_first (w : pystr) (tail : regex) (body : pystr) :
  w <> [] ->
  forall pre l : pystr,
  contains w (pre ++ removelast w) = false ->
  search_from false (Seq (word w) tail) l (pre ++ w ++ body) =
  search_from false (Seq (word w) tail) (rev pre ++ l) (w ++ body).
Proof.
  intros Hw. induction pre as [|c pre IH]; intros l H; [reflexivity|].
  cbn [app contains] in H. apply orb_false_elim in H as [H1 H2].
  cbn [app]. rewrite search_from_eq. unfold match_at at 1.
  rewrite run_Seq, run_word.
  replace (startswith w (c :: pre ++ w ++ body)) with false.
  - cbn [flat_map hd_error]. rewrite IH by exact H2.
    cbn [rev]. rewrite <- app_assoc. reflexivity.
  - rewrite <- H1. symmetry.
    transitivity (startswith w ((c :: pre ++ removelast w)
                                ++ [last w " "%char] ++ body)).
    + f_equal. cbn [app]. f_equal. rewrite <- app_assoc. f_equal.
      rewrite (app_removelast_last " "%char Hw) at 1.
      rewrite <- app_assoc. reflexivity.
    + apply startswith_app_long.
      pose proof (f_equal (@length ascii) (app_removelast_last " "%char Hw)) as L.
      rewrite length_app in L. cbn [length] in *. rewrite length_app. lia.
Qed.

Lemma hd_error_app (A : Type) (a b : list A) (x : A) :
  hd_error a = Some x -> hd_error (a ++ b) = Some x.
Proof. destruct a; [discriminate | auto]. Qed.

Lemma digit_not_space (c : ascii) :
  Chr.isdecimal c = true -> Chr.isspace c = false.
Proof.
  intros H.
  pose proof (@ChrFacts.by_cases
                (fun c => implb (Chr.isdecimal c) (negb (Chr.isspace c)))
                ltac:(vm_compute; reflexivity) c) as E.
  cbv beta in E. rewrite H in E. simpl in E.
  apply negb_true_iff in E. exact E.
Qed.

(** [str(n)] of a count is a non-empty string of digits. *)
Lemma uint_digits (d : Decimal.uint) :
  forallb Chr.isdecimal (str (NilEmpty.string_of_uint d)) = true.
Proof.
  unfold str. induction d; simpl; try rewrite IHd; reflexivity.
Qed.

Lemma str_of_count_digits (n : nat) :
  forallb Chr.isdecimal (str_of_count n) = true.
Proof.
  unfold str_of_count, Py.str_of_scalar.
  destruct (Z.of_nat n) as [|p|p] eqn:E; [reflexivity| |lia].
  apply (uint_digits (Pos.to_uint p)).
Qed.

Lemma str_of_count_nonempty (n : nat) : str_of_count n <> [].
Proof.
  unfold str_of_count, Py.str_of_scalar.
  destruct (Z.of_nat n) as [|p|p] eqn:E; [discriminate| |lia].
  cbn [Z.to_int NilEmpty.string_of_int]. unfold str.
  pose proof (DecimalPos.Unsigned.to_uint_nonnil p) as H.
  destruct (Pos.to_uint p); [congruence|discriminate..].
Qed.

Definition stops (rest : pystr) : Prop :=
  match rest with c :: _ => Chr.isdecimal c = false | [] => True end.

(** Where the number is found: after the first occurrence of the label
    and the white space that follows it. *)
Lemma number_after (l ws rest : pystr) (n : nat) (optional_space : bool) :
  forallb Chr.isspace ws = true ->
  (optional_space = false -> ws = []) ->
  stops rest ->
  exists e,
    hd_error (run false
                (if optional_space
                 then Seq (Rep Chr.isspace 0 None) number else number)
                (Cursor l (ws ++ str_of_count n ++ rest) None)) = Some e
    /\ group1 e = Some (str_of_count n).
Proof.
  intros Hws Hopt Hrest.
  pose proof (str_of_count_digits n) as Hd.
  pose proof (@str_of_count_nonempty n) as Hn.
  destruct (@run_of_all Chr.isdecimal (str_of_count n) rest Hd Hrest) as [R1 R2].
  assert (N : forall l', exists e,
             hd_error (run false number
                         (Cursor l' (str_of_count n ++ rest) None)) = Some e
             /\ group1 e = Some (str_of_count n)).
  { intros l'. rewrite run_number, R1, R2.
    destruct (str_of_count n) as [|d ds]; [congruence|].
    cbn [app]. simpl in Hd. apply andb_prop in Hd as [-> _]. eauto. }
  destruct optional_space.
  - assert (S : match str_of_count n ++ rest with
                | c :: _ => Chr.isspace c = false | [] => True end).
    { destruct (str_of_count n) as [|d ds]; [congruence|].
      simpl in Hd. apply andb_prop in Hd as [Hd _].
      apply digit_not_space, Hd. }
    destruct (@run_of_all Chr.isspace ws (str_of_count n ++ rest) Hws S)
      as [W1 W2].
    rewrite run_Seq, run_Rep. cbn [behind ahead group1].
    pose proof (rep_greedy Chr.isspace (ws ++ str_of_count n ++ rest) l) as G.
    rewrite W1, W2 in G.
    destruct (rep Chr.isspace 0 None l (ws ++ str_of_count n ++ rest))
      as [|x xs]; [discriminate|].
    injection G as ->. cbn [map flat_map fst snd].
    destruct (N (rev ws ++ l)) as (e & E1 & E2).
    exists e. split; [apply hd_error_app, E1 | exact E2].
  - rewrite (Hopt eq_refl). apply N.
Qed.

Lemma search_labelled (w pre ws rest : pystr) (n : nat) (optional_space : bool) :
  w <> [] ->
  contains w (pre ++ removelast w) = false ->
  forallb Chr.isspace ws = true ->
  (optional_space = false -> ws = []) ->
  stops rest ->
  exists e,
    search false
      (Seq (word w)
           (if optional_space
            then Seq (Rep Chr.isspace 0 None) number else number))
      (pre ++ w ++ ws ++ str_of_count n ++ rest) = Some e
    /\ group1 e = Some (str_of_count n).
Proof.
  intros Hw Hpre Hws Hopt Hrest. unfold search.
  rewrite search_literal_first by assumption.
  rewrite search_from_eq. unfold match_at.
  rewrite run_Seq, run_word, startswith_self, skipn_self.
  cbn [flat_map]. rewrite app_nil_r.
  destruct (@number_after (rev w ++ rev pre ++ []) ws rest n optional_space
              Hws Hopt Hrest) as (e & E1 & E2).
  rewrite E1. eauto.
Qed.

(** A needle with a character the text lacks is not in the text. *)
Lemma contains_without_char (z : ascii) (needle x : pystr) :
  In z needle -> ~ In z x -> contains needle x = false.
Proof.
  intros Hz Hx. destruct (contains needle x) eqn:E; [|reflexivity].
  apply contains_spec in E as (p & q & ->). exfalso. apply Hx.
  apply in_or_app. right. apply in_or_app. left. exact Hz.
Qed.

(** Digits appended to the text do not create an occurrence of a needle
    without digits. *)
Lemma contains_digits_r (needle a x : pystr) :
  needle <> [] ->
  forallb (fun c => negb (Chr.isdecimal c)) needle = true ->
  forallb Chr.isdecimal x = true ->
  contains needle (a ++ x) = contains needle a.
Proof.
  intros Hne Hn Hx.
  assert (D : forall c, In c x -> ~ In c needle).
  { intros c Hc Hc'. rewrite forallb_forall in Hn, Hx.
    specialize (Hn c Hc'). rewrite (Hx c Hc) in Hn. discriminate. }
  destruct x as [|d x]; [rewrite app_nil_r; reflexivity|].
  rewrite contains_across by (auto; apply D; left; reflexivity).
  destruct needle as [|z needle]; [congruence|].
  rewrite (@contains_without_char z (z :: needle) x).
  - apply orb_false_r.
  - left. reflexivity.
  - intros Hz. apply (D z); [right; exact Hz | left; reflexivity].
Qed.

Definition LF : pystr := ["010"%char].

Lemma stops_LF (rest : pystr) : stops (LF ++ rest).
Proof. reflexivity. Qed.

(** X12. The summary the pipeline logs for the ingestion step is the
    number of rows [fetch_jobs.main] reports: on the output of a run that
    processed [total_rows] rows, [parse_summary] gives
    ["rows=" + str(total_rows)]. *)
Theorem ingestion_summary (total_rows : nat) :
  parse_summary (str "Ingestion") (FetchJobs.main_stdout total_rows)
  = str "rows=" ++ str_of_count total_rows.
Proof.
  destruct (@search_labelled (str "rows_processed=")
              (str "[START] Deep scan ingestion" ++ LF
               ++ str "[DONE] Deep scan complete | ")
              [] (LF ++ []) total_rows false)
    as (e & E1 & E2);
    [discriminate | reflexivity | reflexivity | reflexivity | apply stops_LF |].
  assert (E : search false (field "rows_processed=")
                (FetchJobs.main_stdout total_rows) = Some e).
  { rewrite <- E1. unfold FetchJobs.main_stdout, printed, field.
    cbn [flat_map]. rewrite <- !app_assoc. reflexivity. }
  change (parse_summary (str "Ingestion") (FetchJobs.main_stdout total_rows))
    with (match search false (field "rows_processed=")
                  (FetchJobs.main_stdout total_rows) with
          | Some _ =>
              str "rows="
              ++ group_or_unknown
                   (search false (field "rows_processed=")
                      (FetchJobs.main_stdout total_rows))
          | None => str "rows=?"
          end).
  rewrite E. unfold group_or_unknown. rewrite E2. reflexivity.
Qed.

(** X13. The summary logged for the cleaning step gives the two counts
    [clean_transform.main] prints, both the number of raw rows. *)
Theorem cleaning_summary (raw_rows : nat) :
  parse_summary (str "Cleaning") (CleanTransform.main_stdout raw_rows)
  = str "raw=" ++ str_of_count raw_rows
    ++ str " | clean=" ++ str_of_count raw_rows.
Proof.
  set (L1 := str "[INFO] Starting Phase 2 clean transform...").
  set (L4 := str "[NEXT] Verify state fill: SELECT state, COUNT(*) FROM job_postings_clean GROUP BY state;").
  set (N := str_of_count raw_rows).
  destruct (@search_labelled (str "Raw rows fetched:")
              (L1 ++ LF ++ str "[INFO] ") (str " ")
              (LF ++ (str "[DONE] Clean rows upserted: " ++ N) ++ LF
               ++ L4 ++ LF)
              raw_rows true)
    as (e1 & E1 & G1);
    [discriminate | reflexivity | reflexivity | discriminate
     | apply stops_LF |].
  destruct (@search_labelled (str "Clean rows upserted:")
              ((L1 ++ LF ++ str "[INFO] Raw rows fetched: " ++ N) ++ LF
               ++ str "[DONE] ") (str " ")
              (LF ++ L4 ++ LF)
              raw_rows true)
    as (e2 & E2 & G2);
    [discriminate | | reflexivity | discriminate | apply stops_LF |].
  { rewrite <- app_assoc. unfold LF at 2. cbn [app].
    rewrite contains_across;
      [|discriminate| vm_compute; intuition discriminate].
    replace (L1 ++ LF ++ str "[INFO] Raw rows fetched: " ++ N)
      with ((L1 ++ LF ++ str "[INFO] Raw rows fetched: ") ++ N)
      by (rewrite <- !app_assoc; reflexivity).
    rewrite contains_digits_r;
      [reflexivity | discriminate | reflexivity
       | apply str_of_count_digits]. }
  fold N in E1, E2.
  assert (S1 : search false (field_ws "Raw rows fetched:")
                 (CleanTransform.main_stdout raw_rows) = Some e1).
  { rewrite <- E1. unfold CleanTransform.main_stdout, printed, field_ws.
    fold N L1 L4. cbn [flat_map]. rewrite <- !app_assoc. reflexivity. }
  assert (S2 : search false (field_ws "Clean rows upserted:")
                 (CleanTransform.main_stdout raw_rows) = Some e2).
  { rewrite <- E2. unfold CleanTransform.main_stdout, printed, field_ws.
    fold N L1 L4. cbn [flat_map]. rewrite <- !app_assoc. reflexivity. }
  change (parse_summary (str "Cleaning") (CleanTransform.main_stdout raw_rows))
    with (str "raw="
          ++ group_or_unknown
               (search false (field_ws "Raw rows fetched:")
                  (CleanTransform.main_stdout raw_rows))
          ++ str " | clean="
          ++ group_or_unknown
               (search false (field_ws "Clean rows upserted:")
                  (CleanTransform.main_stdout raw_rows))).
  rewrite S1, S2. unfold group_or_unknown. rewrite G1, G2. reflexivity.
Qed.

Definition EQ : ascii := "="%char.

(** X14. The summary logged for the fresh sweep gives the number of
    locations and of rows [fresh_sweep.main] prints, whatever the keyword
    of the run, as long as the keyword holds no equals sign. *)
Theorem fresh_sweep_summary (keyword : pystr) (locations total_rows : nat) :
  ~ In EQ keyword ->
  parse_summary (str "FreshSweep")
    (FreshSweep.main_stdout keyword locations total_rows)
  = str "locations=" ++ str_of_count locations
    ++ str " | rows=" ++ str_of_count total_rows.
Proof.
  intros Hkw.
  set (P0 := str "[START] Fresh sweep | keyword=").
  set (Q := "'"%char).
  set (NL := str_of_count locations).
  set (NT := str_of_count total_rows).
  set (L2 := str "[DONE] Fresh sweep complete | rows_processed=" ++ NT).
  assert (K : forall w, In EQ w -> contains w keyword = false).
  { intros w Hw. apply (@contains_without_char EQ); assumption. }
  destruct (@search_labelled (str "locations=")
              (P0 ++ Q :: keyword ++ str "' | ") []
              (LF ++ L2 ++ LF) locations false)
    as (e1 & E1 & G1);
    [discriminate | | reflexivity | reflexivity | apply stops_LF |].
  { replace ((P0 ++ Q :: keyword ++ str "' | ")
             ++ removelast (str "locations="))
      with (P0 ++ Q :: (keyword ++ str "' | locations"))
      by (rewrite <- !app_assoc; cbn [app]; rewrite <- !app_assoc;
          reflexivity).
    rewrite contains_across;
      [|discriminate| vm_compute; intuition discriminate].
    apply orb_false_intro; [reflexivity|].
    apply (@contains_without_char EQ).
    - vm_compute. tauto.
    - intros H. apply in_app_or in H as [H|H]; [exact (Hkw H)|].
      vm_compute in H. intuition discriminate. }
  destruct (@search_labelled (str "rows_processed=")
              ((P0 ++ Q :: keyword ++ Q :: str " | locations=" ++ NL)
               ++ LF ++ str "[DONE] Fresh sweep complete | ") []
              (LF ++ []) total_rows false)
    as (e2 & E2 & G2);
    [discriminate | | reflexivity | reflexivity | apply stops_LF |].
  { rewrite <- app_assoc. unfold LF at 1. cbn [app].
    rewrite contains_across;
      [|discriminate| vm_compute; intuition discriminate].
    apply orb_false_intro; [|reflexivity].
    rewrite contains_across;
      [|discriminate| vm_compute; intuition discriminate].
    apply orb_false_intro; [reflexivity|].
    rewrite contains_across;
      [|discriminate| vm_compute; intuition discriminate].
    apply orb_false_intro; [apply K; vm_compute; tauto|].
    rewrite contains_digits_r;
      [reflexivity | discriminate | reflexivity
       | apply str_of_count_digits]. }
  fold NL in E1. fold NT in E2.
  assert (S1 : search false (field "locations=")
                 (FreshSweep.main_stdout keyword locations total_rows)
               = Some e1).
  { rewrite <- E1. unfold FreshSweep.main_stdout, printed, field.
    fold NL NT. cbn [flat_map]. rewrite <- !app_assoc. cbn [app].
    rewrite <- !app_assoc. reflexivity. }
  assert (S2 : search false (field "rows_processed=")
                 (FreshSweep.main_stdout keyword locations total_rows)
               = Some e2).
  { rewrite <- E2. unfold FreshSweep.main_stdout, printed, field.
    fold NL NT. cbn [flat_map]. rewrite <- !app_assoc. cbn [app].
    rewrite <- !app_assoc. reflexivity. }
  change (parse_summary (str "FreshSweep")
            (FreshSweep.main_stdout keyword locations total_rows))
    with (str "locations="
          ++ group_or_unknown
               (search false (field "locations=")
                  (FreshSweep.main_stdout keyword locations total_rows))
          ++ str " | rows="
          ++ group_or_unknown
               (search false (field "rows_processed=")
                  (FreshSweep.main_stdout keyword locations total_rows))).
  rewrite S1, S2. unfold group_or_unknown. rewrite G1, G2. reflexivity.
Qed.

Lemma fresh_sweep_summary_witness :
  ~ In EQ (str "data analyst")
  /\ parse_summary (str "FreshSweep")
       (FreshSweep.main_stdout (str "data analyst") 12 340)
     = str "locations=12 | rows=340".
Proof.
  assert (H : ~ In EQ (str "data analyst")).
  { vm_compute. intuition discriminate. }
  split; [exact H|].
  exact (@fresh_sweep_summary (str "data analyst") 12 340 H).
Defined.

Lemma search_from_In (ic : bool) (r : regex) (e : cursor) (t : pystr) :
  forall l : pystr,
    search_from ic r l t = Some e ->
    exists l' t', In e (run ic r (Cursor l' t' None)).
Proof.
  induction t as [|c t IH]; intros l H; rewrite search_from_eq in H;
    unfold match_at in H;
    destruct (run ic r (Cursor l _ None)) as [|x xs] eqn:R;
    cbn [hd_error] in H.
  - discriminate.
  - injection H as ->. exists l, []. rewrite R. left. reflexivity.
  - eapply IH, H.
  - injection H as ->. exists l, (c :: t). rewrite R. left. reflexivity.
Qed.

Lemma groupless_word (w : pystr) : groupless (word w) = true.
Proof. induction w as [|c w IH]; [reflexivity | exact IH]. Qed.

Lemma field_captures (name : string) : captures_digits (field name).
Proof.
  apply digits_right; [apply groupless_word | apply digits_group].
Qed.

Lemma field_ws_captures (name : string) : captures_digits (field_ws name).
Proof.
  apply digits_right; [apply groupless_word|].
  apply digits_right; [reflexivity | apply digits_group].
Qed.

(** A count as a summary shows it: digits, or a question mark. *)
Definition count_text (x : pystr) : Prop :=
  x = str "?" \/ (x <> [] /\ forallb Chr.isdecimal x = true).

Lemma group_or_unknown_count (r : regex) (t : pystr) :
  captures_digits r -> count_text (group_or_unknown (search false r t)).
Proof.
  intros C. unfold search.
  destruct (search_from false r [] t) as [e|] eqn:E; [|left; reflexivity].
  apply search_from_In in E as (l' & t' & H).
  destruct (@run_captures_digits false r C _ _ H) as (g & Hg & Hd & Hn).
  right. cbn [group_or_unknown]. rewrite Hg. auto.
Qed.

(** X19. Whatever a step writes to its output, its summary holds the
    fixed labels of the step and, for each count, either a non-empty
    string of decimal digits or a question mark: no other text of the
    output reaches the log line, and a label other than the five known
    ones gives [ok]. *)
Theorem summary_well_formed (label stdout : pystr) :
  exists a b : pystr,
    count_text a /\ count_text b
    /\ parse_summary label stdout
       = if Str.eqb label (str "RawCleanup")
         then str "deleted=" ++ a ++ str " | kept=" ++ b
         else if Str.eqb label (str "FreshSweep")
         then str "locations=" ++ a ++ str " | rows=" ++ b
         else if Str.eqb label (str "Ingestion")
         then str "rows=" ++ a
         else if Str.eqb label (str "Cleaning")
         then str "raw=" ++ a ++ str " | clean=" ++ b
         else if Str.eqb label (str "Metrics")
         then str "clean=" ++ a ++ str " | days=" ++ b
         else str "ok".
Proof.
  unfold parse_summary.
  destruct (Str.eqb label (str "RawCleanup")).
  { do 2 eexists. split; [|split; [|reflexivity]];
      apply group_or_unknown_count, field_captures. }
  destruct (Str.eqb label (str "FreshSweep")).
  { do 2 eexists. split; [|split; [|reflexivity]];
      apply group_or_unknown_count, field_captures. }
  destruct (Str.eqb label (str "Ingestion")).
  { exists (group_or_unknown
              (search false (field "rows_processed=") stdout)), (str "?").
    split; [apply group_or_unknown_count, field_captures|].
    split; [left; reflexivity|].
    destruct (search false (field "rows_processed=") stdout); reflexivity. }
  destruct (Str.eqb label (str "Cleaning")).
  { do 2 eexists. split; [|split; [|reflexivity]];
      apply group_or_unknown_count, field_ws_captures. }
  destruct (Str.eqb label (str "Metrics")).
  { do 2 eexists. split; [|split; [|reflexivity]];
      apply group_or_unknown_count, field_ws_captures. }
  exists (str "?"), (str "?"). repeat split; left; reflexivity.
Qed.

End SummaryFacts.

(** * The cleanup of the raw files *)

Module CleanupFacts.
Import Str Re ReFacts ContainsFacts CleanTransform RunPipeline SummaryFacts.
Import CleanupRawFiles.

Section Sweep.
Variable now : Z.

Definition cutoff : Z := (now - days RETENTION_DAYS)%Z.

(** What the loop does with a file: it removes it, counts it as kept, or
    reports a failure. *)
Definition removed (f : raw_file) : bool :=
  match mtime f, remove f with
  | Done m, Done _ => (m <? cutoff)%Z
  | _, _ => false
  end.

Definition retained (f : raw_file) : bool :=
  match mtime f with
  | Done m => negb (m <? cutoff)%Z
  | Fails _ => false
  end.

Definition failure (f : raw_file) : list pystr :=
  match mtime f with
  | Done m =>
      if (m <? cutoff)%Z
      then match remove f with Done _ => [] | Fails e => [warn f e] end
      else []
  | Fails e => [warn f e]
  end.

Lemma sweep_from (files : list raw_file) : forall st : progress,
  let r := fold_left (visit cutoff) files st in
  left_files r = left_files st ++ filter (fun f => negb (removed f)) files
  /\ deleted r = deleted st + length (filter removed files)
  /\ kept r = kept st + length (filter retained files)
  /\ lines r = lines st ++ flat_map failure files.
Proof.
  induction files as [|f files IH]; intros st.
  - simpl. rewrite !app_nil_r. repeat split; lia.
  - cbn [fold_left]. destruct (IH (visit cutoff st f)) as (I1 & I2 & I3 & I4).
    cbv zeta. rewrite I1, I2, I3, I4. clear IH I1 I2 I3 I4.
    cbn [filter flat_map]. unfold visit, removed, retained, failure.
    destruct (mtime f) as [m|e]; cbn [left_files deleted kept lines negb].
    + destruct (m <? cutoff)%Z; cbn [negb].
      * destruct (remove f) as [[]|e];
          cbn [left_files deleted kept lines negb length app];
          rewrite <- ?app_assoc; repeat split; try reflexivity; lia.
      * destruct (remove f) as [[]|e];
          cbn [left_files deleted kept lines negb length app];
          rewrite <- ?app_assoc, ?app_nil_r; repeat split;
          try reflexivity; lia.
    + rewrite <- ?app_assoc. repeat split; try reflexivity; lia.
Qed.

Lemma three_way (f : raw_file) :
  (if removed f then 1 else 0) + (if retained f then 1 else 0)
  + length (failure f) = 1.
Proof.
  unfold removed, retained, failure.
  destruct (mtime f) as [m|e]; [|reflexivity].
  destruct (m <? cutoff)%Z, (remove f) as [[]|e]; reflexivity.
Qed.

End Sweep.

(** X15. What the cleanup does to the directory.  Every file is counted
    once, as deleted, as kept or by a warning line; the files left are
    those not deleted, in their order; a file is deleted only when its
    modification time is strictly before the cutoff, so a file modified
    ten days ago or less, to the microsecond, stays. *)
Theorem cleanup_accounts_for_every_file (now : Z) (files : list raw_file) :
  let st := sweep now files in
  deleted st + kept st + length (lines st) = length files
  /\ left_files st = filter (fun f => negb (removed now f)) files
  /\ length (left_files st) + deleted st = length files
  /\ (forall f m, In f files -> mtime f = Done m ->
        (now - m <= days RETENTION_DAYS)%Z -> In f (left_files st)).
Proof.
  cbv zeta. unfold sweep.
  destruct (@sweep_from now files (Progress [] 0 0 [])) as (I1 & I2 & I3 & I4).
  cbv zeta in I1, I2, I3, I4. fold (cutoff now) in *.
  cbn [left_files deleted kept lines app Nat.add] in I1, I2, I3, I4.
  rewrite I1, I2, I3, I4. clear I1 I2 I3 I4.
  repeat split.
  - induction files as [|f files IH]; [reflexivity|].
    cbn [filter flat_map length]. rewrite length_app.
    pose proof (three_way now f) as T.
    destruct (removed now f), (retained now f); cbn [length] in *; lia.
  - induction files as [|f files IH]; [reflexivity|].
    cbn [filter length]. destruct (removed now f); cbn [negb length]; lia.
  - intros f m Hf Hm Hle. apply filter_In. split; [exact Hf|].
    unfold removed. rewrite Hm.
    replace (m <? cutoff now)%Z with false; [destruct (remove f); reflexivity|].
    symmetry. apply Z.ltb_ge. unfold cutoff. lia.
Qed.

Lemma printed_app (a b : list pystr) : printed (a ++ b) = printed a ++ printed b.
Proof. apply flat_map_app. Qed.

Lemma printed_without (z : ascii) (ls : list pystr) :
  z <> "010"%char -> Forall (fun w => ~ In z w) ls -> ~ In z (printed ls).
Proof.
  intros Hz H. induction H as [|w ls Hw _ IH]; [intros []|].
  cbn [printed flat_map]. intros I.
  apply in_app_or in I as [I|I]; [|exact (IH I)].
  apply in_app_or in I as [I|[I|[]]]; [exact (Hw I) | congruence].
Qed.

(** X16. The summary logged for the cleanup step gives the two counters
    of the run, provided no warning line of the run (a file name and an
    error message) holds an equals sign. *)
Theorem cleanup_summary (now : Z) (files : list raw_file) :
  Forall (fun w => ~ In EQ w) (lines (sweep now files)) ->
  parse_summary (str "RawCleanup") (snd (main true now files))
  = str "deleted=" ++ str_of_count (deleted (sweep now files))
    ++ str " | kept=" ++ str_of_count (kept (sweep now files)).
Proof.
  intros Hw.
  assert (HW : ~ In EQ (printed (lines (sweep now files)))).
  { apply printed_without; [discriminate | exact Hw]. }
  set (W := printed (lines (sweep now files))) in *.
  set (D := str_of_count (deleted (sweep now files))).
  set (K := str_of_count (kept (sweep now files))).
  set (A := str "[DONE] Raw cleanup complete ").
  destruct (@search_labelled (str "deleted=") (W ++ A ++ str "| ") []
              (str " | kept=" ++ K ++ LF) (deleted (sweep now files)) false)
    as (e1 & E1 & G1);
    [discriminate | | reflexivity | reflexivity | reflexivity |].
  { apply (@contains_without_char EQ); [vm_compute; tauto|].
    intros H. apply in_app_or in H as [H|H];
      [apply in_app_or in H as [H|H]; [exact (HW H)|]|];
      vm_compute in H; intuition discriminate. }
  destruct (@search_labelled (str "kept=")
              ((W ++ A) ++ "|"%char :: (str " deleted=" ++ D)
               ++ " "%char :: str "| ") []
              (LF ++ []) (kept (sweep now files)) false)
    as (e2 & E2 & G2);
    [discriminate | | reflexivity | reflexivity | apply stops_LF |].
  { replace (((W ++ A) ++ "|"%char :: (str " deleted=" ++ D)
              ++ " "%char :: str "| ") ++ removelast (str "kept="))
      with ((W ++ A) ++ "|"%char :: ((str " deleted=" ++ D)
              ++ " "%char :: str "| kept"))
      by (rewrite <- !app_assoc; cbn [app]; rewrite <- !app_assoc;
          reflexivity).
    rewrite contains_across;
      [|discriminate| vm_compute; intuition discriminate].
    apply orb_false_intro.
    - apply (@contains_without_char EQ); [vm_compute; tauto|].
      intros H. apply in_app_or in H as [H|H]; [exact (HW H)|].
      vm_compute in H. intuition discriminate.
    - rewrite contains_across;
        [|discriminate| vm_compute; intuition discriminate].
      apply orb_false_intro; [|reflexivity].
      rewrite contains_digits_r;
        [reflexivity | discriminate | reflexivity
         | apply str_of_count_digits]. }
  fold D in E1. fold K in E2.
  assert (O : snd (main true now files)
              = W ++ (A ++ str "| deleted=" ++ D ++ str " | kept=" ++ K) ++ LF).
  { unfold main. cbn [negb snd]. rewrite printed_app. fold W.
    cbn [printed flat_map]. rewrite app_nil_r. fold D K LF.
    rewrite <- !app_assoc. reflexivity. }
  assert (S1 : search false (field "deleted=") (snd (main true now files))
               = Some e1).
  { rewrite <- E1, O. unfold field. rewrite <- !app_assoc. reflexivity. }
  assert (S2 : search false (field "kept=") (snd (main true now files))
               = Some e2).
  { rewrite <- E2, O. unfold field. rewrite <- !app_assoc. cbn [app].
    rewrite <- !app_assoc. reflexivity. }
  change (parse_summary (str "RawCleanup") (snd (main true now files)))
    with (str "deleted="
          ++ group_or_unknown
               (search false (field "deleted=") (snd (main true now files)))
          ++ str " | kept="
          ++ group_or_unknown
               (search false (field "kept=") (snd (main true now files)))).
  rewrite S1, S2. unfold group_or_unknown. rewrite G1, G2. reflexivity.
Qed.

Definition old_file : raw_file :=
  RawFile (str "adzuna_CA_data analyst.json") (Done 0%Z) (Done tt).
Definition new_file : raw_file :=
  RawFile (str "adzuna_TX_data engineer.json") (Done (days 3)) (Done tt).
Definition locked_file : raw_file :=
  RawFile (str "adzuna_NY_ml.json") (Done 0%Z) (Fails (str "Permission denied")).

Lemma cleanup_summary_witness :
  Forall (fun w => ~ In EQ w)
         (lines (sweep (days 11) [old_file; new_file; locked_file]))
  /\ parse_summary (str "RawCleanup")
       (snd (main true (days 11) [old_file; new_file; locked_file]))
     = str "deleted=1 | kept=1".
Proof.
  assert (H : Forall (fun w => ~ In EQ w)
                (lines (sweep (days 11) [old_file; new_file; locked_file]))).
  { vm_compute. repeat constructor. intuition discriminate. }
  split; [exact H|].
  exact (@cleanup_summary (days 11) [old_file; new_file; locked_file] H).
Defined.

End CleanupFacts.

(** * The fresh sweep: locations and the rotation of keywords *)

Module FreshSweepFacts.
Import Str FreshSweep.

Lemma strip_line_end (s : pystr) :
  strip s = s -> strip (s ++ ["010"%char]) = s.
Proof.
  intros H. unfold strip in *.
  destruct s as [|c t].
  - reflexivity.
  - assert (W : Chr.isspace c = false).
    { destruct (Chr.isspace c) eqn:E; [|reflexivity].
      pose proof (StrFacts.lstrip_starts (c :: t)) as L.
      pose proof (StrFacts.rstrip_starts _ L) as R. rewrite H in R.
      simpl in R. congruence. }
    cbn [lstrip app] in *. rewrite W in *.
    change (c :: t ++ ["010"%char]) with ((c :: t) ++ ["010"%char]).
    rewrite AlphabetFacts.rstrip_snoc_space by reflexivity. exact H.
Qed.

(** X17. What [read_locations] returns: every location is non-empty,
    has no white space at either end and does not start with [#]; and
    the list is stable: written back one location per line, it is read
    again as the same list. *)
Theorem read_locations_stable (lines : list pystr) :
  Forall (fun s => s <> [] /\ strip s = s
                   /\ startswith (str "#") s = false)
         (read_locations lines)
  /\ read_locations (map (fun s => s ++ ["010"%char]) (read_locations lines))
     = read_locations lines.
Proof.
  assert (F : Forall (fun s => s <> [] /\ strip s = s
                               /\ startswith (str "#") s = false)
                     (read_locations lines)).
  { induction lines as [|line rest IH]; [constructor|].
    cbn [read_locations]. cbv zeta.
    destruct (nonempty (strip line)) eqn:N; [|exact IH].
    destruct (startswith (str "#") (strip line)) eqn:C; [exact IH|].
    cbn [andb negb]. constructor; [|exact IH].
    split; [apply StrFacts.nonempty_true, N|].
    split; [apply StrFacts.strip_idempotent | exact C]. }
  split; [exact F|].
  induction F as [|s out (Hn & Hs & Hc) _ IH]; [reflexivity|].
  cbn [map read_locations]. cbv zeta.
  rewrite (strip_line_end Hs), Hc.
  apply StrFacts.nonempty_true in Hn. rewrite Hn. cbn [andb negb].
  rewrite IH. reflexivity.
Qed.

(** Consecutive runs, each starting from the state file the one before
    left. *)
Fixpoint runs (k : nat) (KEYWORDS : list pystr) (file : option keyword_state)
    : option (list pystr * option keyword_state) :=
  match k with
  | 0 => Some ([], file)
  | S k' =>
      match pick_keyword_for_run KEYWORDS file with
      | Some (kw, file') =>
          match runs k' KEYWORDS file' with
          | Some (kws, file'') => Some (kw :: kws, file'')
          | None => None
          end
      | None => None
      end
  end.

(** The position in [KEYWORDS] the state file points at. *)
Definition position (n : nat) (file : option keyword_state) : nat :=
  Z.to_nat (state_get (load_keyword_state file) NEXT 0 mod Z.of_nat n).

Lemma state_get_set (st : keyword_state) (key : pystr) (v d : Z) :
  state_get (state_set st key v) key d = v.
Proof.
  induction st as [|[k x] st IH]; simpl.
  - rewrite StrFacts.str_eqb_refl. reflexivity.
  - destruct (eqb k key) eqn:E; simpl; rewrite E; auto.
Qed.

Lemma position_bound (n : nat) (file : option keyword_state) :
  n <> 0 -> position n file < n.
Proof.
  intros Hn. unfold position.
  pose proof (Z.mod_pos_bound (state_get (load_keyword_state file) NEXT 0)
                (Z.of_nat n) ltac:(lia)).
  lia.
Qed.

Lemma pick_spec (KEYWORDS : list pystr) (file : option keyword_state) :
  KEYWORDS <> [] ->
  exists st,
    pick_keyword_for_run KEYWORDS file
    = Some (nth (position (length KEYWORDS) file) KEYWORDS [], Some st)
    /\ position (length KEYWORDS) (Some st)
       = (position (length KEYWORDS) file + 1) mod length KEYWORDS.
Proof.
  intros Hk.
  assert (Hn : length KEYWORDS <> 0) by (destruct KEYWORDS; simpl; congruence).
  pose proof (position_bound file Hn) as Hb.
  unfold pick_keyword_for_run. destruct KEYWORDS as [|k0 K]; [congruence|].
  set (KW := k0 :: K) in *.
  fold (position (length KW) file).
  rewrite (nth_error_nth' KW [] Hb).
  eexists. split; [reflexivity|].
  unfold position at 1. cbn [load_keyword_state].
  rewrite state_get_set.
  rewrite Z.mod_mod by lia.
  set (z := state_get (load_keyword_state file) NEXT 0) in *.
  assert (E : (z mod Z.of_nat (length KW))%Z
              = Z.of_nat (position (length KW) file)).
  { unfold position. fold z. rewrite Z2Nat.id; [reflexivity|].
    apply Z.mod_pos_bound. lia. }
  rewrite E.
  replace (Z.of_nat (position (length KW) file) + 1)%Z
    with (Z.of_nat (position (length KW) file + 1)) by lia.
  rewrite <- Nat2Z.inj_mod. apply Nat2Z.id.
Qed.

Lemma runs_spec (KEYWORDS : list pystr) :
  KEYWORDS <> [] ->
  forall (k : nat) (file : option keyword_state),
  exists file',
    runs k KEYWORDS file
    = Some (map (fun t =>
                   nth ((position (length KEYWORDS) file + t)
                        mod length KEYWORDS) KEYWORDS [])
                (seq 0 k), file')
    /\ position (length KEYWORDS) file'
       = (position (length KEYWORDS) file + k) mod length KEYWORDS.
Proof.
  intros Hk.
  assert (Hn : length KEYWORDS <> 0) by (destruct KEYWORDS; simpl; congruence).
  induction k as [|k IH]; intros file.
  - exists file. split; [reflexivity|].
    rewrite Nat.add_0_r, Nat.mod_small; [reflexivity|].
    apply position_bound, Hn.
  - destruct (pick_spec file Hk) as (st & P1 & P2).
    destruct (IH (Some st)) as (file' & R1 & R2).
    exists file'. cbn [runs]. rewrite P1, R1. split.
    + f_equal. f_equal. cbn [seq map]. f_equal.
      * rewrite Nat.add_0_r, Nat.mod_small; [reflexivity|].
        apply position_bound, Hn.
      * rewrite <- seq_shift, map_map. apply map_ext. intros t.
        rewrite P2, Nat.Div0.add_mod_idemp_l. do 2 f_equal. lia.
    + rewrite R2, P2, Nat.Div0.add_mod_idemp_l. f_equal. lia.
Qed.

Lemma rotation (A : Type) (d : A) (l : list A) (j : nat) :
  j < length l ->
  map (fun t => nth ((j + t) mod length l) l d) (seq 0 (length l))
  = skipn j l ++ firstn j l.
Proof.
  intros Hj. apply (nth_ext _ _ d d).
  - rewrite length_map, length_seq, length_app, length_skipn, length_firstn.
    lia.
  - intros t Ht. rewrite length_map, length_seq in Ht.
    rewrite (nth_indep _ d (nth ((j + 0) mod length l) l d))
      by (rewrite length_map, length_seq; exact Ht).
    rewrite (map_nth (fun t => nth ((j + t) mod length l) l d) _ 0 t).
    rewrite seq_nth by exact Ht. cbn [Nat.add].
    destruct (Nat.lt_ge_cases t (length l - j)) as [H|H].
    + rewrite app_nth1 by (rewrite length_skipn; exact H).
      rewrite nth_skipn, Nat.mod_small by lia. reflexivity.
    + rewrite app_nth2 by (rewrite length_skipn; exact H).
      rewrite length_skipn, nth_firstn.
      replace (t - (length l - j) <? j) with true
        by (symmetry; apply Nat.ltb_lt; lia).
      replace (j + t) with ((t - (length l - j)) + 1 * length l) by lia.
      rewrite Nat.Div0.mod_add, Nat.mod_small by lia. reflexivity.
Qed.

(** X18. The keywords rotate.  With a non-empty list of [n] keywords,
    [n] consecutive runs of the fresh sweep use the keywords from the
    position the state file points at (reduced modulo [n], so any stored
    integer will do, and so will a missing file) to the end and then from
    the start: every keyword exactly once; and they leave the state at
    the position they started from. *)
Theorem keywords_rotate (KEYWORDS : list pystr) (file : option keyword_state) :
  KEYWORDS <> [] ->
  let n := length KEYWORDS in
  let i := position n file in
  exists file',
    runs n KEYWORDS file
    = Some (skipn i KEYWORDS ++ firstn i KEYWORDS, file')
    /\ Permutation KEYWORDS (skipn i KEYWORDS ++ firstn i KEYWORDS)
    /\ position n file' = i.
Proof.
  intros Hk n i.
  assert (Hn : n <> 0) by (subst n; destruct KEYWORDS; simpl; congruence).
  pose proof (position_bound file Hn) as Hi. fold i in Hi.
  destruct (runs_spec Hk n file) as (file' & R1 & R2).
  fold n i in R1, R2. exists file'. split; [|split].
  - rewrite R1. f_equal. f_equal. apply rotation. exact Hi.
  - rewrite <- (firstn_skipn i KEYWORDS) at 1. apply Permutation_app_comm.
  - rewrite R2. replace (i + n) with (i + 1 * n) by lia.
    rewrite Nat.Div0.mod_add. apply Nat.mod_small, Hi.
Qed.

Definition three_keywords : list pystr :=
  [str "Data Analyst"; str "Business Intelligence"; str "Analytics"].

Lemma keywords_rotate_witness :
  three_keywords <> []
  /\ exists file',
       runs 3 three_keywords (Some [(NEXT, 7%Z)])
       = Some ([str "Business Intelligence"; str "Analytics";
                str "Data Analyst"], file')
       /\ Permutation three_keywords
            [str "Business Intelligence"; str "Analytics"; str "Data Analyst"]
       /\ position 3 file' = 1.
Proof.
  assert (H : three_keywords <> []) by discriminate.
  split; [exact H|].
  exact (@keywords_rotate three_keywords (Some [(NEXT, 7%Z)]) H).
Defined.

End FreshSweepFacts.
